(** * DRM framebuffer pixel extractor: capture, detiling and raw-read model

    A shallow embedding of [km_new/kernel.c]: the Intel tiling detection,
    the tiled-to-linear converter, the GEM pixel extractor, the circular
    capture store and the raw read of [/proc/drm_fb_raw].

    Conventions.
    - C unsigned integers are [Z] with the wrap-around written at every
      operation ([add32], [mul32], [sub32] for [uint32_t]; [u64] for
      [size_t] and [pgoff_t]).
    - A byte buffer is a [list byte]; a pointer that may be [NULL] is an
      [option].
    - A function of the module returns [option]: [None] stands for an access
      outside a buffer or outside the capture array, which C leaves
      undefined. Error codes of the module are ordinary return values. *)

From stdpp Require Import base numbers list.
From Stdlib Require Import ZArith Lia.
From Stdlib.Strings Require Import Byte.

Open Scope Z_scope.

(** ** Machine arithmetic *)

Definition u32 (z : Z) : Z := z mod 2 ^ 32.
Definition u64 (z : Z) : Z := z mod 2 ^ 64.

Definition add32 (a b : Z) : Z := u32 (a + b).
Definition sub32 (a b : Z) : Z := u32 (a - b).
Definition mul32 (a b : Z) : Z := u32 (a * b).

(** ** Error codes (errno values, returned negated) *)

Definition EINVAL : Z := 22.
Definition ENOMEM : Z := 12.
Definition ENODATA : Z := 61.
Definition EFAULT : Z := 14.

(** ** Constants of the module *)

Definition MAX_FB_CAPTURE : Z := 5.
Definition MAX_CAPTURE_SIZE : Z := 3840 * 1080 * 4.

Definition INTEL_TILE_X_WIDTH : Z := 512.
Definition INTEL_TILE_X_HEIGHT : Z := 8.
Definition INTEL_TILE_Y_WIDTH : Z := 128.
Definition INTEL_TILE_Y_HEIGHT : Z := 32.

(** [fourcc_mod_code(vendor, val)] of the kernel's [drm_fourcc.h]: the vendor
    in the top byte, the value in the low 56 bits. *)
Definition DRM_FORMAT_MOD_VENDOR_INTEL : Z := 1.

Definition fourcc_mod_code (vendor val : Z) : Z :=
  Z.lor (Z.shiftl vendor 56) (Z.land val 0x00ffffffffffffff).

Definition I915_FORMAT_MOD_X_TILED : Z := fourcc_mod_code DRM_FORMAT_MOD_VENDOR_INTEL 1.
Definition I915_FORMAT_MOD_Y_TILED : Z := fourcc_mod_code DRM_FORMAT_MOD_VENDOR_INTEL 2.
Definition I915_FORMAT_MOD_Yf_TILED : Z := fourcc_mod_code DRM_FORMAT_MOD_VENDOR_INTEL 3.

Inductive intel_tiling : Type :=
| INTEL_TILING_NONE
| INTEL_TILING_X
| INTEL_TILING_Y
| INTEL_TILING_YF.

(** ** Memory *)

Abbreviation buffer := (list byte).

Definition blen (b : buffer) : Z := Z.of_nat (length b).

(** [b[i]] as an rvalue. *)
Definition load (b : buffer) (i : Z) : option byte :=
  if decide (0 <= i) then b !! Z.to_nat i else None.

(** [b[i] = v]. *)
Definition store (b : buffer) (i : Z) (v : byte) : option buffer :=
  if decide (0 <= i < blen b) then Some (<[Z.to_nat i := v]> b) else None.

(** [memcpy(dst + off, src, n)]. *)
Definition memcpy (dst : buffer) (off : Z) (src : buffer) (n : Z) : option buffer :=
  if decide (0 <= off /\ 0 <= n /\ off + n <= blen dst /\ n <= blen src)
  then Some (take (Z.to_nat off) dst ++ take (Z.to_nat n) src
             ++ drop (Z.to_nat (off + n)) dst)
  else None.

(** [for (i = start; ...; i++) body], run for [n] iterations. *)
Fixpoint for_loop {S : Type} (n : nat) (i : Z) (body : Z -> S -> option S) (s : S)
  : option S :=
  match n with
  | O => Some s
  | Datatypes.S n' =>
      match body i s with
      | Some s' => for_loop n' (i + 1) body s'
      | None => None
      end
  end.

(** ** Intel tiling utility functions *)

Definition tile_offset_x (x tile_width : Z) : Z := Z.land x (sub32 tile_width 1).

Definition tile_offset_y (y tile_height : Z) : Z := Z.land y (sub32 tile_height 1).

(** The tile dimensions chosen by the [switch] of [convert_tiled_to_linear];
    [None] is its [default] branch. *)
Definition tile_dims (tiling : intel_tiling) : option (Z * Z) :=
  match tiling with
  | INTEL_TILING_X => Some (INTEL_TILE_X_WIDTH, INTEL_TILE_X_HEIGHT)
  | INTEL_TILING_Y | INTEL_TILING_YF => Some (INTEL_TILE_Y_WIDTH, INTEL_TILE_Y_HEIGHT)
  | INTEL_TILING_NONE => None
  end.

(** Source offset of pixel [(x, y)] in the tiled buffer. *)
Definition src_offset_of (tile_w tile_h pitch x y : Z) : Z :=
  let tile_size := mul32 tile_w tile_h in
  let tiles_per_row := pitch / tile_w in
  let byte_x := mul32 x 4 in
  let tile_x := byte_x / tile_w in
  let tile_y := y / tile_h in
  let tile_index := add32 (mul32 tile_y tiles_per_row) tile_x in
  let in_tile_x := tile_offset_x byte_x tile_w in
  let in_tile_y := tile_offset_y y tile_h in
  add32 (add32 (mul32 tile_index tile_size) (mul32 in_tile_y tile_w)) in_tile_x.

(** Destination offset of pixel [(x, y)] in the linear buffer. *)
Definition dst_offset_of (width x y : Z) : Z :=
  add32 (mul32 (mul32 y width) 4) (mul32 x 4).

(** The bounds test that guards the copy of one byte. *)
Definition copy_guard (width height pitch src_offset dst_offset byte_offset : Z) : bool :=
  bool_decide (add32 src_offset byte_offset < mul32 height pitch)
  && bool_decide (add32 dst_offset byte_offset < mul32 (mul32 height width) 4).

(** Body of the innermost loop: one byte of one pixel. *)
Definition copy_byte (src_buffer : buffer) (width height pitch src_offset dst_offset : Z)
    (byte_offset : Z) (dst_buffer : buffer) : option buffer :=
  if copy_guard width height pitch src_offset dst_offset byte_offset then
    match load src_buffer (add32 src_offset byte_offset) with
    | Some v => store dst_buffer (add32 dst_offset byte_offset) v
    | None => None
    end
  else Some dst_buffer.

(** Body of the [x] loop: the four bytes of pixel [(x, y)]. *)
Definition copy_pixel (src_buffer : buffer) (width height pitch tile_w tile_h : Z)
    (y x : Z) (dst_buffer : buffer) : option buffer :=
  let src_offset := src_offset_of tile_w tile_h pitch x y in
  let dst_offset := dst_offset_of width x y in
  for_loop 4 0 (copy_byte src_buffer width height pitch src_offset dst_offset) dst_buffer.

(** Body of the [y] loop: one row. *)
Definition copy_row (src_buffer : buffer) (width height pitch tile_w tile_h : Z)
    (y : Z) (dst_buffer : buffer) : option buffer :=
  for_loop (Z.to_nat width) 0
    (copy_pixel src_buffer width height pitch tile_w tile_h y) dst_buffer.

(** [convert_tiled_to_linear]: the return value and the destination buffer
    after the call. *)
Definition convert_tiled_to_linear (src_buffer dst_buffer : option buffer)
    (width height pitch : Z) (tiling : intel_tiling) : option (Z * option buffer) :=
  match src_buffer, dst_buffer with
  | Some src, Some dst =>
      match tile_dims tiling with
      | Some (tile_w, tile_h) =>
          match for_loop (Z.to_nat height) 0
                  (copy_row src width height pitch tile_w tile_h) dst with
          | Some dst' => Some (0, Some dst')
          | None => None
          end
      | None => Some (- EINVAL, dst_buffer)
      end
  | _, _ => Some (- EINVAL, dst_buffer)
  end.


(** ** Framebuffers and GEM objects (the inputs of a capture) *)

Definition PAGE_SHIFT : Z := 12.
Definition PAGE_SIZE : Z := 4096.

(** An imported DMA-buf: its size, and what [dma_buf_vmap] yields (return
    code, mapped address or a null map, and whether the map is I/O memory). *)
Record dma_buf : Type := {
  dma_size : Z;
  vmap_ret : Z;
  vmap_vaddr : option buffer;
  vmap_is_iomem : bool
}.

(** A GEM object. [gem_mapping] is [filp->f_mapping] when both [filp] and
    the mapping are set: the page cache, where [find_get_page] finds a page
    or nothing. [gem_dma_buf] is set when both [dma_buf] and [import_attach]
    are. *)
Record drm_gem_object : Type := {
  gem_size : Z;
  gem_mapping : option (list (option buffer));
  gem_dma_buf : option dma_buf
}.

Record drm_framebuffer : Type := {
  fb_addr : Z;
  fb_width : Z;
  fb_height : Z;
  fb_format : Z;
  fb_pitches0 : Z;
  fb_modifier : Z;
  fb_obj0 : option drm_gem_object
}.

Record fb_pixel_data : Type := {
  fb : Z;
  dev : Z;
  pixel_buffer : option buffer;
  buffer_size : Z;
  width : Z;
  height : Z;
  format : Z;
  pitch : Z;
  timestamp : Z;
  valid : bool;
  has_pixels : bool;
  is_detiled : bool;
  detected_tiling : intel_tiling
}.

(** The slot after [memset(capture, 0, sizeof( *capture))]. *)
Definition zero_capture : fb_pixel_data :=
  {| fb := 0; dev := 0; pixel_buffer := None; buffer_size := 0;
     width := 0; height := 0; format := 0; pitch := 0; timestamp := 0;
     valid := false; has_pixels := false; is_detiled := false;
     detected_tiling := INTEL_TILING_NONE |}.

Definition set_pixel_buffer (c : fb_pixel_data) (p : option buffer) : fb_pixel_data :=
  {| fb := fb c; dev := dev c; pixel_buffer := p; buffer_size := buffer_size c;
     width := width c; height := height c; format := format c; pitch := pitch c;
     timestamp := timestamp c; valid := valid c; has_pixels := has_pixels c;
     is_detiled := is_detiled c; detected_tiling := detected_tiling c |}.

Definition set_is_detiled (c : fb_pixel_data) (b : bool) : fb_pixel_data :=
  {| fb := fb c; dev := dev c; pixel_buffer := pixel_buffer c;
     buffer_size := buffer_size c;
     width := width c; height := height c; format := format c; pitch := pitch c;
     timestamp := timestamp c; valid := valid c; has_pixels := has_pixels c;
     is_detiled := b; detected_tiling := detected_tiling c |}.

Definition set_flags (c : fb_pixel_data) (has_px is_valid : bool) : fb_pixel_data :=
  {| fb := fb c; dev := dev c; pixel_buffer := pixel_buffer c;
     buffer_size := buffer_size c;
     width := width c; height := height c; format := format c; pitch := pitch c;
     timestamp := timestamp c; valid := is_valid; has_pixels := has_px;
     is_detiled := is_detiled c; detected_tiling := detected_tiling c |}.

(** ** Tiling detection *)

Definition detect_intel_tiling (fbp : option drm_framebuffer) : intel_tiling :=
  match fbp with
  | None => INTEL_TILING_NONE
  | Some f =>
      if decide (fb_modifier f = 0) then INTEL_TILING_NONE
      else if decide (fb_modifier f = I915_FORMAT_MOD_X_TILED) then INTEL_TILING_X
      else if decide (fb_modifier f = I915_FORMAT_MOD_Y_TILED) then INTEL_TILING_Y
      else if decide (fb_modifier f = I915_FORMAT_MOD_Yf_TILED) then INTEL_TILING_YF
      else if decide (fb_pitches0 f mod INTEL_TILE_X_WIDTH = 0) then INTEL_TILING_X
      else INTEL_TILING_NONE
  end.

(** ** Allocation *)

(** What one call of [vmalloc] will do: fail, or hand out a block whose
    bytes are whatever the memory held. *)
Definition allocation : Type := option (nat -> byte).

Definition vmalloc (a : allocation) (size : Z) : option buffer :=
  match a with
  | Some fill => Some (fill <$> seq 0 (Z.to_nat size))
  | None => None
  end.

(** ** Pixel extraction *)

Definition find_get_page (mapping : list (option buffer)) (index : Z) : option buffer :=
  if decide (0 <= index) then
    match mapping !! Z.to_nat index with
    | Some page => page
    | None => None
    end
  else None.

(** [memcpy] through a pointer that may be null. *)
Definition memcpy_to (target : option buffer) (off : Z) (src : buffer) (n : Z)
  : option buffer :=
  match target with
  | Some tb => memcpy tb off src n
  | None => None
  end.

(** The [while (copied < target_size && index < num_pages)] loop of the SHMEM
    method. The function yields the target buffer and [copied] on exit; the
    loop runs at most [num_pages] times. *)
Fixpoint shmem_copy (fuel : nat) (mapping : list (option buffer))
    (target_buffer : option buffer) (target_size copied index num_pages : Z)
  : option (option buffer * Z) :=
  match fuel with
  | O => Some (target_buffer, copied)
  | Datatypes.S fuel' =>
      if bool_decide (copied < target_size) && bool_decide (index < num_pages) then
        match find_get_page mapping index with
        | Some kaddr =>
            let to_copy := Z.min PAGE_SIZE (u64 (target_size - copied)) in
            match memcpy_to target_buffer copied kaddr to_copy with
            | Some target_buffer' =>
                shmem_copy fuel' mapping (Some target_buffer') target_size
                  (u64 (copied + to_copy)) (index + 1) num_pages
            | None => None
            end
        | None =>
            shmem_copy fuel' mapping target_buffer target_size copied
              (index + 1) num_pages
        end
      else Some (target_buffer, copied)
  end.

(** The tail shared by both methods once bytes were copied: detile if needed,
    free the raw buffer, return. [target] is the buffer the method filled:
    the raw buffer when detiling, the pixel buffer of the capture otherwise. *)
Definition finish_extract (needs_detiling : bool) (target : option buffer)
    (capture : fb_pixel_data) : option (Z * fb_pixel_data) :=
  if needs_detiling then
    match convert_tiled_to_linear target (pixel_buffer capture)
            (width capture) (height capture) (pitch capture)
            (detected_tiling capture) with
    | Some (ret, dst') =>
        let capture := set_pixel_buffer capture dst' in
        if decide (ret = 0) then Some (ret, set_is_detiled capture true)
        else Some (ret, capture)
    | None => None
    end
  else Some (0, set_pixel_buffer capture target).

(** Method 3: an imported DMA-buf. *)
Definition extract_dma_buf (gem : drm_gem_object) (needs_detiling : bool)
    (target_buffer : option buffer) (target_size : Z) (capture : fb_pixel_data)
  : option (Z * fb_pixel_data) :=
  match gem_dma_buf gem with
  | Some d =>
      match vmap_vaddr d with
      | Some vaddr =>
          if decide (vmap_ret d = 0) then
            let to_copy := Z.min (dma_size d) target_size in
            match memcpy_to target_buffer 0 vaddr to_copy with
            | Some tb' => finish_extract needs_detiling (Some tb') capture
            | None => None
            end
          else Some (- ENODATA, capture)
      | None => Some (- ENODATA, capture)
      end
  | None => Some (- ENODATA, capture)
  end.

Definition is_none {A : Type} (o : option A) : bool :=
  match o with Some _ => false | None => true end.

Definition tiling_is_none (t : intel_tiling) : bool :=
  match t with INTEL_TILING_NONE => true | _ => false end.

Definition extract_gem_pixels (gem_obj : option drm_gem_object)
    (capture : fb_pixel_data) (raw_alloc : allocation) : option (Z * fb_pixel_data) :=
  match gem_obj with
  | None => Some (- EINVAL, capture)
  | Some gem =>
      let needs_detiling := negb (tiling_is_none (detected_tiling capture)) in
      let raw_buffer_size := mul32 (height capture) (pitch capture) in
      let raw_buffer := if needs_detiling then vmalloc raw_alloc raw_buffer_size else None in
      if needs_detiling && is_none raw_buffer then Some (- ENOMEM, capture)
      else
        let target_buffer := if needs_detiling then raw_buffer else pixel_buffer capture in
        let target_size := if needs_detiling then raw_buffer_size else buffer_size capture in
        match gem_mapping gem with
        | Some mapping =>
            (* Method 1: SHMEM page cache *)
            let num_pages := Z.shiftr (u64 (gem_size gem + PAGE_SIZE - 1)) PAGE_SHIFT in
            match shmem_copy (Z.to_nat num_pages) mapping target_buffer target_size
                    0 0 num_pages with
            | Some (tb', copied) =>
                if decide (copied > 0) then finish_extract needs_detiling tb' capture
                else extract_dma_buf gem needs_detiling tb' target_size capture
            | None => None
            end
        | None => extract_dma_buf gem needs_detiling target_buffer target_size capture
        end
  end.

(** ** The capture store *)

Record module_state : Type := {
  captured_fbs : list fb_pixel_data;
  capture_count : Z;
  current_index : Z
}.

(** The state left by [drm_fb_extractor_init]. *)
Definition init_state : module_state :=
  {| captured_fbs := replicate (Z.to_nat MAX_FB_CAPTURE) zero_capture;
     capture_count := 0; current_index := 0 |}.

(** What a capture reads from its environment: the clock and the outcome of
    its two allocations. *)
Record capture_env : Type := {
  ktime_get_ns : Z;
  pixel_alloc : allocation;
  raw_alloc : allocation
}.

(** [&captured_fbs[i]], read and written. *)
Definition slot_get (fbs : list fb_pixel_data) (i : Z) : option fb_pixel_data :=
  if decide (0 <= i) then fbs !! Z.to_nat i else None.

Definition slot_set (fbs : list fb_pixel_data) (i : Z) (c : fb_pixel_data)
  : list fb_pixel_data := <[Z.to_nat i := c]> fbs.

(** The slot once it has been zeroed and its metadata filled in, up to the
    computation of [buffer_size]; the pixel buffer is still [NULL]. *)
Definition new_capture (f : drm_framebuffer) (device : Z) (env : capture_env)
  : fb_pixel_data :=
  let expected_size := mul32 (mul32 (fb_height f) (fb_width f)) 4 in
  let expected_size :=
    if decide (expected_size > MAX_CAPTURE_SIZE) then MAX_CAPTURE_SIZE
    else expected_size in
  {| fb := fb_addr f; dev := device; pixel_buffer := None;
     buffer_size := expected_size;
     width := fb_width f; height := fb_height f;
     format := fb_format f; pitch := fb_pitches0 f;
     timestamp := ktime_get_ns env;
     valid := false; has_pixels := false; is_detiled := false;
     detected_tiling := detect_intel_tiling (Some f) |}.

Definition capture_fb_pixels (fbp : option drm_framebuffer) (device : Z)
    (env : capture_env) (st : module_state) : option (Z * module_state) :=
  match fbp with
  | None => Some (- EINVAL, st)
  | Some f =>
      match fb_obj0 f with
      | None => Some (- EINVAL, st)
      | Some gem =>
          match slot_get (captured_fbs st) (current_index st) with
          | None => None
          | Some _ =>
              let capture := new_capture f device env in
              match vmalloc (pixel_alloc env) (buffer_size capture) with
              | None =>
                  Some (- ENOMEM,
                        {| captured_fbs :=
                             slot_set (captured_fbs st) (current_index st) capture;
                           capture_count := capture_count st;
                           current_index := current_index st |})
              | Some buf =>
                  let capture := set_pixel_buffer capture (Some buf) in
                  match extract_gem_pixels (Some gem) capture (raw_alloc env) with
                  | None => None
                  | Some (ret, capture) =>
                      let capture :=
                        if decide (ret = 0) then set_flags capture true true
                        else set_flags capture false true in
                      Some (0,
                            {| captured_fbs :=
                                 slot_set (captured_fbs st) (current_index st) capture;
                               capture_count :=
                                 if decide (capture_count st < MAX_FB_CAPTURE)
                                 then capture_count st + 1 else capture_count st;
                               current_index :=
                                 (current_index st + 1) mod MAX_FB_CAPTURE |})
                  end
              end
          end
      end
  end.

(** One buffer-creation event: the framebuffer and device handed to
    [capture_fb_pixels], and what the call reads from its environment. *)
Record capture_event : Type := {
  ev_fb : option drm_framebuffer;
  ev_dev : Z;
  ev_env : capture_env
}.

(** A sequence of captures, with the return value of each. *)
Fixpoint run_captures (evs : list capture_event) (st : module_state)
  : option (list Z * module_state) :=
  match evs with
  | [] => Some ([], st)
  | ev :: evs' =>
      match capture_fb_pixels (ev_fb ev) (ev_dev ev) (ev_env ev) st with
      | Some (ret, st') =>
          match run_captures evs' st' with
          | Some (rets, st'') => Some (ret :: rets, st'')
          | None => None
          end
      | None => None
      end
  end.

(** ** Raw read *)

(** The scan [for (i = capture_count - 1; i >= 0; i--)] of [drm_fb_raw_read];
    [n] is the number of indices left, the scan is at index [n - 1]. The
    inner option is the capture found, if any. *)
Fixpoint find_capture (fbs : list fb_pixel_data) (n : nat)
  : option (option fb_pixel_data) :=
  match n with
  | O => Some None
  | Datatypes.S i =>
      match fbs !! i with
      | None => None
      | Some c => if valid c && has_pixels c then Some (Some c) else find_capture fbs i
      end
  end.

(** The result of a read: the return value, the bytes delivered to the user
    buffer and the file position after the call. *)
Record read_result : Type := {
  read_ret : Z;
  read_data : list byte;
  read_pos : Z
}.

(** [drm_fb_raw_read]. [count] is a [size_t], [pos] the file position on
    entry, [user_ok] tells whether [copy_to_user] can write the user
    buffer. *)
Definition drm_fb_raw_read (st : module_state) (count pos : Z) (user_ok : bool)
  : option read_result :=
  let offset := pos in
  match find_capture (captured_fbs st) (Z.to_nat (capture_count st)) with
  | None => None
  | Some None => Some {| read_ret := - ENODATA; read_data := []; read_pos := pos |}
  | Some (Some capture) =>
      match pixel_buffer capture with
      | None => Some {| read_ret := - ENODATA; read_data := []; read_pos := pos |}
      | Some buf =>
          if decide (u64 offset >= buffer_size capture) then
            Some {| read_ret := 0; read_data := []; read_pos := pos |}
          else
            let to_copy := Z.min count (u64 (buffer_size capture - offset)) in
            if decide (0 <= offset /\ offset + to_copy <= blen buf) then
              if user_ok then
                Some {| read_ret := to_copy;
                        read_data := take (Z.to_nat to_copy) (drop (Z.to_nat offset) buf);
                        read_pos := pos + to_copy |}
              else Some {| read_ret := - EFAULT; read_data := []; read_pos := pos |}
            else None
      end
  end.

(** ** The converter as the specification words it

    The offsets of pixel [(x, y)] over the integers, without wrap-around. *)

Definition spec_src_offset (tile_w tile_h source_pitch x y : Z) : Z :=
  let byte_x := x * 4 in
  let tile_x := byte_x / tile_w in
  let tile_y := y / tile_h in
  let tiles_per_row := source_pitch / tile_w in
  let tile_index := tile_y * tiles_per_row + tile_x in
  let in_tile_x := byte_x mod tile_w in
  let in_tile_y := y mod tile_h in
  tile_index * tile_w * tile_h + in_tile_y * tile_w + in_tile_x.

Definition spec_dst_offset (width x y : Z) : Z := y * width * 4 + x * 4.

(** [copied src d so do]: the four bytes of [src] from [so] are in [d] from
    [do]. *)
Definition copied (src d : buffer) (so do : Z) : Prop :=
  forall k, 0 <= k < 4 ->
    exists v, src !! Z.to_nat (so + k) = Some v /\ d !! Z.to_nat (do + k) = Some v.

(** ** Predicates used by the statements *)

(** The metadata of [c'] is that of [c]. *)
Definition same_meta (c c' : fb_pixel_data) : Prop :=
  fb c' = fb c /\ dev c' = dev c /\ buffer_size c' = buffer_size c
  /\ width c' = width c /\ height c' = height c /\ format c' = format c
  /\ pitch c' = pitch c /\ timestamp c' = timestamp c
  /\ detected_tiling c' = detected_tiling c.

(** A slot is consistent: its buffer, if any, has [buffer_size] bytes, at
    most [MAX_CAPTURE_SIZE], and a slot marked as holding pixels has a
    buffer. *)
Definition slot_ok (c : fb_pixel_data) : Prop :=
  0 <= buffer_size c <= MAX_CAPTURE_SIZE
  /\ match pixel_buffer c with
     | Some buf => blen buf = buffer_size c
     | None => valid c && has_pixels c = false
     end.

(** The invariant of the capture store. *)
Definition store_inv (st : module_state) : Prop :=
  length (captured_fbs st) = Z.to_nat MAX_FB_CAPTURE
  /\ 0 <= current_index st < MAX_FB_CAPTURE
  /\ 0 <= capture_count st <= MAX_FB_CAPTURE
  /\ Forall slot_ok (captured_fbs st).

(** The states the module can be in: the state after initialisation, and any
    state a capture leaves. *)
Inductive reachable : module_state -> Prop :=
| reach_init : reachable init_state
| reach_capture st fbp device env ret st' :
    reachable st ->
    capture_fb_pixels fbp device env st = Some (ret, st') ->
    reachable st'.

(** [c] is the frame committed for the event [ev]: a valid slot with the
    metadata of the event. *)
Definition frame_of (ev : capture_event) (c : fb_pixel_data) : Prop :=
  exists f, ev_fb ev = Some f
            /\ same_meta (new_capture f (ev_dev ev) (ev_env ev)) c
            /\ valid c = true.

(** ** The read target as the specification words it

    The history scanned newest-first: the newest slot is the one before
    [current_index], and the scan walks the ring backwards over the
    [capture_count] committed slots. *)
Fixpoint spec_newest_with_pixels (fbs : list fb_pixel_data) (idx : Z) (n : nat)
  : option fb_pixel_data :=
  match n with
  | O => None
  | Datatypes.S n' =>
      let i := (idx - 1) mod MAX_FB_CAPTURE in
      match slot_get fbs i with
      | Some c =>
          if valid c && has_pixels c then Some c
          else spec_newest_with_pixels fbs i n'
      | None => None
      end
  end.

Definition spec_read_target (st : module_state) : option fb_pixel_data :=
  spec_newest_with_pixels (captured_fbs st) (current_index st)
    (Z.to_nat (capture_count st)).

(** ** Sample inputs *)

(** A GEM object imported from a DMA-buf that maps to the bytes [px]. *)
Definition dma_gem (px : list byte) : drm_gem_object :=
  {| gem_size := blen px; gem_mapping := None;
     gem_dma_buf := Some {| dma_size := blen px; vmap_ret := 0;
                            vmap_vaddr := Some px; vmap_is_iomem := false |} |}.

(** A GEM object that no method can read. *)
Definition opaque_gem : drm_gem_object :=
  {| gem_size := 4096; gem_mapping := None; gem_dma_buf := None |}.

Definition sample_fb (addr w h p modifier : Z) (gem : drm_gem_object)
  : drm_framebuffer :=
  {| fb_addr := addr; fb_width := w; fb_height := h; fb_format := 0x34325258;
     fb_pitches0 := p; fb_modifier := modifier; fb_obj0 := Some gem |}.

(** An environment in which both allocations succeed, at time [t]. *)
Definition env_ok (t : Z) : capture_env :=
  {| ktime_get_ns := t; pixel_alloc := Some (fun _ => x00);
     raw_alloc := Some (fun _ => x00) |}.

(** An environment in which the pixel buffer cannot be allocated. *)
Definition env_no_pixel_buffer (t : Z) : capture_env :=
  {| ktime_get_ns := t; pixel_alloc := None; raw_alloc := Some (fun _ => x00) |}.

(** An environment in which only the raw buffer cannot be allocated. *)
Definition env_no_raw_buffer (t : Z) : capture_env :=
  {| ktime_get_ns := t; pixel_alloc := Some (fun _ => x00); raw_alloc := None |}.

(** The [k]-th of a series of one-pixel linear framebuffers; its pixel is
    four times the byte [b]. *)
Definition pixel_event (k : Z) (b : byte) : capture_event :=
  {| ev_fb := Some (sample_fb (0x1000 + k) 1 1 4 0 (dma_gem [b; b; b; b]));
     ev_dev := 0x100; ev_env := env_ok k |}.

Definition six_events : list capture_event :=
  [pixel_event 1 x01; pixel_event 2 x02; pixel_event 3 x03;
   pixel_event 4 x04; pixel_event 5 x05; pixel_event 6 x06].

(** The store after the six captures of [six_events]. *)
Definition after_six : option (list Z * module_state) :=
  run_captures six_events init_state.

(** A framebuffer with a zero modifier and a pitch of 512 bytes. *)
Definition linear_fb_512 : drm_framebuffer := sample_fb 1 128 1 512 0 opaque_gem.

(** The store after [six_events]: the ring has wrapped once. *)
Definition wrapped_state : module_state :=
  match after_six with
  | Some (_, st) => st
  | None => init_state
  end.

(** An X-tiled framebuffer of two pixels backed by a DMA-buf. *)
Definition tiled_fb : drm_framebuffer :=
  sample_fb 0x2000 2 1 512 I915_FORMAT_MOD_X_TILED
    (dma_gem [x01; x02; x03; x04; x05; x06; x07; x08]).

(** A linear framebuffer that no extraction method can read. *)
Definition opaque_fb : drm_framebuffer := sample_fb 0x3000 2 2 8 0 opaque_gem.

(** A framebuffer of 65537 by 16384 pixels, whose frame size in bytes is
    [2^32 + 65536]; its DMA-buf maps four bytes. *)
Definition huge_fb : drm_framebuffer :=
  sample_fb 0x4000 65537 16384 262148 0 (dma_gem [x01; x02; x03; x04]).

(** [slot_ok] and [store_inv] are decidable. *)
#[global] Instance slot_ok_dec (c : fb_pixel_data) : Decision (slot_ok c).
Proof. unfold slot_ok. destruct (pixel_buffer c); apply _. Defined.

#[global] Instance store_inv_dec (st : module_state) : Decision (store_inv st).
Proof. unfold store_inv. apply _. Defined.

(** What a capture leaves behind: its return value, the slot it targeted
    (the slot at the index current on entry) and the counters. *)
Record capture_outcome : Type := {
  out_ret : Z;
  out_slot : fb_pixel_data;
  out_count : Z;
  out_index : Z
}.

Definition observe_capture (fbp : option drm_framebuffer) (device : Z)
    (env : capture_env) (st : module_state) : option capture_outcome :=
  match capture_fb_pixels fbp device env st with
  | Some (ret, st') =>
      match slot_get (captured_fbs st') (current_index st) with
      | Some c =>
          Some {| out_ret := ret; out_slot := c;
                  out_count := capture_count st'; out_index := current_index st' |}
      | None => None
      end
  | None => None
  end.

(** A tiled source of six bytes for a frame of two pixels whose pitch is
    six: the second pixel has only two bytes in the source. *)
Definition short_src : buffer := [x01; x02; x03; x04; x05; x06].

(** A source of [10 * 512] bytes, byte [i] being [i mod 256]. *)
Definition ramp_src : buffer :=
  (fun i => default x00 (Byte.of_nat (i mod 256))) <$> seq 0 (Z.to_nat 5120).

(** ** The standalone tool [intel_y_tile_to_linear.c]

    Its [convert] walks the bytes of each row and has no bounds test: an
    offset outside a buffer is an access outside it. *)

Module intel_y_tile_to_linear.

(** Body of the inner loop: byte [x] of row [y]. *)
Definition convert_byte (src : buffer) (w pitch tile_w tile_h : Z) (y x : Z)
    (dst : buffer) : option buffer :=
  let tile_size := mul32 tile_w tile_h in
  let tiles_per_row := pitch / tile_w in
  let tile_x := x / tile_w in
  let tile_y := y / tile_h in
  let tile_index := add32 (mul32 tile_y tiles_per_row) tile_x in
  let in_tile_x := tile_offset_x x tile_w in
  let in_tile_y := tile_offset_y y tile_h in
  let offset :=
    add32 (add32 (mul32 tile_index tile_size) (mul32 in_tile_y tile_w)) in_tile_x in
  match load src offset with
  | Some v => store dst (add32 (mul32 (mul32 y w) 4) x) v
  | None => None
  end.

Definition convert (dst src : buffer) (w h pitch tile_w tile_h : Z) : option buffer :=
  for_loop (Z.to_nat h) 0
    (fun y => for_loop (Z.to_nat (mul32 w 4)) 0
                (convert_byte src w pitch tile_w tile_h y))
    dst.

(** The tile geometry [main] derives from the layout letter: 512 by 8 for
    ['X'], 128 by 32 for anything else. *)
Definition layout_tile (layout_is_X : bool) : Z * Z :=
  if layout_is_X then (512, 8) else (128, 32).

End intel_y_tile_to_linear.

(** ** The page cache of a GEM object, as data *)

(** The pages [find_get_page] finds at the indices below [num_pages], in
    order. *)
Definition present_pages (mapping : list (option buffer)) (num_pages : Z)
  : list buffer :=
  omap id (take (Z.to_nat num_pages) mapping).

(** ** More sample inputs *)

(** The mapped bytes of a DMA-buf of 2160 rows of 15360 bytes. *)
Definition uhd_bytes : buffer := replicate (Z.to_nat (2160 * 15360)) x00.

Definition uhd_dma_buf : dma_buf :=
  {| dma_size := 2160 * 15360; vmap_ret := 0; vmap_vaddr := Some uhd_bytes;
     vmap_is_iomem := false |}.

Definition uhd_gem : drm_gem_object :=
  {| gem_size := 2160 * 15360; gem_mapping := None; gem_dma_buf := Some uhd_dma_buf |}.

(** An X-tiled framebuffer of 3840 by 2160 pixels. *)
Definition uhd_fb : drm_framebuffer :=
  sample_fb 0x5000 3840 2160 15360 I915_FORMAT_MOD_X_TILED uhd_gem.

(** ** The flags of a slot *)

(** What the three flags of a slot say about each other. *)
Definition slot_flags_ok (c : fb_pixel_data) : Prop :=
  (has_pixels c = true -> valid c = true)
  /\ (is_detiled c = true -> has_pixels c = true)
  /\ (has_pixels c = true ->
      (is_detiled c = true <-> detected_tiling c <> INTEL_TILING_NONE)).

(** Two captures from the initial state: a frame with pixel data, then one
    that no extraction method can read. *)
Definition early_events : list capture_event :=
  [pixel_event 1 x01;
   {| ev_fb := Some opaque_fb; ev_dev := 0x100; ev_env := env_ok 2 |}].

Definition early_state : module_state :=
  match run_captures early_events init_state with
  | Some (_, st) => st
  | None => init_state
  end.

(** * The module before detiling: [src/kernel.c], version 2.0

    The capture record has no tiling fields, the pixel buffer holds
    [height * pitch] bytes and both extraction methods write it directly. *)

Module v2_0.

Record fb_pixel_data : Type := {
  fb : Z;
  dev : Z;
  pixel_buffer : option buffer;
  buffer_size : Z;
  width : Z;
  height : Z;
  format : Z;
  pitch : Z;
  timestamp : Z;
  valid : bool;
  has_pixels : bool
}.

Definition set_pixel_buffer (c : fb_pixel_data) (p : option buffer) : fb_pixel_data :=
  {| fb := fb c; dev := dev c; pixel_buffer := p; buffer_size := buffer_size c;
     width := width c; height := height c; format := format c; pitch := pitch c;
     timestamp := timestamp c; valid := valid c; has_pixels := has_pixels c |}.

Definition set_flags (c : fb_pixel_data) (has_px is_valid : bool) : fb_pixel_data :=
  {| fb := fb c; dev := dev c; pixel_buffer := pixel_buffer c;
     buffer_size := buffer_size c;
     width := width c; height := height c; format := format c; pitch := pitch c;
     timestamp := timestamp c; valid := is_valid; has_pixels := has_px |}.

(** Method 3: an imported DMA-buf. *)
Definition extract_dma_buf (gem : drm_gem_object) (capture : fb_pixel_data)
  : option (Z * fb_pixel_data) :=
  match gem_dma_buf gem with
  | Some d =>
      match vmap_vaddr d with
      | Some vaddr =>
          if decide (vmap_ret d = 0) then
            let to_copy := Z.min (dma_size d) (buffer_size capture) in
            match memcpy_to (pixel_buffer capture) 0 vaddr to_copy with
            | Some pb' => Some (0, set_pixel_buffer capture (Some pb'))
            | None => None
            end
          else Some (- ENODATA, capture)
      | None => Some (- ENODATA, capture)
      end
  | None => Some (- ENODATA, capture)
  end.

Definition extract_gem_pixels (gem_obj : option drm_gem_object)
    (capture : fb_pixel_data) : option (Z * fb_pixel_data) :=
  match gem_obj with
  | None => Some (- EINVAL, capture)
  | Some gem =>
      match gem_mapping gem with
      | Some mapping =>
          (* Method 1: SHMEM page cache *)
          let num_pages := Z.shiftr (u64 (gem_size gem + PAGE_SIZE - 1)) PAGE_SHIFT in
          match shmem_copy (Z.to_nat num_pages) mapping (pixel_buffer capture)
                  (buffer_size capture) 0 0 num_pages with
          | Some (pb', copied) =>
              let capture := set_pixel_buffer capture pb' in
              if decide (copied > 0) then Some (0, capture)
              else extract_dma_buf gem capture
          | None => None
          end
      | None => extract_dma_buf gem capture
      end
  end.

(** The slot after [memset(capture, 0, sizeof( *capture))]. *)
Definition zero_capture : fb_pixel_data :=
  {| fb := 0; dev := 0; pixel_buffer := None; buffer_size := 0;
     width := 0; height := 0; format := 0; pitch := 0; timestamp := 0;
     valid := false; has_pixels := false |}.

Record module_state : Type := {
  captured_fbs : list fb_pixel_data;
  capture_count : Z;
  current_index : Z
}.

(** The state left by [drm_fb_extractor_init]. *)
Definition init_state : module_state :=
  {| captured_fbs := replicate (Z.to_nat MAX_FB_CAPTURE) zero_capture;
     capture_count := 0; current_index := 0 |}.

(** [&captured_fbs[i]], read and written. *)
Definition slot_get (fbs : list fb_pixel_data) (i : Z) : option fb_pixel_data :=
  if decide (0 <= i) then fbs !! Z.to_nat i else None.

Definition slot_set (fbs : list fb_pixel_data) (i : Z) (c : fb_pixel_data)
  : list fb_pixel_data := <[Z.to_nat i := c]> fbs.

(** The slot once it has been zeroed and its metadata filled in, up to the
    computation of [buffer_size]. *)
Definition new_capture (f : drm_framebuffer) (device : Z) (env : capture_env)
  : fb_pixel_data :=
  let expected_size := mul32 (fb_height f) (fb_pitches0 f) in
  let expected_size :=
    if decide (expected_size > MAX_CAPTURE_SIZE) then MAX_CAPTURE_SIZE
    else expected_size in
  {| fb := fb_addr f; dev := device; pixel_buffer := None;
     buffer_size := expected_size;
     width := fb_width f; height := fb_height f;
     format := fb_format f; pitch := fb_pitches0 f;
     timestamp := ktime_get_ns env;
     valid := false; has_pixels := false |}.

Definition capture_fb_pixels (fbp : option drm_framebuffer) (device : Z)
    (env : capture_env) (st : module_state) : option (Z * module_state) :=
  match fbp with
  | None => Some (- EINVAL, st)
  | Some f =>
      match fb_obj0 f with
      | None => Some (- EINVAL, st)
      | Some gem =>
          match slot_get (captured_fbs st) (current_index st) with
          | None => None
          | Some _ =>
              let capture := new_capture f device env in
              match vmalloc (pixel_alloc env) (buffer_size capture) with
              | None =>
                  Some (- ENOMEM,
                        {| captured_fbs :=
                             slot_set (captured_fbs st) (current_index st) capture;
                           capture_count := capture_count st;
                           current_index := current_index st |})
              | Some buf =>
                  let capture := set_pixel_buffer capture (Some buf) in
                  match extract_gem_pixels (Some gem) capture with
                  | None => None
                  | Some (ret, capture) =>
                      let capture :=
                        if decide (ret = 0) then set_flags capture true true
                        else set_flags capture false true in
                      Some (0,
                            {| captured_fbs :=
                                 slot_set (captured_fbs st) (current_index st) capture;
                               capture_count :=
                                 if decide (capture_count st < MAX_FB_CAPTURE)
                                 then capture_count st + 1 else capture_count st;
                               current_index :=
                                 (current_index st + 1) mod MAX_FB_CAPTURE |})
                  end
              end
          end
      end
  end.

End v2_0.

(** A capture record of version 2.0 read as one of version 2.1: never
    detiled, no tiling detected. *)
Definition upgrade (c : v2_0.fb_pixel_data) : fb_pixel_data :=
  {| fb := v2_0.fb c; dev := v2_0.dev c; pixel_buffer := v2_0.pixel_buffer c;
     buffer_size := v2_0.buffer_size c;
     width := v2_0.width c; height := v2_0.height c; format := v2_0.format c;
     pitch := v2_0.pitch c; timestamp := v2_0.timestamp c;
     valid := v2_0.valid c; has_pixels := v2_0.has_pixels c;
     is_detiled := false; detected_tiling := INTEL_TILING_NONE |}.

Definition upgrade_state (st : v2_0.module_state) : module_state :=
  {| captured_fbs := upgrade <$> v2_0.captured_fbs st;
     capture_count := v2_0.capture_count st;
     current_index := v2_0.current_index st |}.

Definition upgrade_result (r : option (Z * v2_0.module_state))
  : option (Z * module_state) :=
  match r with
  | Some (ret, st) => Some (ret, upgrade_state st)
  | None => None
  end.

(** A linear framebuffer of 2 by 2 pixels with rows of [2 * 4] bytes,
    backed by a DMA-buf of 16 bytes. *)
Definition tight_fb : drm_framebuffer :=
  sample_fb 0x5000 2 2 8 0
    (dma_gem [x01; x02; x03; x04; x05; x06; x07; x08;
              x09; x0a; x0b; x0c; x0d; x0e; x0f; x10]).

(** * Proofs *)

(** ** Machine arithmetic *)

Lemma u32_range z : 0 <= u32 z < 2 ^ 32.
Proof. unfold u32. apply Z.mod_pos_bound. lia. Qed.

Lemma u32_small z : 0 <= z < 2 ^ 32 -> u32 z = z.
Proof. intros. unfold u32. apply Z.mod_small. lia. Qed.

Lemma add32_small a b : 0 <= a + b < 2 ^ 32 -> add32 a b = a + b.
Proof. apply u32_small. Qed.

Lemma mul32_small a b : 0 <= a * b < 2 ^ 32 -> mul32 a b = a * b.
Proof. apply u32_small. Qed.

Lemma add32_range a b : 0 <= add32 a b < 2 ^ 32.
Proof. apply u32_range. Qed.

Lemma mul32_range a b : 0 <= mul32 a b < 2 ^ 32.
Proof. apply u32_range. Qed.

(** [x & (2^n - 1)] is [x mod 2^n]. *)
Lemma tile_offset_mod x n :
  0 <= n < 32 -> Z.land x (sub32 (2 ^ n) 1) = x mod 2 ^ n.
Proof.
  intros Hn. unfold sub32. rewrite u32_small.
  - replace (2 ^ n - 1) with (Z.ones n) by (rewrite Z.ones_equiv; lia).
    apply Z.land_ones. lia.
  - assert (0 < 2 ^ n) by (apply Z.pow_pos_nonneg; lia).
    assert (2 ^ n < 2 ^ 32) by (apply Z.pow_lt_mono_r; lia). lia.
Qed.

(** ** Loops *)

Section for_loop_facts.
Context {S : Type}.
Implicit Types (body : Z -> S -> option S) (s : S).

(** An invariant indexed by the loop counter. *)
Lemma for_loop_inv_idx (P : Z -> S -> Prop) body n start s :
  (forall i t, start <= i < start + Z.of_nat n -> P i t ->
               exists t', body i t = Some t' /\ P (i + 1) t') ->
  P start s ->
  exists s', for_loop n start body s = Some s' /\ P (start + Z.of_nat n) s'.
Proof.
  revert start s. induction n as [|n IH]; intros start s Hbody Hs.
  - exists s. simpl. rewrite Z.add_0_r. auto.
  - destruct (Hbody start s) as (t & Ht & HP); [lia | done |].
    destruct (IH (start + 1) t) as (s' & Hs' & HP').
    + intros i u Hi Hu. apply Hbody; [lia | done].
    + done.
    + exists s'. simpl. rewrite Ht. split; [done |].
      replace (start + Z.of_nat (Datatypes.S n)) with (start + 1 + Z.of_nat n) by lia.
      done.
Qed.

(** An invariant that does not depend on the counter. *)
Lemma for_loop_inv (P : S -> Prop) body n start s :
  (forall i t, start <= i < start + Z.of_nat n -> P t ->
               exists t', body i t = Some t' /\ P t') ->
  P s ->
  exists s', for_loop n start body s = Some s' /\ P s'.
Proof.
  intros Hbody Hs.
  destruct (for_loop_inv_idx (fun _ => P) body n start s) as (s' & ? & ?); eauto.
Qed.
End for_loop_facts.

(** ** Memory *)

Lemma load_in_range b i :
  0 <= i < blen b -> exists v, load b i = Some v /\ b !! Z.to_nat i = Some v.
Proof.
  intros Hi. unfold load, blen in *. rewrite decide_True by lia.
  destruct (lookup_lt_is_Some_2 b (Z.to_nat i)) as [v Hv]; [lia |].
  exists v. auto.
Qed.

Lemma store_in_range b i v :
  0 <= i < blen b -> store b i v = Some (<[Z.to_nat i := v]> b).
Proof. intros Hi. unfold store. rewrite decide_True; done. Qed.

Lemma memcpy_length dst off src n dst' :
  memcpy dst off src n = Some dst' -> length dst' = length dst.
Proof.
  unfold memcpy, blen. intros H. case_decide as Hc; [|done].
  injection H as <-. rewrite !length_app, !length_take, length_drop. lia.
Qed.

(** ** Offsets: the 32-bit computation agrees with the integer formulas *)

Lemma dst_offset_exact w x y :
  0 <= x -> 0 <= y -> 0 <= w -> spec_dst_offset w x y < 2 ^ 32 ->
  dst_offset_of w x y = spec_dst_offset w x y.
Proof.
  unfold spec_dst_offset, dst_offset_of. intros Hx Hy Hw Hlt.
  assert (0 <= y * w) by (apply Z.mul_nonneg_nonneg; lia).
  rewrite (mul32_small y w) by lia.
  rewrite !mul32_small by lia.
  apply add32_small. lia.
Qed.

Lemma tile_dims_cases tiling tile_w tile_h :
  tile_dims tiling = Some (tile_w, tile_h) ->
  (tile_w = 512 /\ tile_h = 8) \/ (tile_w = 128 /\ tile_h = 32).
Proof.
  destruct tiling; simpl; intros H; try discriminate; injection H as <- <-;
    unfold INTEL_TILE_X_WIDTH, INTEL_TILE_X_HEIGHT,
      INTEL_TILE_Y_WIDTH, INTEL_TILE_Y_HEIGHT; auto.
Qed.

Lemma tile_offset_pow2 x w n :
  0 <= n < 32 -> w = 2 ^ n -> Z.land x (sub32 w 1) = x mod w.
Proof. intros Hn ->. by apply tile_offset_mod. Qed.

Lemma src_offset_exact tiling tile_w tile_h p x y :
  tile_dims tiling = Some (tile_w, tile_h) ->
  0 <= x -> 0 <= y -> 0 <= p ->
  spec_src_offset tile_w tile_h p x y < 2 ^ 32 ->
  src_offset_of tile_w tile_h p x y = spec_src_offset tile_w tile_h p x y.
Proof.
  intros Hd Hx Hy Hp.
  destruct (tile_dims_cases _ _ _ Hd) as [[-> ->] | [-> ->]];
    unfold spec_src_offset, src_offset_of, tile_offset_x, tile_offset_y; intros Hlt.
  - rewrite (tile_offset_pow2 _ 512 9), (tile_offset_pow2 _ 8 3) by (lia || reflexivity).
    change (mul32 512 8) with 4096.
    assert (0 <= y / 8 * (p / 512))
      by (apply Z.mul_nonneg_nonneg; apply Z.div_pos; lia).
    unfold add32, mul32 in *.
    remember (y / 8 * (p / 512)) as q eqn:Hq. clear Hq.
    rewrite (u32_small (x * 4)) by (Z.div_mod_to_equations; lia).
    rewrite (u32_small q) by (Z.div_mod_to_equations; lia).
    rewrite (u32_small (q + _)) by (Z.div_mod_to_equations; lia).
    rewrite (u32_small (_ * 4096)) by (Z.div_mod_to_equations; lia).
    rewrite (u32_small (_ * 512)) by (Z.div_mod_to_equations; lia).
    rewrite (u32_small (_ + _ * 512)) by (Z.div_mod_to_equations; lia).
    rewrite u32_small by (Z.div_mod_to_equations; lia).
    lia.
  - rewrite (tile_offset_pow2 _ 128 7), (tile_offset_pow2 _ 32 5) by (lia || reflexivity).
    change (mul32 128 32) with 4096.
    assert (0 <= y / 32 * (p / 128))
      by (apply Z.mul_nonneg_nonneg; apply Z.div_pos; lia).
    unfold add32, mul32 in *.
    remember (y / 32 * (p / 128)) as q eqn:Hq. clear Hq.
    rewrite (u32_small (x * 4)) by (Z.div_mod_to_equations; lia).
    rewrite (u32_small q) by (Z.div_mod_to_equations; lia).
    rewrite (u32_small (q + _)) by (Z.div_mod_to_equations; lia).
    rewrite (u32_small (_ * 4096)) by (Z.div_mod_to_equations; lia).
    rewrite (u32_small (_ * 128)) by (Z.div_mod_to_equations; lia).
    rewrite (u32_small (_ + _ * 128)) by (Z.div_mod_to_equations; lia).
    rewrite u32_small by (Z.div_mod_to_equations; lia).
    lia.
Qed.

(** ** Offsets are multiples of four *)

Lemma u32_mul4 z : z mod 4 = 0 -> u32 z mod 4 = 0.
Proof.
  unfold u32. change (2 ^ 32) with 4294967296. intros H.
  Z.div_mod_to_equations. lia.
Qed.

Lemma dst_offset_mul4 w x y : dst_offset_of w x y mod 4 = 0.
Proof.
  unfold dst_offset_of, add32, mul32. apply u32_mul4.
  pose proof (u32_mul4 (u32 (y * w) * 4)) as H1.
  pose proof (u32_mul4 (x * 4)) as H2.
  assert (u32 (u32 (y * w) * 4) mod 4 = 0) by (apply H1; apply Z.mod_mul; lia).
  assert (u32 (x * 4) mod 4 = 0) by (apply H2; apply Z.mod_mul; lia).
  Z.div_mod_to_equations. lia.
Qed.

Lemma dst_bound_mul4 w h : mul32 (mul32 h w) 4 mod 4 = 0.
Proof. unfold mul32. apply u32_mul4. apply Z.mod_mul. lia. Qed.

Lemma src_offset_mul4 tiling tile_w tile_h p x y :
  tile_dims tiling = Some (tile_w, tile_h) ->
  src_offset_of tile_w tile_h p x y mod 4 = 0.
Proof.
  intros Hd.
  destruct (tile_dims_cases _ _ _ Hd) as [[-> ->] | [-> ->]];
    unfold src_offset_of, tile_offset_x, tile_offset_y.
  - rewrite (tile_offset_pow2 _ 512 9), (tile_offset_pow2 _ 8 3) by (lia || reflexivity).
    change (mul32 512 8) with 4096. unfold add32, mul32.
    apply u32_mul4.
    pose proof (u32_mul4 (x * 4) ltac:(apply Z.mod_mul; lia)).
    set (ti := u32 (u32 (y / 8 * (p / 512)) + u32 (x * 4) / 512)).
    pose proof (u32_mul4 (ti * 4096) ltac:(Z.div_mod_to_equations; lia)).
    pose proof (u32_mul4 (y mod 8 * 512) ltac:(Z.div_mod_to_equations; lia)).
    pose proof (u32_mul4 (u32 (ti * 4096) + u32 (y mod 8 * 512))
                  ltac:(Z.div_mod_to_equations; lia)).
    Z.div_mod_to_equations. lia.
  - rewrite (tile_offset_pow2 _ 128 7), (tile_offset_pow2 _ 32 5) by (lia || reflexivity).
    change (mul32 128 32) with 4096. unfold add32, mul32.
    apply u32_mul4.
    pose proof (u32_mul4 (x * 4) ltac:(apply Z.mod_mul; lia)).
    set (ti := u32 (u32 (y / 32 * (p / 128)) + u32 (x * 4) / 128)).
    pose proof (u32_mul4 (ti * 4096) ltac:(Z.div_mod_to_equations; lia)).
    pose proof (u32_mul4 (y mod 32 * 128) ltac:(Z.div_mod_to_equations; lia)).
    pose proof (u32_mul4 (u32 (ti * 4096) + u32 (y mod 32 * 128))
                  ltac:(Z.div_mod_to_equations; lia)).
    Z.div_mod_to_equations. lia.
Qed.

(** A byte that passes the guard lies, with its whole destination pixel,
    inside the bounds. *)
Lemma copy_guard_bounds tiling tile_w tile_h width height pitch x y k :
  tile_dims tiling = Some (tile_w, tile_h) ->
  0 <= k < 4 ->
  copy_guard width height pitch (src_offset_of tile_w tile_h pitch x y)
    (dst_offset_of width x y) k = true ->
  src_offset_of tile_w tile_h pitch x y + k < mul32 height pitch
  /\ dst_offset_of width x y + 3 < mul32 (mul32 height width) 4.
Proof.
  intros Hd Hk Hg. unfold copy_guard in Hg.
  apply andb_true_iff in Hg as [Hs Hdst].
  apply bool_decide_eq_true in Hs, Hdst.
  pose proof (src_offset_mul4 tiling tile_w tile_h pitch x y Hd) as Hs4.
  pose proof (dst_offset_mul4 width x y) as Hd4.
  pose proof (dst_bound_mul4 width height) as Hb4.
  assert (0 <= src_offset_of tile_w tile_h pitch x y < 2 ^ 32) as Hsr
    by apply add32_range.
  assert (0 <= dst_offset_of width x y < 2 ^ 32) as Hdr by apply add32_range.
  change (2 ^ 32) with 4294967296 in *.
  rewrite add32_small in Hs, Hdst
    by (change (2 ^ 32) with 4294967296; Z.div_mod_to_equations; lia).
  split; [done |]. Z.div_mod_to_equations. lia.
Qed.

(** ** The converter: one byte, one pixel, the whole frame *)

Section converter.
Variables (src : buffer) (width height pitch tile_w tile_h : Z).
Hypothesis Hsrc : mul32 height pitch <= blen src.

Abbreviation src_bound := (mul32 height pitch).
Abbreviation dst_bound := (mul32 (mul32 height width) 4).

(** One guarded byte copy never leaves the buffers, keeps the length of the
    destination and touches at most the guarded index. *)
Lemma copy_byte_spec so do k d :
  dst_bound <= blen d ->
  exists d',
    copy_byte src width height pitch so do k d = Some d'
    /\ length d' = length d
    /\ (forall j, (copy_guard width height pitch so do k = true ->
                   j <> Z.to_nat (add32 do k)) -> d' !! j = d !! j)
    /\ (copy_guard width height pitch so do k = true ->
        exists v, src !! Z.to_nat (add32 so k) = Some v
                  /\ d' !! Z.to_nat (add32 do k) = Some v).
Proof.
  intros Hd. unfold copy_byte.
  destruct (copy_guard width height pitch so do k) eqn:Hg.
  - unfold copy_guard in Hg. apply andb_true_iff in Hg as [Hs Hdst].
    apply bool_decide_eq_true in Hs, Hdst.
    pose proof (add32_range so k). pose proof (add32_range do k).
    destruct (load_in_range src (add32 so k)) as (v & Hl & Hv); [lia |].
    rewrite Hl, store_in_range by lia.
    eexists. split; [done |]. split; [by rewrite length_insert |].
    split.
    + intros j Hj. rewrite list_lookup_insert_ne; [done |].
      intros <-. by apply Hj.
    + intros _. exists v. split; [done |].
      apply list_lookup_insert_eq. unfold blen in Hd. lia.
  - exists d. repeat split; try done.
Qed.

(** The four bytes of a pixel: no access outside the buffers, and only the
    guarded indices change. *)
Lemma copy_pixel_frame y x d :
  dst_bound <= blen d ->
  exists d',
    copy_pixel src width height pitch tile_w tile_h y x d = Some d'
    /\ length d' = length d
    /\ forall j,
        (forall k, 0 <= k < 4 ->
           copy_guard width height pitch (src_offset_of tile_w tile_h pitch x y)
             (dst_offset_of width x y) k = true ->
           j <> Z.to_nat (add32 (dst_offset_of width x y) k)) ->
        d' !! j = d !! j.
Proof.
  intros Hd. unfold copy_pixel.
  apply (for_loop_inv
    (fun t => length t = length d /\
       forall j,
         (forall k, 0 <= k < 4 ->
            copy_guard width height pitch (src_offset_of tile_w tile_h pitch x y)
              (dst_offset_of width x y) k = true ->
            j <> Z.to_nat (add32 (dst_offset_of width x y) k)) ->
         t !! j = d !! j)); [| done].
  intros k t Hk [Hlen Hfr].
  destruct (copy_byte_spec (src_offset_of tile_w tile_h pitch x y)
              (dst_offset_of width x y) k t) as (t' & -> & Hlen' & Hfr' & _).
  { unfold blen in *. lia. }
  exists t'. split; [done |]. split; [congruence |].
  intros j Hj. rewrite Hfr'; [by apply Hfr |].
  intros Hg. apply Hj; [simpl in Hk; lia | done].
Qed.

(** The whole double loop runs without leaving the buffers, and preserves
    every property of the destination that guarded byte copies preserve. *)
Lemma convert_loops_inv (Q : buffer -> Prop) dst :
  dst_bound <= blen dst ->
  (forall y x d d', 0 <= y < height -> 0 <= x < width ->
      length d = length dst -> Q d ->
      copy_pixel src width height pitch tile_w tile_h y x d = Some d' -> Q d') ->
  Q dst ->
  exists dst',
    for_loop (Z.to_nat height) 0
      (copy_row src width height pitch tile_w tile_h) dst = Some dst'
    /\ length dst' = length dst /\ Q dst'.
Proof.
  intros Hd Hstep HQ.
  destruct (for_loop_inv (fun t => length t = length dst /\ Q t)
              (copy_row src width height pitch tile_w tile_h)
              (Z.to_nat height) 0 dst) as (dst' & ? & ? & ?); [| done | eauto].
  intros y t Hy [Hlen HQt]. unfold copy_row.
  apply (for_loop_inv (fun t => length t = length dst /\ Q t)); [| done].
  intros x u Hx [Hlenu HQu].
  destruct (copy_pixel_frame y x u) as (u' & Hu' & Hlen' & _).
  { unfold blen in *. lia. }
  exists u'. split; [done |]. split; [congruence |].
  apply (Hstep y x u u'); try done; lia.
Qed.
End converter.

(** ** The copy of one pixel *)

Lemma copy_pixel_hit tiling tile_w tile_h src width height pitch x y d :
  tile_dims tiling = Some (tile_w, tile_h) ->
  0 <= width -> 0 <= pitch -> 0 <= x -> 0 <= y ->
  mul32 height pitch <= blen src ->
  mul32 (mul32 height width) 4 <= blen d ->
  spec_src_offset tile_w tile_h pitch x y + 3 < mul32 height pitch ->
  spec_dst_offset width x y + 3 < mul32 (mul32 height width) 4 ->
  exists d',
    copy_pixel src width height pitch tile_w tile_h y x d = Some d'
    /\ length d' = length d
    /\ copied src d' (spec_src_offset tile_w tile_h pitch x y)
         (spec_dst_offset width x y).
Proof.
  intros Hd Hw Hp Hx Hy Hsrc Hdst Hs Hdo.
  pose proof (mul32_range height pitch) as Hsb.
  pose proof (mul32_range (mul32 height width) 4) as Hdb.
  unfold copy_pixel.
  rewrite (src_offset_exact tiling) by (done || lia).
  rewrite dst_offset_exact by (done || lia).
  assert (0 <= spec_src_offset tile_w tile_h pitch x y).
  { rewrite <- (src_offset_exact tiling tile_w tile_h pitch x y) by (done || lia).
    apply add32_range. }
  assert (0 <= spec_dst_offset width x y).
  { rewrite <- dst_offset_exact by (done || lia). apply add32_range. }
  set (so := spec_src_offset tile_w tile_h pitch x y) in *.
  set (do := spec_dst_offset width x y) in *.
  destruct (for_loop_inv_idx
    (fun k t => length t = length d /\
       forall k', 0 <= k' < k ->
         exists v, src !! Z.to_nat (so + k') = Some v
                   /\ t !! Z.to_nat (do + k') = Some v)
    (copy_byte src width height pitch so do) 4 0 d) as (d' & Hd' & Hlen & Hc).
  - intros k t Hk [Hlen Hprev]. simpl in Hk.
    destruct (copy_byte_spec src width height pitch Hsrc so do k t)
      as (t' & Ht' & Hlen' & Hfr & Hhit).
    { unfold blen in *. lia. }
    assert (copy_guard width height pitch so do k = true) as Hg.
    { unfold copy_guard. rewrite !add32_small by lia.
      apply andb_true_iff. split; apply bool_decide_eq_true; lia. }
    exists t'. split; [done |]. split; [congruence |].
    intros k' Hk'. destruct (decide (k' = k)) as [-> | Hne].
    + destruct (Hhit Hg) as (v & Hv1 & Hv2).
      rewrite !add32_small in Hv1, Hv2 by lia. eauto.
    + destruct (Hprev k') as (v & Hv1 & Hv2); [lia |].
      exists v. split; [done |]. rewrite Hfr; [done |].
      intros _. rewrite add32_small by lia. lia.
  - split; [done |]. intros; lia.
  - exists d'. split; [done |]. split; [done |].
    intros k Hk. apply Hc. simpl. lia.
Qed.

(** Without wrap-around of the frame size, distinct pixels write distinct
    bytes of the destination. *)
Lemma dst_index_distinct width height x y x0 y0 k k0 :
  height * width * 4 < 2 ^ 32 ->
  0 <= x < width -> 0 <= y < height -> 0 <= x0 < width -> 0 <= y0 < height ->
  0 <= k < 4 -> 0 <= k0 < 4 ->
  (x, y) <> (x0, y0) ->
  Z.to_nat (add32 (dst_offset_of width x y) k)
  <> Z.to_nat (spec_dst_offset width x0 y0 + k0).
Proof.
  intros Hno Hx Hy Hx0 Hy0 Hk Hk0 Hne.
  assert ((y + 1) * width <= height * width) by nia.
  assert ((y0 + 1) * width <= height * width) by nia.
  assert (0 <= y * width) by nia.
  assert (0 <= y0 * width) by nia.
  rewrite dst_offset_exact by (unfold spec_dst_offset; lia).
  unfold spec_dst_offset in *.
  rewrite add32_small by lia.
  intros Heq. apply Z2Nat.inj in Heq; [| lia | lia].
  assert (y * width + x = y0 * width + x0) as Hlin by lia.
  apply Hne.
  destruct (Z.lt_trichotomy y y0) as [Hlt | [-> | Hgt]].
  - assert ((y + 1) * width <= y0 * width) by nia. lia.
  - f_equal. lia.
  - assert ((y0 + 1) * width <= y * width) by nia. lia.
Qed.

Lemma copy_pixel_other tile_w tile_h src width height pitch x y x0 y0 so d d' :
  mul32 height pitch <= blen src ->
  height * width * 4 < 2 ^ 32 ->
  0 <= x < width -> 0 <= y < height -> 0 <= x0 < width -> 0 <= y0 < height ->
  (x, y) <> (x0, y0) ->
  mul32 (mul32 height width) 4 <= blen d ->
  copied src d so (spec_dst_offset width x0 y0) ->
  copy_pixel src width height pitch tile_w tile_h y x d = Some d' ->
  copied src d' so (spec_dst_offset width x0 y0).
Proof.
  intros Hsrc Hno Hx Hy Hx0 Hy0 Hne Hd Hc Hrun k0 Hk0.
  destruct (copy_pixel_frame src width height pitch tile_w tile_h Hsrc y x d Hd)
    as (d'' & Hd'' & _ & Hfr).
  rewrite Hrun in Hd''. injection Hd'' as <-.
  destruct (Hc k0 Hk0) as (v & Hv1 & Hv2).
  exists v. split; [done |]. rewrite Hfr; [done |].
  intros k Hk _ Heq.
  by eapply (dst_index_distinct width height x y x0 y0 k k0).
Qed.

(** The destination after the whole conversion holds the pixel. *)
Lemma convert_pixel_final tiling tile_w tile_h src dst width height pitch x0 y0 :
  tile_dims tiling = Some (tile_w, tile_h) ->
  0 <= pitch ->
  height * width * 4 < 2 ^ 32 ->
  0 <= x0 < width -> 0 <= y0 < height ->
  mul32 height pitch <= blen src ->
  mul32 (mul32 height width) 4 <= blen dst ->
  spec_src_offset tile_w tile_h pitch x0 y0 + 3 < mul32 height pitch ->
  exists dst',
    convert_tiled_to_linear (Some src) (Some dst) width height pitch tiling
    = Some (0, Some dst')
    /\ length dst' = length dst
    /\ copied src dst' (spec_src_offset tile_w tile_h pitch x0 y0)
         (spec_dst_offset width x0 y0).
Proof.
  intros Hd Hp Hno Hx0 Hy0 Hsrc Hdst Hs.
  set (so := spec_src_offset tile_w tile_h pitch x0 y0) in *.
  set (T := fun d => copied src d so (spec_dst_offset width x0 y0)).
  assert (0 <= height * width) as Hhw by nia.
  assert ((y0 + 1) * width <= height * width) as Hrow by nia.
  assert (0 <= y0 * width) as Hyw by nia.
  assert (mul32 (mul32 height width) 4 = height * width * 4) as Hbound.
  { rewrite (mul32_small height width) by lia. apply mul32_small. lia. }
  unfold convert_tiled_to_linear. rewrite Hd.
  destruct (for_loop_inv_idx
    (fun y d => length d = length dst /\ (y0 < y -> T d))
    (copy_row src width height pitch tile_w tile_h) (Z.to_nat height) 0 dst)
    as (dst' & -> & Hlen & HT).
  - intros y d Hy [Hlen HTd]. unfold copy_row.
    destruct (for_loop_inv_idx
      (fun x t => length t = length dst /\ ((y0 < y \/ (y = y0 /\ x0 < x)) -> T t))
      (copy_pixel src width height pitch tile_w tile_h y) (Z.to_nat width) 0 d)
      as (d' & Hd' & Hlen' & HT').
    + intros x t Hx [Hlent HTt].
      assert (mul32 (mul32 height width) 4 <= blen t) as Hbt
        by (unfold blen in *; lia).
      destruct (decide ((x, y) = (x0, y0))) as [Heq | Hne].
      * injection Heq as -> ->.
        destruct (copy_pixel_hit tiling tile_w tile_h src width height pitch x0 y0 t)
          as (t' & Ht' & Hlen' & Hc); try done; try lia.
        { rewrite Hbound. unfold spec_dst_offset. lia. }
        exists t'. split; [done |]. split; [congruence | done].
      * destruct (copy_pixel_frame src width height pitch tile_w tile_h Hsrc y x t Hbt)
          as (t' & Ht' & Hlen' & _).
        exists t'. split; [done |]. split; [congruence |].
        intros Hcond.
        apply (copy_pixel_other tile_w tile_h src width height pitch x y x0 y0 so t t');
          try done; try lia.
        apply HTt. destruct Hcond as [? | [-> ?]]; [by left | right].
        split; [done |]. destruct (decide (x = x0)) as [-> | ?]; [done | lia].
    + split; [done |]. intros [? | [_ ?]]; [by apply HTd | lia].
    + exists d'. split; [done |]. split; [done |].
      intros Hlt. apply HT'. destruct (decide (y = y0)) as [-> | ?]; [right | left]; lia.
  - split; [done |]. lia.
  - exists dst'. split; [done |]. split; [done |]. apply HT. lia.
Qed.

(** ** Buffer lengths are preserved *)

Lemma for_loop_partial {S : Type} (P : S -> Prop) (body : Z -> S -> option S)
    n start s s' :
  (forall i t t', P t -> body i t = Some t' -> P t') ->
  P s -> for_loop n start body s = Some s' -> P s'.
Proof.
  intros Hbody. revert start s. induction n as [|n IH]; intros start s Hs; simpl.
  - intros [= <-]. done.
  - destruct (body start s) as [t|] eqn:Ht; [| done].
    apply IH. by eapply Hbody.
Qed.

Lemma store_length b i v b' : store b i v = Some b' -> length b' = length b.
Proof.
  unfold store. case_decide; [| done]. intros [= <-]. apply length_insert.
Qed.

Lemma copy_byte_length src w h p so do k d d' :
  copy_byte src w h p so do k d = Some d' -> length d' = length d.
Proof.
  unfold copy_byte. destruct (copy_guard w h p so do k).
  - destruct (load src (add32 so k)); [apply store_length | done].
  - by intros [= <-].
Qed.

Lemma convert_length src dst w h p tiling ret dst' :
  convert_tiled_to_linear src dst w h p tiling = Some (ret, dst') ->
  length <$> dst' = length <$> dst.
Proof.
  unfold convert_tiled_to_linear.
  destruct src as [src|], dst as [dst|]; try (by intros [= <- <-]).
  destruct (tile_dims tiling) as [[tw th]|]; [| by intros [= <- <-]].
  destruct (for_loop (Z.to_nat h) 0 (copy_row src w h p tw th) dst) as [d|] eqn:Hl;
    [| done].
  intros [= <- <-]. simpl. f_equal.
  revert Hl. apply (for_loop_partial (fun t => length t = length dst)); [| done].
  intros y t t' Ht. unfold copy_row.
  apply (for_loop_partial (fun u => length u = length dst)); [| done].
  intros x u u' Hu. unfold copy_pixel.
  apply (for_loop_partial (fun u => length u = length dst)); [| done].
  intros k a a' Ha Hc. apply copy_byte_length in Hc. congruence.
Qed.

Lemma memcpy_to_length target off src n tb' :
  memcpy_to target off src n = Some tb' ->
  Some (length tb') = length <$> target.
Proof.
  destruct target as [tb|]; simpl; [| done].
  intros H. apply memcpy_length in H. by rewrite H.
Qed.

Lemma shmem_copy_length fuel mapping target ts copied index np target' copied' :
  shmem_copy fuel mapping target ts copied index np = Some (target', copied') ->
  length <$> target' = length <$> target.
Proof.
  revert target copied index.
  induction fuel as [|fuel IH]; intros target copied index; simpl.
  - by intros [= <- <-].
  - destruct (bool_decide (copied < ts) && bool_decide (index < np));
      [| by intros [= <- <-]].
    destruct (find_get_page mapping index) as [kaddr|]; [| apply IH].
    destruct (memcpy_to target copied kaddr _) as [tb'|] eqn:Hm; [| done].
    intros H. apply IH in H. rewrite H. simpl.
    by apply memcpy_to_length in Hm.
Qed.

Lemma same_meta_refl c : same_meta c c.
Proof. by repeat split. Qed.

Lemma finish_extract_spec nd target c ret c' :
  (nd = false -> length <$> target = length <$> pixel_buffer c) ->
  finish_extract nd target c = Some (ret, c') ->
  same_meta c c'
  /\ length <$> pixel_buffer c' = length <$> pixel_buffer c
  /\ valid c' = valid c /\ has_pixels c' = has_pixels c.
Proof.
  intros Htarget. unfold finish_extract. destruct nd.
  - destruct (convert_tiled_to_linear _ _ _ _ _ _) as [[r dst']|] eqn:Hc; [| done].
    apply convert_length in Hc.
    case_decide; intros [= <- <-]; simpl; by repeat split.
  - intros [= <- <-]. simpl. repeat split. by apply Htarget.
Qed.

Lemma extract_dma_buf_spec gem nd target ts c ret c' :
  (nd = false -> length <$> target = length <$> pixel_buffer c) ->
  extract_dma_buf gem nd target ts c = Some (ret, c') ->
  same_meta c c'
  /\ length <$> pixel_buffer c' = length <$> pixel_buffer c
  /\ valid c' = valid c /\ has_pixels c' = has_pixels c.
Proof.
  intros Htarget. unfold extract_dma_buf.
  destruct (gem_dma_buf gem) as [d|];
    [| intros [= <- <-]; split; [apply same_meta_refl | done]].
  destruct (vmap_vaddr d) as [vaddr|];
    [| intros [= <- <-]; split; [apply same_meta_refl | done]].
  case_decide; [| intros [= <- <-]; split; [apply same_meta_refl | done]].
  destruct (memcpy_to target 0 vaddr _) as [tb'|] eqn:Hm; [| done].
  apply memcpy_to_length in Hm.
  apply (finish_extract_spec nd (Some tb') c).
  intros Hnd. simpl. rewrite Hm. by apply Htarget.
Qed.

Lemma extract_gem_pixels_spec gem_obj c ra ret c' :
  extract_gem_pixels gem_obj c ra = Some (ret, c') ->
  same_meta c c'
  /\ length <$> pixel_buffer c' = length <$> pixel_buffer c
  /\ valid c' = valid c /\ has_pixels c' = has_pixels c.
Proof.
  unfold extract_gem_pixels.
  destruct gem_obj as [gem|];
    [| intros [= <- <-]; split; [apply same_meta_refl | done]].
  set (nd := negb (tiling_is_none (detected_tiling c))).
  set (raw := if nd then vmalloc ra (mul32 (height c) (pitch c)) else None).
  destruct (nd && is_none raw);
    [intros [= <- <-]; split; [apply same_meta_refl | done] |].
  set (target := if nd then raw else pixel_buffer c).
  assert (nd = false -> length <$> target = length <$> pixel_buffer c) as Ht.
  { intros Hnd. unfold target. by rewrite Hnd. }
  destruct (gem_mapping gem) as [mapping|]; [| by apply extract_dma_buf_spec].
  destruct (shmem_copy _ _ _ _ _ _ _) as [[tb' copied]|] eqn:Hs; [| done].
  apply shmem_copy_length in Hs.
  case_decide.
  - apply (finish_extract_spec nd tb' c). intros Hnd. rewrite Hs. by apply Ht.
  - apply extract_dma_buf_spec. intros Hnd. rewrite Hs. by apply Ht.
Qed.

(** ** One capture *)

Lemma new_capture_size f device env :
  0 <= buffer_size (new_capture f device env) <= MAX_CAPTURE_SIZE.
Proof.
  simpl. pose proof (mul32_range (mul32 (fb_height f) (fb_width f)) 4).
  case_decide; unfold MAX_CAPTURE_SIZE in *; lia.
Qed.

Lemma vmalloc_length a size buf :
  vmalloc a size = Some buf -> 0 <= size -> blen buf = size.
Proof.
  unfold vmalloc, blen. destruct a as [fill|]; [| done].
  intros [= <-] Hs. rewrite length_fmap, length_seq. lia.
Qed.

(** The three ways a capture can end. *)
Lemma capture_fb_pixels_cases fbp device env st ret st' :
  capture_fb_pixels fbp device env st = Some (ret, st') ->
  (ret = - EINVAL /\ st' = st
   /\ (fbp = None \/ exists f, fbp = Some f /\ fb_obj0 f = None))
  \/ (exists f, fbp = Some f /\ ret = - ENOMEM /\ pixel_alloc env = None
        /\ st' = {| captured_fbs :=
                      slot_set (captured_fbs st) (current_index st)
                        (new_capture f device env);
                    capture_count := capture_count st;
                    current_index := current_index st |})
  \/ (exists f c, fbp = Some f /\ ret = 0
        /\ same_meta (new_capture f device env) c
        /\ valid c = true
        /\ (exists buf, pixel_buffer c = Some buf /\ blen buf = buffer_size c)
        /\ st' = {| captured_fbs := slot_set (captured_fbs st) (current_index st) c;
                    capture_count :=
                      if decide (capture_count st < MAX_FB_CAPTURE)
                      then capture_count st + 1 else capture_count st;
                    current_index := (current_index st + 1) mod MAX_FB_CAPTURE |}).
Proof.
  unfold capture_fb_pixels.
  destruct fbp as [f|]; [| intros [= <- <-]; left; auto].
  destruct (fb_obj0 f) as [gem|] eqn:Hobj; [| intros [= <- <-]; left; eauto 6].
  destruct (slot_get _ _) as [old|]; [| done].
  destruct (vmalloc (pixel_alloc env) _) as [buf|] eqn:Hal.
  - destruct (extract_gem_pixels _ _ _) as [[r c]|] eqn:Hex; [| done].
    intros [= <- <-]. right. right.
    apply extract_gem_pixels_spec in Hex as (Hm & Hlen & _ & _).
    apply vmalloc_length in Hal; [| apply new_capture_size].
    destruct Hm as (? & ? & Hbs & ? & ? & ? & ? & ? & ?).
    assert (exists b, pixel_buffer c = Some b /\ blen b = buffer_size c) as Hb.
    { simpl in Hlen. destruct (pixel_buffer c) as [b|]; [| done].
      exists b. split; [done |]. injection Hlen as Hlen.
      unfold blen in *. rewrite Hlen. rewrite Hal. by rewrite Hbs. }
    exists f. eexists. split; [done |]. split; [done |].
    split; [| split; [| split; [| reflexivity]]].
    + case_decide; simpl; by repeat split.
    + by case_decide.
    + case_decide; simpl; done.
  - intros [= <- <-]. right. left. exists f. repeat split; try done.
    unfold vmalloc in Hal. by destruct (pixel_alloc env).
Qed.

Lemma slot_ok_new_capture f device env : slot_ok (new_capture f device env).
Proof. split; [apply new_capture_size | done]. Qed.

Lemma slot_ok_zero : slot_ok zero_capture.
Proof. split; [unfold MAX_CAPTURE_SIZE; simpl; lia | done]. Qed.

Lemma store_inv_init : store_inv init_state.
Proof.
  repeat split; simpl; try (unfold MAX_FB_CAPTURE; lia).
  repeat constructor; apply slot_ok_zero.
Qed.

Lemma slot_set_ok fbs i c :
  Forall slot_ok fbs -> slot_ok c -> Forall slot_ok (slot_set fbs i c).
Proof. intros. by apply Forall_insert. Qed.

Lemma capture_fb_pixels_inv fbp device env st ret st' :
  store_inv st ->
  capture_fb_pixels fbp device env st = Some (ret, st') ->
  store_inv st'.
Proof.
  intros (Hlen & Hidx & Hcnt & Hall) Hrun.
  apply capture_fb_pixels_cases in Hrun
    as [(_ & -> & _) | [(f & _ & _ & _ & ->) | (f & c & _ & _ & Hm & _ & Hb & ->)]].
  - done.
  - split; [| split; [| split]]; simpl; try done.
    + unfold slot_set. by rewrite length_insert.
    + apply slot_set_ok; [done | apply slot_ok_new_capture].
  - unfold store_inv, MAX_FB_CAPTURE in *. simpl.
    pose proof (Z.mod_pos_bound (current_index st + 1) 5 ltac:(lia)).
    split; [| split; [| split]]; try (case_decide; lia); try lia.
    + unfold slot_set. by rewrite length_insert.
    + apply slot_set_ok; [done |].
      destruct Hb as (buf & Hbuf & Hbl).
      destruct Hm as (_ & _ & Hbs & _).
      split; [rewrite Hbs; apply new_capture_size | by rewrite Hbuf].
Qed.

Lemma reachable_store_inv st : reachable st -> store_inv st.
Proof.
  induction 1 as [| st fbp device env ret st' _ IH Hrun];
    [apply store_inv_init | by eapply capture_fb_pixels_inv].
Qed.

(** In a consistent store a capture never leaves the capture array. *)
Lemma slot_get_in_range st :
  store_inv st -> is_Some (slot_get (captured_fbs st) (current_index st)).
Proof.
  intros (Hlen & Hidx & _). unfold slot_get. rewrite decide_True by lia.
  apply lookup_lt_is_Some_2. unfold MAX_FB_CAPTURE in *. lia.
Qed.

(** ** Sequences of captures: the ring *)

Lemma capture_success fbp device env st st' :
  capture_fb_pixels fbp device env st = Some (0, st') ->
  exists f c, fbp = Some f
    /\ same_meta (new_capture f device env) c
    /\ valid c = true
    /\ (exists buf, pixel_buffer c = Some buf /\ blen buf = buffer_size c)
    /\ st' = {| captured_fbs := slot_set (captured_fbs st) (current_index st) c;
                capture_count :=
                  if decide (capture_count st < MAX_FB_CAPTURE)
                  then capture_count st + 1 else capture_count st;
                current_index := (current_index st + 1) mod MAX_FB_CAPTURE |}.
Proof.
  intros Hrun.
  apply capture_fb_pixels_cases in Hrun
    as [(Hret & _) | [(f & _ & Hret & _) | (f & c & ? & _ & ? & ? & ? & ?)]].
  - unfold EINVAL in Hret. lia.
  - unfold ENOMEM in Hret. lia.
  - eauto 10.
Qed.

Lemma slot_set_length fbs i c : length (slot_set fbs i c) = length fbs.
Proof. apply length_insert. Qed.

Lemma run_captures_ring evs : forall st0 rets st,
  length (captured_fbs st0) = 5%nat ->
  0 <= current_index st0 < 5 ->
  0 <= capture_count st0 <= 5 ->
  run_captures evs st0 = Some (rets, st) ->
  Forall (fun r => r = 0) rets ->
  length (captured_fbs st) = 5%nat
  /\ current_index st = (current_index st0 + Z.of_nat (length evs)) mod 5
  /\ capture_count st = Z.min (capture_count st0 + Z.of_nat (length evs)) 5
  /\ (forall (i : nat) ev, evs !! i = Some ev ->
        Z.of_nat (length evs) <= Z.of_nat i + 5 ->
        exists c,
          captured_fbs st !! Z.to_nat ((current_index st0 + Z.of_nat i) mod 5) = Some c
          /\ frame_of ev c)
  /\ (forall j, 0 <= j < 5 ->
        (forall i, 0 <= i < Z.of_nat (length evs) ->
                   (current_index st0 + i) mod 5 <> j) ->
        captured_fbs st !! Z.to_nat j = captured_fbs st0 !! Z.to_nat j).
Proof.
  induction evs as [|ev evs IH]; intros st0 rets st Hlen Hidx Hcnt Hrun Hrets.
  - simpl in Hrun. injection Hrun as <- <-. simpl.
    rewrite Z.add_0_r, Z.mod_small by lia.
    split; [done |]. split; [done |]. split; [lia |].
    split; [intros i ev' Hi; by rewrite lookup_nil in Hi | done].
  - simpl in Hrun.
    destruct (capture_fb_pixels _ _ _ st0) as [[ret st1]|] eqn:Hstep; [| done].
    destruct (run_captures evs st1) as [[rets' st'']|] eqn:Hrest; [| done].
    injection Hrun as <- <-.
    apply Forall_cons in Hrets as [-> Hrets].
    apply capture_success in Hstep as (f & c & Hf & Hm & Hv & _ & Hst1).
    unfold MAX_FB_CAPTURE in *.
    pose proof (Z.mod_pos_bound (current_index st0 + 1) 5 ltac:(lia)) as Hidx1.
    destruct (IH st1 rets' st'') as (Hlen' & Hidx' & Hcnt' & Hfr & Hun);
      [ subst st1; cbn [captured_fbs]; by rewrite slot_set_length
      | by subst st1
      | subst st1; cbn [capture_count]; case_decide; lia
      | done | done | ].
    subst st1.
    cbn [captured_fbs capture_count current_index] in Hidx', Hcnt', Hfr, Hun.
    split; [done |].
    split.
    { rewrite Hidx'. rewrite Zplus_mod_idemp_l. simpl length. f_equal. lia. }
    split.
    { rewrite Hcnt'. simpl length. case_decide; lia. }
    split.
    + intros [|i] ev' Hi Hn; simpl in Hi.
      * injection Hi as <-. simpl length in Hn.
        rewrite Z.add_0_r, Z.mod_small by lia.
        exists c. split; [| by exists f].
        rewrite Hun; [| lia |].
        -- unfold slot_set. apply list_lookup_insert_eq. lia.
        -- intros i' Hi'. rewrite Zplus_mod_idemp_l.
           Z.div_mod_to_equations. lia.
      * destruct (Hfr i ev' Hi) as (c' & Hc' & Hfo).
        { simpl length in Hn. lia. }
        exists c'. split; [| done]. rewrite <- Hc'. f_equal. f_equal.
        rewrite Zplus_mod_idemp_l. f_equal. lia.
    + intros j Hj Hnot. rewrite Hun; [| done |].
      * unfold slot_set. apply list_lookup_insert_ne.
        specialize (Hnot 0). simpl length in Hnot.
        rewrite Z.add_0_r, Z.mod_small in Hnot by lia.
        intros Heq. apply Hnot; lia.
      * intros i Hi. rewrite Zplus_mod_idemp_l.
        replace (current_index st0 + 1 + i) with (current_index st0 + (i + 1)) by lia.
        apply Hnot. simpl length. lia.
Qed.

Lemma frame_of_valid ev c : frame_of ev c -> valid c = true.
Proof. by intros (f & _ & _ & Hv). Qed.

(** After [n] successful captures from the initial state, slot [j] is valid
    exactly when [j < n]. *)
Lemma ring_slot_valid evs rets st (j : nat) :
  run_captures evs init_state = Some (rets, st) ->
  Forall (fun r => r = 0) rets ->
  (j < 5)%nat ->
  exists c, captured_fbs st !! j = Some c
            /\ (valid c = true <-> Z.of_nat j < Z.of_nat (length evs)).
Proof.
  intros Hrun Hrets Hj.
  destruct (run_captures_ring evs init_state rets st) as (_ & _ & _ & Hfr & Hun);
    try done; simpl; try lia.
  simpl in Hfr, Hun.
  set (n := Z.of_nat (length evs)) in *.
  destruct (decide (Z.of_nat j < n)) as [Hlt | Hge].
  - set (i := Z.to_nat (Z.of_nat j + 5 * ((n - 1 - Z.of_nat j) / 5))).
    assert (Z.of_nat i = Z.of_nat j + 5 * ((n - 1 - Z.of_nat j) / 5)) as Hi.
    { unfold i. rewrite Z2Nat.id; [done |]. Z.div_mod_to_equations. lia. }
    destruct (lookup_lt_is_Some_2 evs i) as [ev Hev].
    { apply Nat2Z.inj_lt. fold n. rewrite Hi. Z.div_mod_to_equations. lia. }
    destruct (Hfr i ev Hev) as (c & Hc & Hfo).
    { rewrite Hi. Z.div_mod_to_equations. lia. }
    exists c. split.
    + rewrite <- Hc. f_equal. rewrite Hi.
      generalize ((n - 1 - Z.of_nat j) / 5). intros q.
      replace ((0 + (Z.of_nat j + 5 * q)) mod 5) with (Z.of_nat j)
        by (Z.div_mod_to_equations; lia).
      by rewrite Nat2Z.id.
    + split; [done | intros _; by eapply frame_of_valid].
  - exists zero_capture. split.
    + rewrite <- (Nat2Z.id j). rewrite Hun.
      * rewrite Nat2Z.id. do 5 (destruct j as [|j]; [done |]). lia.
      * lia.
      * intros i Hi. rewrite Z.mod_small by lia. lia.
    + simpl. split; [done | lia].
Qed.

Lemma ring_valid_count evs rets st :
  run_captures evs init_state = Some (rets, st) ->
  Forall (fun r => r = 0) rets ->
  length (filter (fun c => valid c = true) (captured_fbs st))
  = Z.to_nat (Z.min (Z.of_nat (length evs)) 5).
Proof.
  intros Hrun Hrets.
  destruct (run_captures_ring evs init_state rets st) as (Hlen & _);
    try done; simpl; try lia.
  destruct (ring_slot_valid evs rets st 0 Hrun Hrets ltac:(lia)) as (c0 & H0 & V0).
  destruct (ring_slot_valid evs rets st 1 Hrun Hrets ltac:(lia)) as (c1 & H1 & V1).
  destruct (ring_slot_valid evs rets st 2 Hrun Hrets ltac:(lia)) as (c2 & H2 & V2).
  destruct (ring_slot_valid evs rets st 3 Hrun Hrets ltac:(lia)) as (c3 & H3 & V3).
  destruct (ring_slot_valid evs rets st 4 Hrun Hrets ltac:(lia)) as (c4 & H4 & V4).
  destruct (captured_fbs st) as [|d0 [|d1 [|d2 [|d3 [|d4 [|]]]]]]; try done.
  simpl in H0, H1, H2, H3, H4.
  injection H0 as ->. injection H1 as ->. injection H2 as ->.
  injection H3 as ->. injection H4 as ->.
  rewrite !filter_cons, filter_nil.
  repeat case_decide;
    repeat match goal with
    | H : valid ?c = true, V : valid ?c = true <-> _ |- _ => apply V in H
    | H : ~ (valid ?c = true), V : valid ?c = true <-> ?P |- _ =>
        assert (~ P) by (intros ?; apply H; by apply V); clear H
    end;
    simpl length; lia.
Qed.

(** ** The outcomes of a capture *)

(** The pixel buffer cannot be allocated. *)
Lemma capture_no_pixel_buffer st f gem device env :
  store_inv st -> fb_obj0 f = Some gem -> pixel_alloc env = None ->
  capture_fb_pixels (Some f) device env st
  = Some (- ENOMEM,
          {| captured_fbs :=
               slot_set (captured_fbs st) (current_index st)
                 (new_capture f device env);
             capture_count := capture_count st;
             current_index := current_index st |}).
Proof.
  intros Hinv Hobj Hal. unfold capture_fb_pixels. rewrite Hobj.
  destruct (slot_get_in_range st Hinv) as [old ->].
  by rewrite Hal.
Qed.

(** The pixel buffer is allocated: whatever the extractor returns, the frame
    is committed and the call returns 0. *)
Lemma capture_commits st f gem device env buf ret c :
  store_inv st -> fb_obj0 f = Some gem ->
  vmalloc (pixel_alloc env) (buffer_size (new_capture f device env)) = Some buf ->
  extract_gem_pixels (Some gem)
    (set_pixel_buffer (new_capture f device env) (Some buf)) (raw_alloc env)
  = Some (ret, c) ->
  capture_fb_pixels (Some f) device env st
  = Some (0,
          {| captured_fbs :=
               slot_set (captured_fbs st) (current_index st)
                 (if decide (ret = 0) then set_flags c true true
                  else set_flags c false true);
             capture_count :=
               if decide (capture_count st < MAX_FB_CAPTURE)
               then capture_count st + 1 else capture_count st;
             current_index := (current_index st + 1) mod MAX_FB_CAPTURE |}).
Proof.
  intros Hinv Hobj Hal Hex. unfold capture_fb_pixels. rewrite Hobj.
  destruct (slot_get_in_range st Hinv) as [old ->].
  by rewrite Hal, Hex.
Qed.

Lemma extract_no_raw_buffer gem c :
  detected_tiling c <> INTEL_TILING_NONE ->
  extract_gem_pixels (Some gem) c None = Some (- ENOMEM, c).
Proof.
  intros Ht. unfold extract_gem_pixels.
  by destruct (detected_tiling c).
Qed.

Lemma extract_no_backend gem c ra :
  gem_mapping gem = None -> gem_dma_buf gem = None ->
  (detected_tiling c = INTEL_TILING_NONE \/ is_Some ra) ->
  extract_gem_pixels (Some gem) c ra = Some (- ENODATA, c).
Proof.
  intros Hm Hd Hra. unfold extract_gem_pixels, extract_dma_buf.
  rewrite Hm, Hd.
  destruct (detected_tiling c); simpl; try done;
    destruct Hra as [? | [fill ->]]; done.
Qed.

Lemma slot_get_set fbs i c :
  0 <= i < Z.of_nat (length fbs) -> slot_get (slot_set fbs i c) i = Some c.
Proof.
  intros Hi. unfold slot_get, slot_set. rewrite decide_True by lia.
  apply list_lookup_insert_eq. lia.
Qed.

Lemma slot_get_set_ne fbs i j c :
  0 <= i -> j <> i -> slot_get (slot_set fbs i c) j = slot_get fbs j.
Proof.
  intros Hi Hne. unfold slot_get, slot_set. case_decide; [| done].
  apply list_lookup_insert_ne. lia.
Qed.

Lemma store_inv_index st :
  store_inv st -> 0 <= current_index st < Z.of_nat (length (captured_fbs st)).
Proof. intros (-> & ? & _). unfold MAX_FB_CAPTURE in *. lia. Qed.

Lemma observe_no_pixel_buffer st f gem device env :
  store_inv st -> fb_obj0 f = Some gem -> pixel_alloc env = None ->
  observe_capture (Some f) device env st
  = Some {| out_ret := - ENOMEM; out_slot := new_capture f device env;
            out_count := capture_count st; out_index := current_index st |}.
Proof.
  intros Hinv Hobj Hal. unfold observe_capture.
  rewrite (capture_no_pixel_buffer st f gem) by done.
  cbn [captured_fbs capture_count current_index].
  by rewrite slot_get_set by (by apply store_inv_index).
Qed.

Lemma observe_commits st f gem device env buf ret c :
  store_inv st -> fb_obj0 f = Some gem ->
  vmalloc (pixel_alloc env) (buffer_size (new_capture f device env)) = Some buf ->
  extract_gem_pixels (Some gem)
    (set_pixel_buffer (new_capture f device env) (Some buf)) (raw_alloc env)
  = Some (ret, c) ->
  observe_capture (Some f) device env st
  = Some {| out_ret := 0;
            out_slot := if decide (ret = 0) then set_flags c true true
                        else set_flags c false true;
            out_count := Z.min (capture_count st + 1) MAX_FB_CAPTURE;
            out_index := (current_index st + 1) mod MAX_FB_CAPTURE |}.
Proof.
  intros Hinv Hobj Hal Hex. unfold observe_capture.
  rewrite (capture_commits st f gem device env buf ret c) by done.
  cbn [captured_fbs capture_count current_index].
  rewrite slot_get_set by (by apply store_inv_index).
  destruct Hinv as (_ & _ & Hcnt & _).
  do 2 f_equal. case_decide; lia.
Qed.


(** * The specification against the code *)

(** ** Tiling detection *)

(** C3, as the code has it: a known modifier decides the tiling mode; a zero
    modifier means no tiling whatever the pitch; for any other modifier the
    mode is X-tiling if the pitch is a multiple of 512 and none otherwise. *)
Theorem detect_intel_tiling_cases (f : drm_framebuffer) :
  (fb_modifier f = I915_FORMAT_MOD_X_TILED ->
   detect_intel_tiling (Some f) = INTEL_TILING_X)
  /\ (fb_modifier f = I915_FORMAT_MOD_Y_TILED ->
      detect_intel_tiling (Some f) = INTEL_TILING_Y)
  /\ (fb_modifier f = I915_FORMAT_MOD_Yf_TILED ->
      detect_intel_tiling (Some f) = INTEL_TILING_YF)
  /\ (fb_modifier f = 0 -> detect_intel_tiling (Some f) = INTEL_TILING_NONE)
  /\ (fb_modifier f <> 0 ->
      fb_modifier f <> I915_FORMAT_MOD_X_TILED ->
      fb_modifier f <> I915_FORMAT_MOD_Y_TILED ->
      fb_modifier f <> I915_FORMAT_MOD_Yf_TILED ->
      (fb_pitches0 f mod 512 = 0 -> detect_intel_tiling (Some f) = INTEL_TILING_X)
      /\ (fb_pitches0 f mod 512 <> 0 ->
          detect_intel_tiling (Some f) = INTEL_TILING_NONE)).
Proof.
  unfold detect_intel_tiling, INTEL_TILE_X_WIDTH.
  repeat split; intros; repeat case_decide; try done;
    match goal with
    | H : fb_modifier f = _, H' : fb_modifier f = _ |- _ =>
        rewrite H in H'; vm_compute in H'; discriminate
    end.
Qed.

Lemma detect_intel_tiling_cases_witness :
  detect_intel_tiling
    (Some (sample_fb 1 256 2 1024 I915_FORMAT_MOD_Y_TILED opaque_gem))
  = INTEL_TILING_Y
  /\ detect_intel_tiling (Some (sample_fb 1 256 2 1024 5 opaque_gem))
     = INTEL_TILING_X.
Proof.
  split.
  - apply (detect_intel_tiling_cases
             (sample_fb 1 256 2 1024 I915_FORMAT_MOD_Y_TILED opaque_gem)).
    reflexivity.
  - apply (detect_intel_tiling_cases (sample_fb 1 256 2 1024 5 opaque_gem));
      vm_compute; congruence.
Defined.

(** C3 as stated fails: with a zero modifier no known modifier matches and
    the pitch 512 is a multiple of 512, yet the mode is none, not X. *)
Lemma detect_zero_modifier_not_x :
  fb_modifier linear_fb_512 <> I915_FORMAT_MOD_X_TILED
  /\ fb_modifier linear_fb_512 <> I915_FORMAT_MOD_Y_TILED
  /\ fb_modifier linear_fb_512 <> I915_FORMAT_MOD_Yf_TILED
  /\ fb_pitches0 linear_fb_512 mod 512 = 0
  /\ detect_intel_tiling (Some linear_fb_512) = INTEL_TILING_NONE
  /\ detect_intel_tiling (Some linear_fb_512) <> INTEL_TILING_X.
Proof. vm_compute. repeat split; congruence. Qed.

(** ** Allocation failures *)

(** C2, as the code has it. When the pixel buffer cannot be allocated the
    capture fails with [-ENOMEM] and leaves the slot invalid, without pixel
    data, the counters unchanged. When the framebuffer is tiled and only the
    raw buffer cannot be allocated, the extractor fails with [-ENOMEM] but the
    capture does not: it returns 0, commits the frame as valid without pixel
    data and advances the counters. *)
Theorem allocation_failure_outcomes st f gem device env :
  store_inv st -> fb_obj0 f = Some gem ->
  (pixel_alloc env = None ->
   exists c,
     observe_capture (Some f) device env st
     = Some {| out_ret := - ENOMEM; out_slot := c;
               out_count := capture_count st; out_index := current_index st |}
     /\ valid c = false /\ has_pixels c = false /\ pixel_buffer c = None)
  /\ (is_Some (pixel_alloc env) ->
      detect_intel_tiling (Some f) <> INTEL_TILING_NONE ->
      raw_alloc env = None ->
      exists c buf,
        extract_gem_pixels (Some gem)
          (set_pixel_buffer (new_capture f device env) (Some buf)) (raw_alloc env)
        = Some (- ENOMEM, set_pixel_buffer (new_capture f device env) (Some buf))
        /\ observe_capture (Some f) device env st
           = Some {| out_ret := 0; out_slot := c;
                     out_count := Z.min (capture_count st + 1) MAX_FB_CAPTURE;
                     out_index := (current_index st + 1) mod MAX_FB_CAPTURE |}
        /\ valid c = true /\ has_pixels c = false
        /\ pixel_buffer c = Some buf).
Proof.
  intros Hinv Hobj. split.
  - intros Hal. exists (new_capture f device env).
    split; [by eapply observe_no_pixel_buffer | done].
  - intros [fill Hfill] Htile Hraw.
    set (buf := fill <$> seq 0 (Z.to_nat (buffer_size (new_capture f device env)))).
    assert (vmalloc (pixel_alloc env) (buffer_size (new_capture f device env))
            = Some buf) as Hal by (by rewrite Hfill).
    assert (extract_gem_pixels (Some gem)
              (set_pixel_buffer (new_capture f device env) (Some buf)) (raw_alloc env)
            = Some (- ENOMEM, set_pixel_buffer (new_capture f device env) (Some buf)))
      as Hex by (rewrite Hraw; by apply extract_no_raw_buffer).
    eexists _, buf. split; [done |].
    split; [by eapply observe_commits |].
    rewrite decide_False by (unfold ENOMEM; lia). done.
Qed.

Lemma allocation_failure_outcomes_witness :
  (exists c,
     observe_capture (Some tiled_fb) 7 (env_no_pixel_buffer 3) wrapped_state
     = Some {| out_ret := - ENOMEM; out_slot := c;
               out_count := 5; out_index := 1 |}
     /\ valid c = false /\ has_pixels c = false /\ pixel_buffer c = None)
  /\ (exists c buf,
        observe_capture (Some tiled_fb) 7 (env_no_raw_buffer 3) wrapped_state
        = Some {| out_ret := 0; out_slot := c; out_count := 5; out_index := 2 |}
        /\ valid c = true /\ has_pixels c = false /\ pixel_buffer c = Some buf).
Proof.
  assert (store_inv wrapped_state) as Hinv
    by (apply (bool_decide_unpack _); vm_compute; exact I).
  destruct (allocation_failure_outcomes wrapped_state tiled_fb
              (dma_gem [x01; x02; x03; x04; x05; x06; x07; x08]) 7
              (env_no_pixel_buffer 3) Hinv eq_refl) as [H1 _].
  destruct (allocation_failure_outcomes wrapped_state tiled_fb
              (dma_gem [x01; x02; x03; x04; x05; x06; x07; x08]) 7
              (env_no_raw_buffer 3) Hinv eq_refl) as [_ H2].
  split.
  - apply H1. reflexivity.
  - destruct H2 as (c & buf & _ & Hobs & Hrest).
    + by eexists.
    + vm_compute. congruence.
    + reflexivity.
    + exists c, buf. split; [exact Hobs | exact Hrest].
Defined.

(** C2 as stated fails for the raw buffer: an X-tiled framebuffer is captured
    while the raw buffer cannot be allocated; the capture returns 0, not
    [-ENOMEM], and the slot is committed as valid. *)
Lemma raw_allocation_failure_not_surfaced :
  detect_intel_tiling (Some tiled_fb) = INTEL_TILING_X
  /\ raw_alloc (env_no_raw_buffer 3) = None
  /\ out_ret <$> observe_capture (Some tiled_fb) 7 (env_no_raw_buffer 3) init_state
     = Some 0
  /\ (fun o => valid (out_slot o)) <$> observe_capture (Some tiled_fb) 7 (env_no_raw_buffer 3) init_state
     = Some true
  /\ out_count <$> observe_capture (Some tiled_fb) 7 (env_no_raw_buffer 3) init_state
     = Some 1.
Proof. vm_compute. repeat split. Qed.

(** C10. When the pixel buffer cannot be allocated, the capture returns
    [-ENOMEM] and leaves [current_index] and [capture_count] as they were,
    but the targeted slot no longer holds its previous capture [old],
    whatever that was: the slot is invalid and has no pixel buffer. Every
    other slot is untouched. *)
Theorem failed_allocation_destroys_slot st f gem device env old :
  store_inv st -> fb_obj0 f = Some gem -> pixel_alloc env = None ->
  slot_get (captured_fbs st) (current_index st) = Some old ->
  exists st' c,
    capture_fb_pixels (Some f) device env st = Some (- ENOMEM, st')
    /\ current_index st' = current_index st
    /\ capture_count st' = capture_count st
    /\ slot_get (captured_fbs st') (current_index st) = Some c
    /\ valid c = false /\ has_pixels c = false /\ pixel_buffer c = None
    /\ (valid old = true -> c <> old)
    /\ (forall j, j <> current_index st ->
          slot_get (captured_fbs st') j = slot_get (captured_fbs st) j).
Proof.
  intros Hinv Hobj Hal Hold.
  pose proof (store_inv_index st Hinv) as Hidx.
  eexists _, (new_capture f device env).
  split; [by eapply capture_no_pixel_buffer |].
  cbn [captured_fbs capture_count current_index].
  rewrite slot_get_set by done.
  repeat split; try done.
  - intros Hv <-. done.
  - intros j Hj. apply slot_get_set_ne; [lia | done].
Qed.

Lemma failed_allocation_destroys_slot_witness :
  (exists old,
     slot_get (captured_fbs wrapped_state) (current_index wrapped_state) = Some old
     /\ valid old = true /\ has_pixels old = true
     /\ pixel_buffer old = Some [x02; x02; x02; x02])
  /\ exists st' c,
       capture_fb_pixels (Some tiled_fb) 7 (env_no_pixel_buffer 9) wrapped_state
       = Some (- ENOMEM, st')
       /\ current_index st' = current_index wrapped_state
       /\ capture_count st' = capture_count wrapped_state
       /\ slot_get (captured_fbs st') (current_index wrapped_state) = Some c
       /\ valid c = false /\ has_pixels c = false /\ pixel_buffer c = None.
Proof.
  split.
  - eexists. vm_compute. repeat split.
  - destruct (failed_allocation_destroys_slot wrapped_state tiled_fb
                (dma_gem [x01; x02; x03; x04; x05; x06; x07; x08]) 7
                (env_no_pixel_buffer 9)
                {| fb := 4098; dev := 256;
                   pixel_buffer := Some [x02; x02; x02; x02];
                   buffer_size := 4; width := 1; height := 1;
                   format := 875713112; pitch := 4; timestamp := 2;
                   valid := true; has_pixels := true; is_detiled := false;
                   detected_tiling := INTEL_TILING_NONE |})
      as (st' & c & H1 & H2 & H3 & H4 & H5 & H6 & H7 & _).
    + apply (bool_decide_unpack _). vm_compute. exact I.
    + reflexivity.
    + reflexivity.
    + vm_compute. reflexivity.
    + exists st', c. repeat split; assumption.
Defined.

(** ** Metadata-only captures *)

(** C8. When neither extraction method applies to the GEM object, the
    extractor returns [-ENODATA]; the capture still commits the frame, valid
    and without pixel data, advances the counters and returns 0. The pixel
    buffer must have been allocated, and the raw buffer too if the
    framebuffer is tiled, for the extractor to get that far. *)
Theorem no_backend_commits_metadata st f gem device env :
  store_inv st -> fb_obj0 f = Some gem ->
  gem_mapping gem = None -> gem_dma_buf gem = None ->
  is_Some (pixel_alloc env) ->
  (detect_intel_tiling (Some f) = INTEL_TILING_NONE \/ is_Some (raw_alloc env)) ->
  exists c buf,
    extract_gem_pixels (Some gem)
      (set_pixel_buffer (new_capture f device env) (Some buf)) (raw_alloc env)
    = Some (- ENODATA, set_pixel_buffer (new_capture f device env) (Some buf))
    /\ observe_capture (Some f) device env st
       = Some {| out_ret := 0; out_slot := c;
                 out_count := Z.min (capture_count st + 1) MAX_FB_CAPTURE;
                 out_index := (current_index st + 1) mod MAX_FB_CAPTURE |}
    /\ valid c = true /\ has_pixels c = false
    /\ same_meta (new_capture f device env) c.
Proof.
  intros Hinv Hobj Hm Hd [fill Hfill] Hraw.
  set (buf := fill <$> seq 0 (Z.to_nat (buffer_size (new_capture f device env)))).
  assert (vmalloc (pixel_alloc env) (buffer_size (new_capture f device env))
          = Some buf) as Hal by (by rewrite Hfill).
  assert (extract_gem_pixels (Some gem)
            (set_pixel_buffer (new_capture f device env) (Some buf)) (raw_alloc env)
          = Some (- ENODATA, set_pixel_buffer (new_capture f device env) (Some buf)))
    as Hex by (by apply extract_no_backend).
  eexists _, buf. split; [done |].
  split; [by eapply observe_commits |].
  rewrite decide_False by (unfold ENODATA; lia).
  split; [done |]. split; [done |]. by repeat split.
Qed.

Lemma no_backend_commits_metadata_witness :
  exists c,
    observe_capture (Some opaque_fb) 7 (env_ok 3) init_state
    = Some {| out_ret := 0; out_slot := c; out_count := 1; out_index := 1 |}
    /\ valid c = true /\ has_pixels c = false.
Proof.
  destruct (no_backend_commits_metadata init_state opaque_fb opaque_gem 7 (env_ok 3))
    as (c & buf & _ & Hobs & Hv & Hp & _).
  - apply (bool_decide_unpack _). vm_compute. exact I.
  - reflexivity.
  - reflexivity.
  - reflexivity.
  - by eexists.
  - left. reflexivity.
  - exists c. split; [exact Hobs | split; [exact Hv | exact Hp]].
Defined.

(** ** The size of the pixel buffer *)

(** The committed [buffer_size] is the 32-bit product capped at
    [MAX_CAPTURE_SIZE]. *)
Lemma committed_buffer_size st f device env out :
  store_inv st ->
  observe_capture (Some f) device env st = Some out ->
  out_ret out = 0 ->
  buffer_size (out_slot out)
  = Z.min (mul32 (mul32 (fb_height f) (fb_width f)) 4) MAX_CAPTURE_SIZE.
Proof.
  intros Hinv Hobs Hret. unfold observe_capture in Hobs.
  destruct (capture_fb_pixels _ _ _ _) as [[ret st']|] eqn:Hrun; [| done].
  destruct (slot_get (captured_fbs st') _) as [c|] eqn:Hc; [| done].
  injection Hobs as <-. simpl in Hret. subst ret. simpl.
  apply capture_success in Hrun as (f' & c' & [= <-] & Hm & _ & _ & ->).
  cbn [captured_fbs] in Hc.
  rewrite slot_get_set in Hc by (by apply store_inv_index).
  injection Hc as <-.
  destruct Hm as (_ & _ & -> & _). simpl. case_decide; lia.
Qed.

(** Without wrap-around of the frame size, that is the size the
    specification gives. *)
Lemma committed_buffer_size_exact st f device env out :
  store_inv st ->
  observe_capture (Some f) device env st = Some out ->
  out_ret out = 0 ->
  0 <= fb_height f -> 0 <= fb_width f ->
  fb_height f * fb_width f * 4 < 2 ^ 32 ->
  buffer_size (out_slot out)
  = Z.min (fb_height f * fb_width f * 4) MAX_CAPTURE_SIZE.
Proof.
  intros Hinv Hobs Hret Hh Hw Hlt.
  rewrite (committed_buffer_size st f device env out) by done.
  assert (0 <= fb_height f * fb_width f) by (apply Z.mul_nonneg_nonneg; lia).
  rewrite (mul32_small (fb_height f)) by lia.
  by rewrite mul32_small by lia.
Qed.

(** C7 fails on [huge_fb]: the frame size [16384 * 65537 * 4] exceeds
    [MAX_CAPTURE_SIZE], so the claim gives [MAX_CAPTURE_SIZE]; the 32-bit
    product wraps to 65536 and that is the [buffer_size] committed. *)
Theorem huge_frame_buffer_size_wraps :
  fb_height huge_fb * fb_width huge_fb * 4 = 2 ^ 32 + 65536
  /\ Z.min (fb_height huge_fb * fb_width huge_fb * 4) MAX_CAPTURE_SIZE
     = MAX_CAPTURE_SIZE
  /\ out_ret <$> observe_capture (Some huge_fb) 7 (env_ok 3) init_state = Some 0
  /\ (fun o => (valid (out_slot o), has_pixels (out_slot o)))
       <$> observe_capture (Some huge_fb) 7 (env_ok 3) init_state
     = Some (true, true)
  /\ (fun o => buffer_size (out_slot o))
       <$> observe_capture (Some huge_fb) 7 (env_ok 3) init_state
     = Some 65536.
Proof. vm_compute. repeat split. Qed.

(** ** The raw read *)

Lemma find_capture_found fbs n c :
  find_capture fbs n = Some (Some c) ->
  c ∈ fbs /\ valid c && has_pixels c = true.
Proof.
  induction n as [|n IH]; simpl; [done |].
  destruct (fbs !! n) as [d|] eqn:Hd; [| done].
  destruct (valid d && has_pixels d) eqn:Hv; [| done].
  intros [= <-]. split; [by eapply list_elem_of_lookup_2 | done].
Qed.

Lemma find_capture_none fbs n :
  (n <= length fbs)%nat ->
  Forall (fun c => valid c && has_pixels c = false) fbs ->
  find_capture fbs n = Some None.
Proof.
  intros Hn Hall. induction n as [|n IH]; simpl; [done |].
  destruct (lookup_lt_is_Some_2 fbs n) as [d Hd]; [lia |].
  rewrite Hd. rewrite (proj1 (Forall_lookup _ _) Hall n d Hd).
  apply IH. lia.
Qed.

(** Before the ring wraps, the scan of the code visits the slots in the
    order of the specification. *)
Lemma find_capture_newest_first fbs n :
  length fbs = 5%nat -> (n <= 5)%nat ->
  spec_newest_with_pixels fbs (Z.of_nat n mod 5) n
  = default None (find_capture fbs n).
Proof.
  intros Hlen. induction n as [|n IH]; intros Hn; [done |].
  cbn [spec_newest_with_pixels find_capture]. unfold MAX_FB_CAPTURE.
  replace ((Z.of_nat (S n) mod 5 - 1) mod 5) with (Z.of_nat n)
    by (Z.div_mod_to_equations; lia).
  unfold slot_get. rewrite decide_True by lia. rewrite Nat2Z.id.
  destruct (lookup_lt_is_Some_2 fbs n) as [d Hd]; [lia |].
  rewrite Hd. destruct (valid d && has_pixels d); [done |].
  rewrite <- IH by lia. f_equal. rewrite Z.mod_small; lia.
Qed.

Lemma raw_read_target st c count pos :
  store_inv st ->
  find_capture (captured_fbs st) (Z.to_nat (capture_count st)) = Some (Some c) ->
  0 <= count < 2 ^ 64 -> 0 <= pos < 2 ^ 63 ->
  exists buf,
    pixel_buffer c = Some buf /\ blen buf = buffer_size c
    /\ (buffer_size c <= pos ->
        forall user_ok,
          drm_fb_raw_read st count pos user_ok
          = Some {| read_ret := 0; read_data := []; read_pos := pos |})
    /\ (pos < buffer_size c ->
        let n := Z.min count (buffer_size c - pos) in
        drm_fb_raw_read st count pos true
        = Some {| read_ret := n;
                  read_data := take (Z.to_nat n) (drop (Z.to_nat pos) buf);
                  read_pos := pos + n |}
        /\ blen (take (Z.to_nat n) (drop (Z.to_nat pos) buf)) = n).
Proof.
  intros (_ & _ & _ & Hall) Hfind Hcount Hpos.
  destruct (find_capture_found _ _ _ Hfind) as [Hin Hv].
  destruct (proj1 (Forall_forall _ _) Hall c Hin) as [Hsize Hbuf].
  destruct (pixel_buffer c) as [buf|] eqn:Hpb; [| congruence].
  exists buf. split; [done |]. split; [done |].
  unfold drm_fb_raw_read. rewrite Hfind, Hpb.
  unfold MAX_CAPTURE_SIZE in Hsize.
  assert (u64 pos = pos) as Hu.
  { unfold u64. apply Z.mod_small. lia. }
  rewrite Hu. split.
  - intros Hge user_ok. by rewrite decide_True by lia.
  - intros Hlt. rewrite decide_False by lia.
    assert (u64 (buffer_size c - pos) = buffer_size c - pos) as Hu'.
    { unfold u64. apply Z.mod_small. lia. }
    rewrite Hu'. set (n := Z.min count (buffer_size c - pos)).
    rewrite decide_True by lia.
    split; [done |].
    unfold blen in *. rewrite length_take, length_drop. lia.
Qed.

Lemma raw_read_no_pixels st count pos user_ok :
  store_inv st ->
  Forall (fun c => valid c && has_pixels c = false) (captured_fbs st) ->
  drm_fb_raw_read st count pos user_ok
  = Some {| read_ret := - ENODATA; read_data := []; read_pos := pos |}.
Proof.
  intros (Hlen & _ & Hcnt & _) Hall. unfold drm_fb_raw_read.
  rewrite find_capture_none; [done | | done].
  unfold MAX_FB_CAPTURE in *. lia.
Qed.

(** C9. For the capture the scan finds: a read at or past [buffer_size]
    returns no byte and no error; a read before it returns the
    [min count (buffer_size - pos)] bytes at [pos] (the user buffer being
    writable). So a read of 1 byte at [buffer_size] returns none, a read of
    10 bytes at [buffer_size - 1] returns one. Without any slot holding
    pixels the read fails with [-ENODATA]. *)
Theorem raw_read_boundaries st :
  store_inv st ->
  (forall c count pos,
     find_capture (captured_fbs st) (Z.to_nat (capture_count st)) = Some (Some c) ->
     0 <= count < 2 ^ 64 -> 0 <= pos < 2 ^ 63 ->
     exists buf,
       pixel_buffer c = Some buf /\ blen buf = buffer_size c
       /\ (buffer_size c <= pos ->
           forall user_ok,
             drm_fb_raw_read st count pos user_ok
             = Some {| read_ret := 0; read_data := []; read_pos := pos |})
       /\ (pos < buffer_size c ->
           let n := Z.min count (buffer_size c - pos) in
           drm_fb_raw_read st count pos true
           = Some {| read_ret := n;
                     read_data := take (Z.to_nat n) (drop (Z.to_nat pos) buf);
                     read_pos := pos + n |}
           /\ blen (take (Z.to_nat n) (drop (Z.to_nat pos) buf)) = n)
       /\ drm_fb_raw_read st 1 (buffer_size c) true
          = Some {| read_ret := 0; read_data := []; read_pos := buffer_size c |}
       /\ (1 <= buffer_size c ->
           exists data,
             drm_fb_raw_read st 10 (buffer_size c - 1) true
             = Some {| read_ret := 1; read_data := data;
                       read_pos := buffer_size c |}
             /\ length data = 1%nat))
  /\ (Forall (fun c => valid c && has_pixels c = false) (captured_fbs st) ->
      forall count pos user_ok,
        drm_fb_raw_read st count pos user_ok
        = Some {| read_ret := - ENODATA; read_data := []; read_pos := pos |}).
Proof.
  intros Hinv. split.
  - intros c count pos Hfind Hcount Hpos.
    destruct (raw_read_target st c count pos Hinv Hfind Hcount Hpos)
      as (buf & Hpb & Hlen & Heof & Hdata).
    assert (0 <= buffer_size c <= MAX_CAPTURE_SIZE) as Hsize.
    { destruct Hinv as (_ & _ & _ & Hall).
      destruct (find_capture_found _ _ _ Hfind) as [Hin _].
      by destruct (proj1 (Forall_forall _ _) Hall c Hin). }
    unfold MAX_CAPTURE_SIZE in Hsize.
    exists buf. split; [done |]. split; [done |]. split; [done |].
    split; [done |]. split.
    + destruct (raw_read_target st c 1 (buffer_size c) Hinv Hfind)
        as (buf' & _ & _ & Heof' & _); [lia | lia |].
      apply Heof'. lia.
    + intros Hone.
      destruct (raw_read_target st c 10 (buffer_size c - 1) Hinv Hfind)
        as (buf' & _ & _ & _ & Hdata'); [lia | lia |].
      destruct Hdata' as [Hread Hl]; [lia |].
      replace (Z.min 10 (buffer_size c - (buffer_size c - 1))) with 1 in * by lia.
      replace (buffer_size c - 1 + 1) with (buffer_size c) in Hread by lia.
      eexists. split; [exact Hread |]. unfold blen in Hl. lia.
  - intros Hall count pos user_ok. by apply raw_read_no_pixels.
Qed.

Lemma raw_read_boundaries_witness :
  drm_fb_raw_read wrapped_state 1 4 true
  = Some {| read_ret := 0; read_data := []; read_pos := 4 |}
  /\ (exists data,
        drm_fb_raw_read wrapped_state 10 3 true
        = Some {| read_ret := 1; read_data := data; read_pos := 4 |}
        /\ length data = 1%nat)
  /\ drm_fb_raw_read init_state 10 0 true
     = Some {| read_ret := - ENODATA; read_data := []; read_pos := 0 |}.
Proof.
  assert (store_inv wrapped_state) as Hw
    by (apply (bool_decide_unpack _); vm_compute; exact I).
  assert (store_inv init_state) as Hi
    by (apply (bool_decide_unpack _); vm_compute; exact I).
  destruct (raw_read_boundaries wrapped_state Hw) as [Hread _].
  destruct (raw_read_boundaries init_state Hi) as [_ Hnone].
  destruct (Hread
              {| fb := 4101; dev := 256;
                 pixel_buffer := Some [x05; x05; x05; x05];
                 buffer_size := 4; width := 1; height := 1;
                 format := 875713112; pitch := 4; timestamp := 5;
                 valid := true; has_pixels := true; is_detiled := false;
                 detected_tiling := INTEL_TILING_NONE |} 10 3)
    as (buf & _ & _ & _ & _ & Heof & Hlast).
  - vm_compute. reflexivity.
  - lia.
  - lia.
  - split; [exact Heof |]. split.
    + apply Hlast. simpl. lia.
    + apply Hnone. vm_compute. repeat constructor.
Defined.

(** C4 fails once the ring has wrapped. After the six captures of
    [six_events] the newest frame with pixel data is the sixth, in slot 0;
    the scan of [drm_fb_raw_read] starts at slot 4 and delivers the fifth. *)
Theorem raw_read_after_wrap_is_not_newest :
  after_six = Some ([0; 0; 0; 0; 0; 0], wrapped_state)
  /\ (capture_count wrapped_state, current_index wrapped_state) = (5, 1)
  /\ (fun c => (timestamp c, pixel_buffer c)) <$> spec_read_target wrapped_state
     = Some (6, Some [x06; x06; x06; x06])
  /\ (fun c => (timestamp c, pixel_buffer c))
       <$> default None (find_capture (captured_fbs wrapped_state)
                           (Z.to_nat (capture_count wrapped_state)))
     = Some (5, Some [x05; x05; x05; x05])
  /\ drm_fb_raw_read wrapped_state 4 0 true
     = Some {| read_ret := 4; read_data := [x05; x05; x05; x05]; read_pos := 4 |}.
Proof. vm_compute. repeat split. Qed.

(** ** The ring of captures *)

(** C6. After any sequence of captures that all return 0, run from the
    initial state: the store has [MAX_FB_CAPTURE] slots; [capture_count] is
    the number of captures capped at [MAX_FB_CAPTURE]; [current_index], the
    slot the next capture will take, is that number modulo [MAX_FB_CAPTURE];
    exactly [capture_count] slots are valid; and each of the last
    [MAX_FB_CAPTURE] captures, the [i]-th say, has its frame in slot
    [i mod MAX_FB_CAPTURE], older frames having been overwritten there. *)
Theorem capture_ring evs rets st :
  run_captures evs init_state = Some (rets, st) ->
  Forall (fun r => r = 0) rets ->
  length (captured_fbs st) = Z.to_nat MAX_FB_CAPTURE
  /\ capture_count st = Z.min (Z.of_nat (length evs)) MAX_FB_CAPTURE
  /\ current_index st = Z.of_nat (length evs) mod MAX_FB_CAPTURE
  /\ length (filter (fun c => valid c = true) (captured_fbs st))
     = Z.to_nat (Z.min (Z.of_nat (length evs)) MAX_FB_CAPTURE)
  /\ (forall (i : nat) ev,
        evs !! i = Some ev ->
        Z.of_nat (length evs) <= Z.of_nat i + MAX_FB_CAPTURE ->
        exists c,
          slot_get (captured_fbs st) (Z.of_nat i mod MAX_FB_CAPTURE) = Some c
          /\ frame_of ev c).
Proof.
  intros Hrun Hrets. unfold MAX_FB_CAPTURE.
  destruct (run_captures_ring evs init_state rets st)
    as (Hlen & Hidx & Hcnt & Hfr & _); try done; simpl; try lia.
  simpl in Hidx, Hcnt, Hfr.
  split; [done |]. split; [done |]. split; [done |].
  split; [by eapply ring_valid_count |].
  intros i ev Hev Hi. destruct (Hfr i ev Hev Hi) as (c & Hc & Hfo).
  exists c. split; [| done].
  unfold slot_get. rewrite decide_True by (apply Z.mod_pos_bound; lia).
  by rewrite Z.add_0_l in Hc.
Qed.

Lemma capture_ring_witness :
  capture_count wrapped_state = 5
  /\ current_index wrapped_state = 1
  /\ length (filter (fun c => valid c = true) (captured_fbs wrapped_state)) = 5%nat
  /\ exists c, slot_get (captured_fbs wrapped_state) 0 = Some c
               /\ frame_of (pixel_event 6 x06) c.
Proof.
  destruct (capture_ring six_events [0; 0; 0; 0; 0; 0] wrapped_state)
    as (_ & Hcnt & Hidx & Hvalid & Hfr).
  - vm_compute. reflexivity.
  - repeat constructor.
  - split; [exact Hcnt |]. split; [exact Hidx |]. split; [exact Hvalid |].
    apply (Hfr 5%nat (pixel_event 6 x06)).
    + reflexivity.
    + vm_compute. intros H. discriminate H.
Defined.

(** ** The converter *)

(** The conversion leaves the destination untouched from the bound on. *)
Lemma convert_in_bounds tiling tile_w tile_h src dst width height pitch :
  tile_dims tiling = Some (tile_w, tile_h) ->
  mul32 height pitch <= blen src ->
  mul32 (mul32 height width) 4 <= blen dst ->
  exists dst',
    convert_tiled_to_linear (Some src) (Some dst) width height pitch tiling
    = Some (0, Some dst')
    /\ length dst' = length dst
    /\ forall j : nat, mul32 (mul32 height width) 4 <= Z.of_nat j ->
                       dst' !! j = dst !! j.
Proof.
  intros Hd Hsrc Hdst. unfold convert_tiled_to_linear. rewrite Hd.
  destruct (convert_loops_inv src width height pitch tile_w tile_h Hsrc
              (fun d => forall j : nat, mul32 (mul32 height width) 4 <= Z.of_nat j ->
                                        d !! j = dst !! j) dst Hdst)
    as (dst' & -> & Hlen & HQ); [| done | by exists dst'].
  intros y x d d' Hy Hx Hlen HQ Hrun j Hj.
  destruct (copy_pixel_frame src width height pitch tile_w tile_h Hsrc y x d)
    as (d'' & Hd'' & _ & Hfr).
  { unfold blen in *. lia. }
  rewrite Hrun in Hd''. injection Hd'' as <-.
  rewrite Hfr; [by apply HQ |].
  intros k Hk Hg Heq. unfold copy_guard in Hg.
  apply andb_true_iff in Hg as [_ Hg]. apply bool_decide_eq_true in Hg.
  pose proof (add32_range (dst_offset_of width x y) k). lia.
Qed.

(** C5, as the code has it. With buffers at least as long as the bounds it
    computes, the conversion never reads or writes outside them and changes
    no byte of the destination from the bound [height * width * 4] on. A
    byte is copied only if its own source offset is below
    [height * pitch] and its destination pixel lies wholly below
    [height * width * 4]; a byte whose offset fails its bound is skipped and
    the destination keeps its value. The source bound is per byte: the
    pixel's last source byte, at [src_offset + 3], may lie past it. *)
Theorem convert_stays_in_bounds tiling tile_w tile_h src dst width height pitch :
  tile_dims tiling = Some (tile_w, tile_h) ->
  mul32 height pitch <= blen src ->
  mul32 (mul32 height width) 4 <= blen dst ->
  (exists dst',
     convert_tiled_to_linear (Some src) (Some dst) width height pitch tiling
     = Some (0, Some dst')
     /\ length dst' = length dst
     /\ forall j : nat, mul32 (mul32 height width) 4 <= Z.of_nat j ->
                        dst' !! j = dst !! j)
  /\ (forall x y k, 0 <= k < 4 ->
        copy_guard width height pitch (src_offset_of tile_w tile_h pitch x y)
          (dst_offset_of width x y) k = true ->
        src_offset_of tile_w tile_h pitch x y + k < mul32 height pitch
        /\ dst_offset_of width x y + 3 < mul32 (mul32 height width) 4)
  /\ (forall x y k d,
        copy_guard width height pitch (src_offset_of tile_w tile_h pitch x y)
          (dst_offset_of width x y) k = false ->
        copy_byte src width height pitch (src_offset_of tile_w tile_h pitch x y)
          (dst_offset_of width x y) k d = Some d).
Proof.
  intros Hd Hsrc Hdst. split; [by eapply convert_in_bounds |]. split.
  - intros x y k Hk Hg. by eapply copy_guard_bounds.
  - intros x y k d Hg. unfold copy_byte. by rewrite Hg.
Qed.

Lemma convert_stays_in_bounds_witness :
  exists dst',
    convert_tiled_to_linear (Some short_src) (Some (replicate 10 xff)) 2 1 6
      INTEL_TILING_X
    = Some (0, Some dst')
    /\ length dst' = 10%nat
    /\ dst' !! 8%nat = Some xff /\ dst' !! 9%nat = Some xff.
Proof.
  destruct (convert_stays_in_bounds INTEL_TILING_X 512 8 short_src
              (replicate 10 xff) 2 1 6) as [(dst' & Hrun & Hlen & Hfr) _].
  - reflexivity.
  - vm_compute. intros H. discriminate H.
  - vm_compute. intros H. discriminate H.
  - exists dst'. split; [exact Hrun |]. split; [exact Hlen |].
    split; apply Hfr; vm_compute; intros H; discriminate H.
Defined.

(** C5 as stated fails for the source: in an X-tiled frame of two pixels
    whose pitch is 6, the bytes 4 and 5 of the source are read for the
    second pixel, whose source offset is 4, although [4 + 3] is not below
    [height * pitch = 6]. *)
Lemma source_read_past_pixel_bound :
  src_offset_of 512 8 6 1 0 = 4
  /\ copy_guard 2 1 6 (src_offset_of 512 8 6 1 0) (dst_offset_of 2 1 0) 0 = true
  /\ copy_guard 2 1 6 (src_offset_of 512 8 6 1 0) (dst_offset_of 2 1 0) 1 = true
  /\ ~ (src_offset_of 512 8 6 1 0 + 3 < 1 * 6)
  /\ convert_tiled_to_linear (Some short_src) (Some (replicate 8 x00)) 2 1 6
       INTEL_TILING_X
     = Some (0, Some [x01; x02; x03; x04; x05; x06; x00; x00]).
Proof.
  vm_compute. repeat split. intros H. discriminate H.
Qed.

(** C1 as stated fails when a bound wraps: in an X-tiled frame of one
    pixel by two rows whose pitch is [2 ^ 31], pixel [(0, 0)] has source
    offset 0 and destination offset 0, both within [height * pitch = 2 ^ 32]
    and [height * width * 4 = 8]; but the code computes [height * pitch] in
    32 bits, which gives 0, so the guard is false for every byte and the
    conversion returns 0 with the destination as it was: the four source
    bytes are not copied. *)
Lemma wrapped_bound_skips_pixel :
  spec_src_offset 512 8 (2 ^ 31) 0 0 = 0
  /\ spec_dst_offset 1 0 0 = 0
  /\ spec_src_offset 512 8 (2 ^ 31) 0 0 + 3 < 2 * 2 ^ 31
  /\ spec_dst_offset 1 0 0 + 3 < 2 * 1 * 4
  /\ mul32 2 (2 ^ 31) = 0
  /\ copy_guard 1 2 (2 ^ 31) (src_offset_of 512 8 (2 ^ 31) 0 0) (dst_offset_of 1 0 0) 0
     = false
  /\ convert_tiled_to_linear (Some ramp_src) (Some (replicate 8 xff)) 1 2 (2 ^ 31)
       INTEL_TILING_X
     = Some (0, Some (replicate 8 xff))
  /\ ~ copied ramp_src (replicate 8 xff) 0 0.
Proof.
  do 7 (split; [vm_compute; reflexivity |]).
  intros H. destruct (H 0 ltac:(lia)) as (v & Hs & Hd).
  vm_compute in Hs, Hd. congruence.
Qed.

(** C1. In a conversion with X, Y or Yf tiling (tiles of 512 by 8, or 128
    by 32), take a pixel [(x, y)] of the frame whose four source bytes and
    four destination bytes lie below the bounds as the code computes them,
    in 32-bit arithmetic: [height * pitch] and [height * width * 4], each
    modulo [2 ^ 32]. The offsets computed in 32-bit arithmetic are those of
    the integer formulas; the body of the loops, run for that pixel on any
    state of the destination, copies [src[src_offset .. src_offset + 4)] to
    [dst[dst_offset .. dst_offset + 4)]; and when [height * width * 4] does
    not wrap, the destination still holds these bytes when the conversion
    returns. For [width = 512], [height = 32], [pitch = 512] and X tiling,
    pixel [(0, 9)] is read from offset 4608 into [dst] from [9 * 512 * 4]. *)
Theorem convert_copies_pixel :
  (forall tiling tile_w tile_h src dst width height pitch x y,
     tile_dims tiling = Some (tile_w, tile_h) ->
     0 <= pitch -> 0 <= x < width -> 0 <= y < height ->
     mul32 height pitch <= blen src ->
     mul32 (mul32 height width) 4 <= blen dst ->
     spec_src_offset tile_w tile_h pitch x y + 3 < mul32 height pitch ->
     spec_dst_offset width x y + 3 < mul32 (mul32 height width) 4 ->
     ((tiling = INTEL_TILING_X /\ tile_w = 512 /\ tile_h = 8)
      \/ ((tiling = INTEL_TILING_Y \/ tiling = INTEL_TILING_YF)
          /\ tile_w = 128 /\ tile_h = 32))
     /\ src_offset_of tile_w tile_h pitch x y = spec_src_offset tile_w tile_h pitch x y
     /\ dst_offset_of width x y = spec_dst_offset width x y
     /\ (forall d, length d = length dst ->
           exists d',
             copy_pixel src width height pitch tile_w tile_h y x d = Some d'
             /\ copied src d' (spec_src_offset tile_w tile_h pitch x y)
                  (spec_dst_offset width x y))
     /\ (height * width * 4 < 2 ^ 32 ->
         exists dst',
           convert_tiled_to_linear (Some src) (Some dst) width height pitch tiling
           = Some (0, Some dst')
           /\ copied src dst' (spec_src_offset tile_w tile_h pitch x y)
                (spec_dst_offset width x y)))
  /\ (forall src dst,
        blen src = 32 * 512 -> blen dst = 32 * 512 * 4 ->
        spec_src_offset 512 8 512 0 9 = 4608
        /\ spec_dst_offset 512 0 9 = 9 * 512 * 4
        /\ exists dst',
             convert_tiled_to_linear (Some src) (Some dst) 512 32 512 INTEL_TILING_X
             = Some (0, Some dst')
             /\ copied src dst' 4608 (9 * 512 * 4)).
Proof.
  split.
  - intros tiling tile_w tile_h src dst width height pitch x y
      Hd Hp Hx Hy Hsrc Hdst Hs Hdo.
    pose proof (mul32_range height pitch).
    pose proof (mul32_range (mul32 height width) 4).
    split.
    { destruct tiling; simpl in Hd; try discriminate; injection Hd as <- <-;
        unfold INTEL_TILE_X_WIDTH, INTEL_TILE_X_HEIGHT,
          INTEL_TILE_Y_WIDTH, INTEL_TILE_Y_HEIGHT; auto 10. }
    split; [apply (src_offset_exact tiling); (done || lia) |].
    split; [apply dst_offset_exact; lia |].
    split.
    + intros d Hlen.
      destruct (copy_pixel_hit tiling tile_w tile_h src width height pitch x y d)
        as (d' & Hd' & _ & Hc); try done; try lia.
      { unfold blen in *. lia. }
      by exists d'.
    + intros Hno.
      destruct (convert_pixel_final tiling tile_w tile_h src dst width height pitch x y)
        as (dst' & Hrun & _ & Hc); try done.
      by exists dst'.
  - intros src dst Hsrc Hdst.
    split; [reflexivity |]. split; [reflexivity |].
    destruct (convert_pixel_final INTEL_TILING_X 512 8 src dst 512 32 512 0 9)
      as (dst' & Hrun & _ & Hc); try done; try lia.
    + rewrite Hsrc. vm_compute. intros H. discriminate H.
    + rewrite Hdst. vm_compute. intros H. discriminate H.
    + by exists dst'.
Qed.

Lemma convert_copies_pixel_witness :
  exists dst',
    convert_tiled_to_linear (Some ramp_src) (Some (replicate 40 x00)) 1 10 512
      INTEL_TILING_X
    = Some (0, Some dst')
    /\ copied ramp_src dst' 4608 36.
Proof.
  destruct (proj1 convert_copies_pixel INTEL_TILING_X 512 8 ramp_src
              (replicate 40 x00) 1 10 512 0 9)
    as (_ & _ & _ & _ & Hfinal).
  - reflexivity.
  - lia.
  - lia.
  - lia.
  - vm_compute. intros H. discriminate H.
  - vm_compute. intros H. discriminate H.
  - vm_compute. reflexivity.
  - vm_compute. reflexivity.
  - apply Hfinal. vm_compute. reflexivity.
Defined.

(** * Further properties of the code *)

(** ** The converter, byte by byte *)

(** Without wrap-around of the frame size the destination offset is exact
    and the destination half of the guard always holds. *)
Lemma dst_offset_in_frame width height x y k :
  height * width * 4 < 2 ^ 32 ->
  0 <= x < width -> 0 <= y < height -> 0 <= k < 4 ->
  dst_offset_of width x y = spec_dst_offset width x y
  /\ add32 (dst_offset_of width x y) k = spec_dst_offset width x y + k
  /\ 0 <= spec_dst_offset width x y
  /\ spec_dst_offset width x y + k < height * width * 4
  /\ mul32 (mul32 height width) 4 = height * width * 4.
Proof.
  intros Hno Hx Hy Hk.
  assert ((y + 1) * width <= height * width) by nia.
  assert (0 <= y * width) by nia.
  assert (0 <= height * width) by nia.
  assert (dst_offset_of width x y = spec_dst_offset width x y) as Hex
    by (apply dst_offset_exact; unfold spec_dst_offset; lia).
  rewrite Hex. unfold spec_dst_offset.
  rewrite add32_small by lia. rewrite (mul32_small height width) by lia.
  rewrite mul32_small by lia. lia.
Qed.

(** The value of one destination byte after the copy of its own pixel. *)
Lemma copy_pixel_byte tile_w tile_h src width height pitch x y k0 d :
  mul32 height pitch <= blen src ->
  height * width * 4 < 2 ^ 32 ->
  0 <= x < width -> 0 <= y < height -> 0 <= k0 < 4 ->
  height * width * 4 <= blen d ->
  exists d',
    copy_pixel src width height pitch tile_w tile_h y x d = Some d'
    /\ length d' = length d
    /\ d' !! Z.to_nat (spec_dst_offset width x y + k0)
       = if bool_decide (add32 (src_offset_of tile_w tile_h pitch x y) k0
                         < mul32 height pitch)
         then src !! Z.to_nat (add32 (src_offset_of tile_w tile_h pitch x y) k0)
         else d !! Z.to_nat (spec_dst_offset width x y + k0).
Proof.
  intros Hsrc Hno Hx Hy Hk0 Hd.
  destruct (dst_offset_in_frame width height x y k0 Hno Hx Hy Hk0)
    as (Hdo & _ & Hdo0 & _ & Hbound).
  set (so := src_offset_of tile_w tile_h pitch x y).
  set (t := Z.to_nat (spec_dst_offset width x y + k0)).
  set (E := if bool_decide (add32 so k0 < mul32 height pitch)
            then src !! Z.to_nat (add32 so k0) else d !! t).
  unfold copy_pixel. fold so.
  destruct (for_loop_inv_idx
    (fun k u => length u = length d
                /\ (k <= k0 -> u !! t = d !! t) /\ (k0 < k -> u !! t = E))
    (copy_byte src width height pitch so (dst_offset_of width x y)) 4 0 d)
    as (d' & Hd' & Hlen & _ & HE).
  - intros k u Hk (Hlen & Hbefore & Hafter). simpl in Hk.
    destruct (dst_offset_in_frame width height x y k Hno Hx Hy ltac:(lia))
      as (_ & Hidx & _ & Hlt & _).
    destruct (copy_byte_spec src width height pitch Hsrc so
                (dst_offset_of width x y) k u) as (u' & Hu' & Hlen' & Hfr & Hhit).
    { rewrite Hbound. unfold blen in *. lia. }
    exists u'. split; [done |]. split; [congruence |].
    rewrite Hidx in Hfr, Hhit.
    destruct (decide (k = k0)) as [-> | Hne].
    + split; [intros; lia |]. intros _. unfold E.
      unfold copy_guard in Hfr, Hhit. rewrite Hidx, Hbound in Hfr, Hhit.
      rewrite (bool_decide_eq_true_2 (spec_dst_offset width x y + k0 < _)) in Hfr, Hhit
        by lia.
      rewrite andb_true_r in Hfr, Hhit.
      destruct (bool_decide (add32 so k0 < mul32 height pitch)) eqn:Hg.
      * destruct (Hhit eq_refl) as (v & Hv1 & Hv2). by rewrite Hv1.
      * rewrite Hfr by done. apply Hbefore. lia.
    + assert (u' !! t = u !! t) as Hsame.
      { apply Hfr. intros _. unfold t. lia. }
      rewrite Hsame. split; [intros; apply Hbefore; lia | intros; apply Hafter; lia].
  - split; [done |]. split; [done | intros; lia].
  - exists d'. split; [done |]. split; [done |]. apply HE. simpl. lia.
Qed.

(** A pixel other than [(x0, y0)] leaves the bytes of [(x0, y0)] alone. *)
Lemma copy_pixel_keeps tile_w tile_h src width height pitch x y x0 y0 k0 d d' :
  mul32 height pitch <= blen src ->
  height * width * 4 < 2 ^ 32 ->
  0 <= x < width -> 0 <= y < height -> 0 <= x0 < width -> 0 <= y0 < height ->
  0 <= k0 < 4 ->
  (x, y) <> (x0, y0) ->
  mul32 (mul32 height width) 4 <= blen d ->
  copy_pixel src width height pitch tile_w tile_h y x d = Some d' ->
  d' !! Z.to_nat (spec_dst_offset width x0 y0 + k0)
  = d !! Z.to_nat (spec_dst_offset width x0 y0 + k0).
Proof.
  intros Hsrc Hno Hx Hy Hx0 Hy0 Hk0 Hne Hd Hrun.
  destruct (copy_pixel_frame src width height pitch tile_w tile_h Hsrc y x d Hd)
    as (d'' & Hd'' & _ & Hfr).
  rewrite Hrun in Hd''. injection Hd'' as <-.
  apply Hfr. intros k Hk _ Heq.
  by eapply (dst_index_distinct width height x y x0 y0 k k0).
Qed.

(** The value of every byte of the frame after the conversion: the source
    byte if its offset passes the guard, the old destination byte if not. *)
Lemma convert_byte_final tiling tile_w tile_h src dst width height pitch x0 y0 k0 :
  tile_dims tiling = Some (tile_w, tile_h) ->
  height * width * 4 < 2 ^ 32 ->
  0 <= x0 < width -> 0 <= y0 < height -> 0 <= k0 < 4 ->
  mul32 height pitch <= blen src ->
  height * width * 4 <= blen dst ->
  exists dst',
    convert_tiled_to_linear (Some src) (Some dst) width height pitch tiling
    = Some (0, Some dst')
    /\ length dst' = length dst
    /\ dst' !! Z.to_nat (spec_dst_offset width x0 y0 + k0)
       = if bool_decide (add32 (src_offset_of tile_w tile_h pitch x0 y0) k0
                         < mul32 height pitch)
         then src !! Z.to_nat (add32 (src_offset_of tile_w tile_h pitch x0 y0) k0)
         else dst !! Z.to_nat (spec_dst_offset width x0 y0 + k0).
Proof.
  intros Hd Hno Hx0 Hy0 Hk0 Hsrc Hdst.
  destruct (dst_offset_in_frame width height x0 y0 k0 Hno Hx0 Hy0 Hk0)
    as (_ & _ & _ & _ & Hbound).
  set (t := Z.to_nat (spec_dst_offset width x0 y0 + k0)).
  set (so := src_offset_of tile_w tile_h pitch x0 y0).
  set (E := if bool_decide (add32 so k0 < mul32 height pitch)
            then src !! Z.to_nat (add32 so k0) else dst !! t).
  unfold convert_tiled_to_linear. rewrite Hd.
  destruct (for_loop_inv_idx
    (fun y d => length d = length dst
                /\ (y <= y0 -> d !! t = dst !! t) /\ (y0 < y -> d !! t = E))
    (copy_row src width height pitch tile_w tile_h) (Z.to_nat height) 0 dst)
    as (dst' & -> & Hlen & _ & HE).
  - intros y d Hy (Hlen & Hbefore & Hafter). unfold copy_row.
    destruct (for_loop_inv_idx
      (fun x u => length u = length dst
         /\ ((y < y0 \/ (y = y0 /\ x <= x0)) -> u !! t = dst !! t)
         /\ ((y0 < y \/ (y = y0 /\ x0 < x)) -> u !! t = E))
      (copy_pixel src width height pitch tile_w tile_h y) (Z.to_nat width) 0 d)
      as (d' & Hd' & Hlen' & Hb' & Ha').
    + intros x u Hx (Hlenu & Hbu & Hau).
      assert (height * width * 4 <= blen u) as Hbt by (unfold blen in *; lia).
      destruct (decide ((x, y) = (x0, y0))) as [Heq | Hne].
      * injection Heq as -> ->.
        destruct (copy_pixel_byte tile_w tile_h src width height pitch x0 y0 k0 u)
          as (u' & Hu' & Hlen' & Hval); try done.
        exists u'. split; [done |]. split; [congruence |].
        split; [intros [? | [_ ?]]; lia |]. intros _.
        fold t so in Hval. rewrite Hval. unfold E.
        rewrite Hbu by (right; lia). done.
      * destruct (copy_pixel_frame src width height pitch tile_w tile_h Hsrc y x u)
          as (u' & Hu' & Hlen' & _); [by rewrite Hbound |].
        assert (u' !! t = u !! t) as Hsame.
        { apply (copy_pixel_keeps tile_w tile_h src width height pitch x y x0 y0 k0);
            try done; try lia; by rewrite Hbound. }
        exists u'. split; [done |]. split; [congruence |]. rewrite Hsame.
        split; intros Hc.
        -- apply Hbu. destruct Hc as [? | [-> ?]]; [by left | right; lia].
        -- apply Hau. destruct Hc as [? | [-> ?]]; [by left | right].
           split; [done |]. destruct (decide (x = x0)) as [-> | ?]; [done | lia].
    + split; [done |]. split.
      * intros [? | [? ?]]; apply Hbefore; lia.
      * intros [? | [_ ?]]; [by apply Hafter | lia].
    + exists d'. split; [done |]. split; [done |]. split.
      * intros Hle. apply Hb'. left. lia.
      * intros Hlt. apply Ha'.
        destruct (decide (y = y0)) as [-> | ?]; [right | left]; lia.
  - split; [done |]. split; [done | intros; lia].
  - exists dst'. split; [done |]. split; [done |]. apply HE. lia.
Qed.

(** ** Aligned frames *)

(** When the pitch is a whole number of tiles, the height a whole number of
    tile rows and a row of pixels fits in the pitch, every pixel of the
    frame has its four source bytes below [height * pitch]. *)
Lemma aligned_src_in_bounds tiling tile_w tile_h width height pitch x y :
  tile_dims tiling = Some (tile_w, tile_h) ->
  pitch mod tile_w = 0 -> height mod tile_h = 0 -> width * 4 <= pitch ->
  0 <= x < width -> 0 <= y < height ->
  0 <= spec_src_offset tile_w tile_h pitch x y
  /\ spec_src_offset tile_w tile_h pitch x y + 3 < height * pitch.
Proof.
  intros Hd Hp Hh Hw Hx Hy.
  destruct (tile_dims_cases _ _ _ Hd) as [[-> ->] | [-> ->]];
    unfold spec_src_offset.
  - assert (0 <= y / 8) by (apply Z.div_pos; lia).
    assert (0 <= pitch / 512) by (apply Z.div_pos; lia).
    assert (y / 8 + 1 <= height / 8) by (Z.div_mod_to_equations; lia).
    assert (x * 4 / 512 + 1 <= pitch / 512) by (Z.div_mod_to_equations; lia).
    assert (0 <= y / 8 * (pitch / 512)) as HB by nia.
    assert (y / 8 * (pitch / 512) + pitch / 512 <= height / 8 * (pitch / 512))
      as HA by nia.
    assert (height * pitch = height / 8 * (pitch / 512) * 4096) as ->.
    { assert (height = height / 8 * 8) as Hh' by (Z.div_mod_to_equations; lia).
      assert (pitch = pitch / 512 * 512) as Hp' by (Z.div_mod_to_equations; lia).
      rewrite Hh' at 1. rewrite Hp' at 1. ring. }
    revert HB HA. generalize (y / 8 * (pitch / 512)).
    generalize (height / 8 * (pitch / 512)). intros A B HB HA.
    Z.div_mod_to_equations. lia.
  - assert (0 <= y / 32) by (apply Z.div_pos; lia).
    assert (0 <= pitch / 128) by (apply Z.div_pos; lia).
    assert (y / 32 + 1 <= height / 32) by (Z.div_mod_to_equations; lia).
    assert (x * 4 / 128 + 1 <= pitch / 128) by (Z.div_mod_to_equations; lia).
    assert (0 <= y / 32 * (pitch / 128)) as HB by nia.
    assert (y / 32 * (pitch / 128) + pitch / 128 <= height / 32 * (pitch / 128))
      as HA by nia.
    assert (height * pitch = height / 32 * (pitch / 128) * 4096) as ->.
    { assert (height = height / 32 * 32) as Hh' by (Z.div_mod_to_equations; lia).
      assert (pitch = pitch / 128 * 128) as Hp' by (Z.div_mod_to_equations; lia).
      rewrite Hh' at 1. rewrite Hp' at 1. ring. }
    revert HB HA. generalize (y / 32 * (pitch / 128)).
    generalize (height / 32 * (pitch / 128)). intros A B HB HA.
    Z.div_mod_to_equations. lia.
Qed.

(** With a pitch that is a whole number of tiles, distinct bytes of the
    frame come from distinct bytes of the source. *)
Lemma src_offset_injective tiling tile_w tile_h pitch x y k x' y' k' :
  tile_dims tiling = Some (tile_w, tile_h) ->
  pitch mod tile_w = 0 ->
  0 <= x -> x * 4 < pitch -> 0 <= x' -> x' * 4 < pitch ->
  0 <= y -> 0 <= y' -> 0 <= k < 4 -> 0 <= k' < 4 ->
  spec_src_offset tile_w tile_h pitch x y + k
  = spec_src_offset tile_w tile_h pitch x' y' + k' ->
  x = x' /\ y = y' /\ k = k'.
Proof.
  intros Hd Hp Hx Hxp Hx' Hxp' Hy Hy' Hk Hk'.
  destruct (tile_dims_cases _ _ _ Hd) as [[-> ->] | [-> ->]];
    unfold spec_src_offset; intros Heq.
  - assert (0 <= pitch / 512) by (apply Z.div_pos; lia).
    assert (0 <= y / 8) by (apply Z.div_pos; lia).
    assert (0 <= y' / 8) by (apply Z.div_pos; lia).
    assert (0 <= y / 8 * (pitch / 512)) as HP by nia.
    assert (0 <= y' / 8 * (pitch / 512)) as HP' by nia.
    assert (y / 8 < y' / 8 ->
            y / 8 * (pitch / 512) + pitch / 512 <= y' / 8 * (pitch / 512))
      as Hlt by (intros; nia).
    assert (y' / 8 < y / 8 ->
            y' / 8 * (pitch / 512) + pitch / 512 <= y / 8 * (pitch / 512))
      as Hgt by (intros; nia).
    assert (y / 8 = y' / 8 -> y / 8 * (pitch / 512) = y' / 8 * (pitch / 512))
      as Hsame by (intros ->; reflexivity).
    revert Heq HP HP' Hlt Hgt Hsame.
    generalize (y / 8 * (pitch / 512)). generalize (y' / 8 * (pitch / 512)).
    intros P' P Heq HP HP' Hlt Hgt Hsame.
    Z.div_mod_to_equations. lia.
  - assert (0 <= pitch / 128) by (apply Z.div_pos; lia).
    assert (0 <= y / 32) by (apply Z.div_pos; lia).
    assert (0 <= y' / 32) by (apply Z.div_pos; lia).
    assert (0 <= y / 32 * (pitch / 128)) as HP by nia.
    assert (0 <= y' / 32 * (pitch / 128)) as HP' by nia.
    assert (y / 32 < y' / 32 ->
            y / 32 * (pitch / 128) + pitch / 128 <= y' / 32 * (pitch / 128))
      as Hlt by (intros; nia).
    assert (y' / 32 < y / 32 ->
            y' / 32 * (pitch / 128) + pitch / 128 <= y / 32 * (pitch / 128))
      as Hgt by (intros; nia).
    assert (y / 32 = y' / 32 -> y / 32 * (pitch / 128) = y' / 32 * (pitch / 128))
      as Hsame by (intros ->; reflexivity).
    revert Heq HP HP' Hlt Hgt Hsame.
    generalize (y / 32 * (pitch / 128)). generalize (y' / 32 * (pitch / 128)).
    intros P' P Heq HP HP' Hlt Hgt Hsame.
    Z.div_mod_to_equations. lia.
Qed.

(** Distinct bytes of an aligned frame are read from distinct source
    offsets: the converter uses no source byte twice. The offsets are the
    32-bit ones the loop computes. *)
Theorem distinct_pixels_read_distinct_bytes tiling tile_w tile_h width height pitch
    x y k x' y' k' :
  tile_dims tiling = Some (tile_w, tile_h) ->
  pitch mod tile_w = 0 -> height mod tile_h = 0 -> width * 4 <= pitch ->
  height * pitch < 2 ^ 32 ->
  0 <= x < width -> 0 <= y < height -> 0 <= k < 4 ->
  0 <= x' < width -> 0 <= y' < height -> 0 <= k' < 4 ->
  (x, y, k) <> (x', y', k') ->
  add32 (src_offset_of tile_w tile_h pitch x y) k
  <> add32 (src_offset_of tile_w tile_h pitch x' y') k'.
Proof.
  intros Hd Hp Hh Hw Hsize Hx Hy Hk Hx' Hy' Hk' Hne Heq. apply Hne.
  destruct (aligned_src_in_bounds tiling tile_w tile_h width height pitch x y)
    as [Hlo Hhi]; try done.
  destruct (aligned_src_in_bounds tiling tile_w tile_h width height pitch x' y')
    as [Hlo' Hhi']; try done.
  rewrite !(src_offset_exact tiling) in Heq by (done || lia).
  rewrite !add32_small in Heq by lia.
  destruct (src_offset_injective tiling tile_w tile_h pitch x y k x' y' k')
    as (-> & -> & ->); (done || lia).
Qed.

Lemma distinct_pixels_read_distinct_bytes_witness :
  add32 (src_offset_of 512 8 1024 0 8) 0 <> add32 (src_offset_of 512 8 1024 128 0) 0.
Proof.
  apply (distinct_pixels_read_distinct_bytes INTEL_TILING_X 512 8 256 16 1024
           0 8 0 128 0 0);
    try reflexivity; try lia. intros H. discriminate H.
Defined.

(** The whole frame after a conversion whose frame size does not wrap: the
    call returns 0, the destination keeps its length, byte [k] of pixel
    [(x, y)] is the source byte at [src_offset + k] if that offset is below
    [height * pitch] and the old destination byte otherwise, and everything
    from [height * width * 4] on is unchanged. *)
Theorem convert_frame_contents tiling tile_w tile_h src dst width height pitch :
  tile_dims tiling = Some (tile_w, tile_h) ->
  0 <= width -> 0 <= height -> height * width * 4 < 2 ^ 32 ->
  mul32 height pitch <= blen src ->
  height * width * 4 <= blen dst ->
  exists dst',
    convert_tiled_to_linear (Some src) (Some dst) width height pitch tiling
    = Some (0, Some dst')
    /\ length dst' = length dst
    /\ (forall x y k, 0 <= x < width -> 0 <= y < height -> 0 <= k < 4 ->
          dst' !! Z.to_nat (y * width * 4 + x * 4 + k)
          = if bool_decide (add32 (src_offset_of tile_w tile_h pitch x y) k
                            < mul32 height pitch)
            then src !! Z.to_nat (add32 (src_offset_of tile_w tile_h pitch x y) k)
            else dst !! Z.to_nat (y * width * 4 + x * 4 + k))
    /\ (forall j : nat, height * width * 4 <= Z.of_nat j -> dst' !! j = dst !! j).
Proof.
  intros Hd Hw Hh Hno Hsrc Hdst.
  assert (0 <= height * width) by nia.
  assert (mul32 (mul32 height width) 4 = height * width * 4) as Hbound.
  { rewrite (mul32_small height width) by lia. apply mul32_small. lia. }
  destruct (convert_in_bounds tiling tile_w tile_h src dst width height pitch Hd Hsrc)
    as (dst' & Hrun & Hlen & Htail); [by rewrite Hbound |].
  exists dst'. split; [done |]. split; [done |]. split.
  - intros x y k Hx Hy Hk.
    destruct (convert_byte_final tiling tile_w tile_h src dst width height pitch x y k)
      as (dst'' & Hrun' & _ & Hval); try done.
    rewrite Hrun in Hrun'. injection Hrun' as <-. exact Hval.
  - intros j Hj. apply Htail. by rewrite Hbound.
Qed.

Lemma convert_frame_contents_witness :
  exists dst',
    convert_tiled_to_linear (Some short_src) (Some (replicate 8 x00)) 2 1 6
      INTEL_TILING_X
    = Some (0, Some dst')
    /\ dst' !! 5%nat = Some x06 /\ dst' !! 6%nat = Some x00.
Proof.
  destruct (convert_frame_contents INTEL_TILING_X 512 8 short_src
              (replicate 8 x00) 2 1 6) as (dst' & Hrun & _ & Hval & _).
  - reflexivity.
  - lia.
  - lia.
  - reflexivity.
  - vm_compute. intros H. discriminate H.
  - vm_compute. intros H. discriminate H.
  - exists dst'. split; [exact Hrun |]. split.
    + apply (Hval 1 0 1); lia.
    + apply (Hval 1 0 2); lia.
Defined.

(** A frame whose pitch is a whole number of tiles, whose height is a whole
    number of tile rows and whose rows fit in the pitch is detiled
    completely: every pixel of the destination holds its four source bytes,
    whatever the destination held before. *)
Theorem aligned_frame_fully_detiled tiling tile_w tile_h src dst width height pitch :
  tile_dims tiling = Some (tile_w, tile_h) ->
  pitch mod tile_w = 0 -> height mod tile_h = 0 ->
  0 <= width -> width * 4 <= pitch -> 0 <= height ->
  height * pitch < 2 ^ 32 ->
  height * pitch <= blen src ->
  height * width * 4 <= blen dst ->
  exists dst',
    convert_tiled_to_linear (Some src) (Some dst) width height pitch tiling
    = Some (0, Some dst')
    /\ length dst' = length dst
    /\ forall x y, 0 <= x < width -> 0 <= y < height ->
         copied src dst' (spec_src_offset tile_w tile_h pitch x y)
           (spec_dst_offset width x y).
Proof.
  intros Hd Hp Hh Hw Hwp Hhh Hno Hsrc Hdst.
  assert (0 <= height * width) by nia.
  assert (height * width * 4 <= height * pitch) by nia.
  assert (0 <= height * pitch) by nia.
  assert (mul32 (mul32 height width) 4 = height * width * 4) as Hbound.
  { rewrite (mul32_small height width) by lia. apply mul32_small. lia. }
  assert (mul32 height pitch = height * pitch) as Hsb by (apply mul32_small; lia).
  destruct (convert_in_bounds tiling tile_w tile_h src dst width height pitch Hd)
    as (dst' & Hrun & Hlen & _); [by rewrite Hsb | by rewrite Hbound |].
  exists dst'. split; [done |]. split; [done |].
  intros x y Hx Hy.
  destruct (aligned_src_in_bounds tiling tile_w tile_h width height pitch x y)
    as [_ Hin]; try done.
  destruct (convert_pixel_final tiling tile_w tile_h src dst width height pitch x y)
    as (dst'' & Hrun' & _ & Hc); try done; try lia;
    try (rewrite ?Hsb, ?Hbound; lia).
  rewrite Hrun in Hrun'. by injection Hrun' as <-.
Qed.

Lemma aligned_frame_fully_detiled_witness :
  exists dst',
    convert_tiled_to_linear (Some ramp_src) (Some (replicate 40 xff)) 1 8 512
      INTEL_TILING_X
    = Some (0, Some dst')
    /\ copied ramp_src dst' (spec_src_offset 512 8 512 0 7) (spec_dst_offset 1 0 7).
Proof.
  destruct (aligned_frame_fully_detiled INTEL_TILING_X 512 8 ramp_src
              (replicate 40 xff) 1 8 512) as (dst' & Hrun & _ & Hall).
  - reflexivity.
  - reflexivity.
  - reflexivity.
  - lia.
  - lia.
  - lia.
  - reflexivity.
  - vm_compute. intros H. discriminate H.
  - vm_compute. intros H. discriminate H.
  - exists dst'. split; [exact Hrun |]. apply Hall; lia.
Defined.

(** The conversion returns [-EINVAL], leaving the destination as it is,
    exactly when a buffer is missing or the tiling is none; it returns
    nothing else but 0. *)
Theorem convert_rejects_without_writing src dst width height pitch tiling :
  ((src = None \/ dst = None \/ tiling = INTEL_TILING_NONE) <->
   convert_tiled_to_linear src dst width height pitch tiling = Some (- EINVAL, dst))
  /\ (forall ret dst',
        convert_tiled_to_linear src dst width height pitch tiling = Some (ret, dst') ->
        ret = 0 \/ (ret = - EINVAL /\ dst' = dst)).
Proof.
  unfold convert_tiled_to_linear. split; [split |].
  - intros [-> | [-> | ->]]; [by destruct dst | by destruct src |].
    by destruct src, dst.
  - destruct src as [s|]; [| auto]. destruct dst as [d|]; [| auto].
    destruct tiling; simpl; auto;
      destruct (for_loop _ _ _ _); intros [=].
  - intros ret dst'. destruct src as [s|], dst as [d|];
      try (intros [= <- <-]; by right).
    destruct (tile_dims tiling) as [[tw th]|]; [| intros [= <- <-]; by right].
    destruct (for_loop _ _ _ _); intros [=]; auto.
Qed.

Lemma convert_rejects_without_writing_witness :
  convert_tiled_to_linear (Some short_src) (Some (replicate 8 x00)) 2 1 6
    INTEL_TILING_NONE
  = Some (- EINVAL, Some (replicate 8 x00)).
Proof.
  apply (convert_rejects_without_writing (Some short_src) (Some (replicate 8 x00))
           2 1 6 INTEL_TILING_NONE).
  right. right. reflexivity.
Defined.

(** ** Loops, again *)

Lemma for_loop_app {S : Type} (body : Z -> S -> option S) a b i s :
  for_loop (a + b) i body s
  = match for_loop a i body s with
    | Some s' => for_loop b (i + Z.of_nat a) body s'
    | None => None
    end.
Proof.
  revert i s. induction a as [|a IH]; intros i s; simpl.
  - by rewrite Z.add_0_r.
  - destruct (body i s) as [t|]; [| done].
    rewrite IH. destruct (for_loop a (i + 1) body t); [| done].
    f_equal. lia.
Qed.

(** Two bodies that agree on the range of the loop give the same loop. *)
Lemma for_loop_ext {S : Type} (body1 body2 : Z -> S -> option S) n i s :
  (forall j t, i <= j < i + Z.of_nat n -> body1 j t = body2 j t) ->
  for_loop n i body1 s = for_loop n i body2 s.
Proof.
  revert i s. induction n as [|n IH]; intros i s Heq; simpl; [done |].
  rewrite <- Heq by lia. destruct (body1 i s) as [t|]; [| done].
  apply IH. intros j u Hj. apply Heq. lia.
Qed.

(** If the second body follows the first wherever the first succeeds, so do
    the loops. *)
Lemma for_loop_follows {S : Type} (body1 body2 : Z -> S -> option S) n i s s' :
  (forall j t t', i <= j < i + Z.of_nat n ->
                  body1 j t = Some t' -> body2 j t = Some t') ->
  for_loop n i body1 s = Some s' -> for_loop n i body2 s = Some s'.
Proof.
  revert i s. induction n as [|n IH]; intros i s Himp; simpl; [done |].
  destruct (body1 i s) as [t|] eqn:Ht; [| done].
  rewrite (Himp i s t) by (done || lia).
  apply IH. intros j u u' Hj. apply Himp. lia.
Qed.

(** A loop from [j + c] is a loop from [c] of the body shifted by [j]. *)
Lemma for_loop_shift {S : Type} (body : Z -> S -> option S) m j c s :
  for_loop m (j + c) body s = for_loop m c (fun k => body (j + k)) s.
Proof.
  revert c s. induction m as [|m IH]; intros c s; simpl; [done |].
  destruct (body (j + c) s) as [t|]; [| done].
  rewrite <- IH. f_equal. lia.
Qed.

(** A loop of [n * m] iterations is [n] blocks of [m]. *)
Lemma for_loop_blocks {S : Type} (body : Z -> S -> option S) (n m : nat) s :
  for_loop (n * m) 0 body s
  = for_loop n 0
      (fun i => for_loop m 0 (fun k => body (i * Z.of_nat m + k))) s.
Proof.
  assert (forall i0 t,
    for_loop (n * m) (i0 * Z.of_nat m) body t
    = for_loop n i0
        (fun i => for_loop m 0 (fun k => body (i * Z.of_nat m + k))) t) as Hgen.
  { induction n as [|n IH]; intros i0 t; [done |].
    change (Datatypes.S n * m)%nat with (m + n * m)%nat. rewrite for_loop_app.
    cbn [for_loop].
    replace (for_loop m (i0 * Z.of_nat m) body t)
      with (for_loop m 0 (fun k => body (i0 * Z.of_nat m + k)) t)
      by (rewrite <- for_loop_shift; f_equal; lia).
    destruct (for_loop m 0 _ t) as [t'|]; [| done].
    replace (i0 * Z.of_nat m + Z.of_nat m) with ((i0 + 1) * Z.of_nat m) by lia.
    apply IH. }
  apply (Hgen 0).
Qed.

(** ** The standalone tool against the module *)

Lemma add32_add_r a b k : add32 a (b + k) = add32 (add32 a b) k.
Proof. unfold add32, u32. rewrite Zplus_mod_idemp_l. f_equal. lia. Qed.

(** Byte [x * 4 + k] of a row, as the tool addresses it, is byte [k] of
    pixel [x], as the module addresses it. *)
Lemma tool_byte_offsets tiling tile_w tile_h w h pitch x y k :
  tile_dims tiling = Some (tile_w, tile_h) ->
  h * w * 4 < 2 ^ 32 -> 0 <= x < w -> 0 <= y < h -> 0 <= k < 4 ->
  add32 (add32 (mul32 (add32 (mul32 (y / tile_h) (pitch / tile_w))
                         ((x * 4 + k) / tile_w))
                  (mul32 tile_w tile_h))
           (mul32 (tile_offset_y y tile_h) tile_w))
    (tile_offset_x (x * 4 + k) tile_w)
  = add32 (src_offset_of tile_w tile_h pitch x y) k
  /\ add32 (mul32 (mul32 y w) 4) (x * 4 + k) = add32 (dst_offset_of w x y) k.
Proof.
  intros Hd Hno Hx Hy Hk.
  destruct (dst_offset_in_frame w h x y k Hno Hx Hy Hk) as (Hdo & Hidx & _ & Hlt & _).
  assert ((y + 1) * w <= h * w) by nia.
  assert (0 <= y * w) by nia.
  split.
  - unfold src_offset_of. rewrite (mul32_small x 4) by lia.
    destruct (tile_dims_cases _ _ _ Hd) as [[-> ->] | [-> ->]];
      unfold tile_offset_x, tile_offset_y.
    + rewrite !(tile_offset_pow2 _ 512 9), !(tile_offset_pow2 _ 8 3)
        by (lia || reflexivity).
      replace ((x * 4 + k) / 512) with (x * 4 / 512)
        by (Z.div_mod_to_equations; lia).
      replace ((x * 4 + k) mod 512) with ((x * 4) mod 512 + k)
        by (Z.div_mod_to_equations; lia).
      apply add32_add_r.
    + rewrite !(tile_offset_pow2 _ 128 7), !(tile_offset_pow2 _ 32 5)
        by (lia || reflexivity).
      replace ((x * 4 + k) / 128) with (x * 4 / 128)
        by (Z.div_mod_to_equations; lia).
      replace ((x * 4 + k) mod 128) with ((x * 4) mod 128 + k)
        by (Z.div_mod_to_equations; lia).
      apply add32_add_r.
  - rewrite Hidx. unfold spec_dst_offset in *.
    rewrite (mul32_small y w) by lia. rewrite mul32_small by lia.
    rewrite add32_small by lia. lia.
Qed.
Import intel_y_tile_to_linear.

(** Where the source offset passes the guard of the module, the byte copy
    of the tool and the guarded byte copy of the module are the same step. *)
Lemma tool_byte_eq tiling tile_w tile_h src w h pitch x y k d :
  tile_dims tiling = Some (tile_w, tile_h) ->
  h * w * 4 < 2 ^ 32 -> 0 <= x < w -> 0 <= y < h -> 0 <= k < 4 ->
  add32 (src_offset_of tile_w tile_h pitch x y) k < mul32 h pitch ->
  convert_byte src w pitch tile_w tile_h y (x * 4 + k) d
  = copy_byte src w h pitch (src_offset_of tile_w tile_h pitch x y)
      (dst_offset_of w x y) k d.
Proof.
  intros Hd Hno Hx Hy Hk Hg.
  destruct (tool_byte_offsets tiling tile_w tile_h w h pitch x y k) as [Hs Ht];
    try done.
  destruct (dst_offset_in_frame w h x y k Hno Hx Hy Hk)
    as (_ & Hidx & _ & Hlt & Hbound).
  unfold convert_byte, copy_byte, copy_guard. rewrite Hs, Ht.
  rewrite (bool_decide_eq_true_2 _ Hg).
  rewrite bool_decide_eq_true_2 by (rewrite Hidx, Hbound; lia).
  done.
Qed.

Lemma load_Some_lt b i v : load b i = Some v -> 0 <= i < blen b.
Proof.
  unfold load, blen. case_decide; [| done]. intros Hl.
  apply lookup_lt_Some in Hl. lia.
Qed.

Lemma tool_byte_follows tiling tile_w tile_h src w h pitch x y k d d' :
  tile_dims tiling = Some (tile_w, tile_h) ->
  h * w * 4 < 2 ^ 32 -> 0 <= x < w -> 0 <= y < h -> 0 <= k < 4 ->
  blen src <= mul32 h pitch ->
  convert_byte src w pitch tile_w tile_h y (x * 4 + k) d = Some d' ->
  copy_byte src w h pitch (src_offset_of tile_w tile_h pitch x y)
    (dst_offset_of w x y) k d = Some d'.
Proof.
  intros Hd Hno Hx Hy Hk Hsrc Hrun.
  assert (add32 (src_offset_of tile_w tile_h pitch x y) k < mul32 h pitch) as Hg.
  { destruct (tool_byte_offsets tiling tile_w tile_h w h pitch x y k) as [Hs _];
      try done.
    unfold convert_byte in Hrun. rewrite Hs in Hrun.
    destruct (load src _) as [v|] eqn:Hl; [| done].
    apply load_Some_lt in Hl. lia. }
  by rewrite <- (tool_byte_eq tiling).
Qed.

Lemma row_bytes w h y :
  0 <= w -> h * w * 4 < 2 ^ 32 -> 0 <= y < h ->
  Z.to_nat (mul32 w 4) = (Z.to_nat w * 4)%nat.
Proof.
  intros Hw Hno Hy. assert (w <= h * w) by nia.
  rewrite mul32_small by lia. lia.
Qed.

(** The tile geometry [main] passes to [convert] is the module's: that of
    X tiling for the letter ['X'], that of Y and Yf tiling otherwise. *)
Lemma layout_tile_dims tiling :
  tiling <> INTEL_TILING_NONE ->
  tile_dims tiling
  = Some (layout_tile match tiling with INTEL_TILING_X => true | _ => false end).
Proof. by destruct tiling. Qed.

(** Whenever the standalone tool runs without leaving its buffers, the
    module's converter, given the same buffers, returns 0 with the same
    destination. *)
Theorem tool_result_is_module_result tiling tile_w tile_h src dst w h pitch d1 :
  tile_dims tiling = Some (tile_w, tile_h) ->
  0 <= w -> h * w * 4 < 2 ^ 32 ->
  blen src <= mul32 h pitch ->
  convert dst src w h pitch tile_w tile_h = Some d1 ->
  convert_tiled_to_linear (Some src) (Some dst) w h pitch tiling
  = Some (0, Some d1).
Proof.
  intros Hd Hw Hno Hsrc Hrun. unfold convert_tiled_to_linear. rewrite Hd.
  unfold convert in Hrun.
  assert (for_loop (Z.to_nat h) 0 (copy_row src w h pitch tile_w tile_h) dst
          = Some d1) as ->; [| done].
  revert Hrun. apply for_loop_follows.
  intros y t t' Hy Hrow. unfold copy_row.
  rewrite (row_bytes w h y) in Hrow by lia.
  rewrite for_loop_blocks in Hrow.
  revert Hrow. apply for_loop_follows.
  intros x u u' Hx Hpix. unfold copy_pixel.
  revert Hpix. apply for_loop_follows.
  intros k a a' Hk Hbyte. simpl in Hk.
  apply (tool_byte_follows tiling); try done; lia.
Qed.

Lemma tool_result_is_module_result_witness :
  convert_tiled_to_linear (Some ramp_src) (Some (replicate 40 xff)) 1 10 512
    INTEL_TILING_X
  = (fun d => (0, Some d))
      <$> convert (replicate 40 xff) ramp_src 1 10 512 512 8.
Proof.
  destruct (convert (replicate 40 xff) ramp_src 1 10 512 512 8) as [d1|] eqn:Hrun.
  - apply (tool_result_is_module_result INTEL_TILING_X 512 8 ramp_src
             (replicate 40 xff) 1 10 512 d1).
    + reflexivity.
    + lia.
    + reflexivity.
    + vm_compute. intros H. discriminate H.
    + exact Hrun.
  - vm_compute in Hrun. discriminate Hrun.
Defined.

(** On an aligned frame the tool never leaves its buffers and computes
    exactly what the module's converter computes. *)
Theorem tool_agrees_on_aligned_frames tiling tile_w tile_h src dst w h pitch :
  tile_dims tiling = Some (tile_w, tile_h) ->
  pitch mod tile_w = 0 -> h mod tile_h = 0 ->
  0 <= w -> w * 4 <= pitch -> 0 <= h ->
  h * pitch < 2 ^ 32 ->
  h * pitch <= blen src -> h * w * 4 <= blen dst ->
  exists dst',
    convert dst src w h pitch tile_w tile_h = Some dst'
    /\ convert_tiled_to_linear (Some src) (Some dst) w h pitch tiling
       = Some (0, Some dst').
Proof.
  intros Hd Hp Hh Hw Hwp Hhh Hno Hsrc Hdst.
  assert (0 <= h * w) by nia.
  assert (h * w * 4 <= h * pitch) by nia.
  assert (0 <= h * pitch) by nia.
  assert (mul32 (mul32 h w) 4 = h * w * 4) as Hbound.
  { rewrite (mul32_small h w) by lia. apply mul32_small. lia. }
  assert (mul32 h pitch = h * pitch) as Hsb by (apply mul32_small; lia).
  destruct (convert_in_bounds tiling tile_w tile_h src dst w h pitch Hd)
    as (dst' & Hrun & _); [by rewrite Hsb | by rewrite Hbound |].
  exists dst'. split; [| done].
  unfold convert_tiled_to_linear in Hrun. rewrite Hd in Hrun.
  destruct (for_loop (Z.to_nat h) 0 (copy_row src w h pitch tile_w tile_h) dst)
    as [d|] eqn:Hk; [| done].
  injection Hrun as <-. rewrite <- Hk. unfold convert.
  apply for_loop_ext. intros y t Hy. unfold copy_row.
  rewrite (row_bytes w h y) by lia. rewrite for_loop_blocks.
  apply for_loop_ext. intros x u Hx. unfold copy_pixel.
  apply for_loop_ext. intros k a Hk'. simpl in Hk'.
  apply (tool_byte_eq tiling); try done; try lia.
  destruct (aligned_src_in_bounds tiling tile_w tile_h w h pitch x y)
    as [Hpos Hin]; try done; try lia.
  rewrite (src_offset_exact tiling) by (done || lia).
  rewrite add32_small by lia. lia.
Qed.

Lemma tool_agrees_on_aligned_frames_witness :
  exists dst',
    convert (replicate 40 xff) ramp_src 1 8 512 512 8 = Some dst'
    /\ convert_tiled_to_linear (Some ramp_src) (Some (replicate 40 xff)) 1 8 512
         INTEL_TILING_X
       = Some (0, Some dst').
Proof.
  apply (tool_agrees_on_aligned_frames INTEL_TILING_X 512 8 ramp_src
           (replicate 40 xff) 1 8 512);
    try reflexivity; try lia; vm_compute; intros H; discriminate H.
Defined.

(** ** The SHMEM method *)

Lemma find_get_page_lookup (mapping : list (option buffer)) index :
  0 <= index ->
  find_get_page mapping index = mjoin (mapping !! Z.to_nat index).
Proof.
  intros Hi. unfold find_get_page. rewrite decide_True by done.
  by destruct (mapping !! Z.to_nat index).
Qed.

(** The pages present from [index] on, among the next [n] indices. *)
Lemma pages_step (mapping : list (option buffer)) (i n : nat) :
  omap id (take (S n) (drop i mapping))
  = match mjoin (mapping !! i) with
    | Some pg => pg :: omap id (take n (drop (S i) mapping))
    | None => omap id (take n (drop (S i) mapping))
    end.
Proof.
  destruct (mapping !! i) as [o|] eqn:Hl.
  - rewrite (drop_S _ _ _ Hl). simpl. by destruct o.
  - simpl. apply lookup_ge_None in Hl.
    rewrite !drop_ge by lia. by rewrite !take_nil.
Qed.

(** The loop, from any point of its run: [written] is what it has copied so
    far, [tail] the rest of the target. It appends the pages it still finds
    until the target is full. *)
Lemma shmem_copy_from fuel :
  forall (mapping : list (option buffer)) (written tail : buffer) ts index np,
  fuel = Z.to_nat (np - index) -> 0 <= index ->
  0 <= ts < 2 ^ 64 ->
  blen written + blen tail = ts ->
  Forall (fun pg => blen pg = PAGE_SIZE)
    (omap id (take fuel (drop (Z.to_nat index) mapping))) ->
  let rest := concat (omap id (take fuel (drop (Z.to_nat index) mapping))) in
  let n := Z.to_nat (Z.min (blen tail) (blen rest)) in
  shmem_copy fuel mapping (Some (written ++ tail)) ts (blen written) index np
  = Some (Some (written ++ take n rest ++ drop n tail),
          blen written + Z.of_nat n).
Proof.
  unfold blen, PAGE_SIZE.
  induction fuel as [|fuel IH];
    intros mapping written tail ts index np Hfuel Hidx Hts Hlen Hpages;
    cbn [shmem_copy].
  - simpl.
    repeat match goal with
           | |- context [Z.to_nat ?e] => replace (Z.to_nat e) with 0%nat by lia
           end.
    simpl. do 2 f_equal. lia.
  - assert (index < np) as Hlt by lia.
    rewrite (bool_decide_eq_true_2 (index < np)) by done. rewrite andb_true_r.
    destruct (decide (Z.of_nat (length written) < ts)) as [Hroom | Hfull].
    + rewrite bool_decide_eq_true_2 by done.
      rewrite find_get_page_lookup by done.
      rewrite pages_step in Hpages |- *.
      replace (S (Z.to_nat index)) with (Z.to_nat (index + 1)) in * by lia.
      destruct (mjoin (mapping !! Z.to_nat index)) as [pg|].
      * apply Forall_cons in Hpages as [Hpg Hpages]. unfold PAGE_SIZE.
        assert (u64 (ts - Z.of_nat (length written))
                = ts - Z.of_nat (length written)) as ->.
        { unfold u64. apply Z.mod_small. lia. }
        remember (Z.min 4096 (ts - Z.of_nat (length written))) as c eqn:Hc.
        assert (memcpy_to (Some (written ++ tail)) (Z.of_nat (length written)) pg c
                = Some ((written ++ take (Z.to_nat c) pg) ++ drop (Z.to_nat c) tail))
          as ->.
        { simpl. unfold memcpy, blen. rewrite decide_True.
          - f_equal. rewrite Nat2Z.id.
            rewrite take_app_length. rewrite <- app_assoc. do 2 f_equal.
            rewrite Z2Nat.inj_add by lia. rewrite Nat2Z.id.
            by rewrite drop_app_add.
          - rewrite length_app. lia. }
        assert (u64 (Z.of_nat (length written) + c)
                = Z.of_nat (length (written ++ take (Z.to_nat c) pg))) as ->.
        { unfold u64. rewrite Z.mod_small by lia.
          rewrite length_app, length_take. lia. }
        rewrite (IH mapping (written ++ take (Z.to_nat c) pg) (drop (Z.to_nat c) tail)
                   ts (index + 1) np); try done; try lia.
        -- simpl concat.
           set (R := concat (omap id (take fuel (drop (Z.to_nat (index + 1)) mapping)))).
           rewrite !length_app, !length_take, !length_drop.
           destruct (decide (4096 <= ts - Z.of_nat (length written))) as [Hbig | Hsmall].
           ++ assert (Z.to_nat c = length pg) as Hcl by lia.
              rewrite Hcl, take_ge by lia.
              replace (Z.to_nat (Z.min (Z.of_nat (length tail))
                         (Z.of_nat (length pg + length R))))
                with (length pg + Z.to_nat (Z.min (Z.of_nat (length tail - length pg))
                                              (Z.of_nat (length R))))%nat by lia.
              rewrite take_app_add, drop_drop, <- !app_assoc.
              do 2 f_equal; try done; lia.
           ++ assert (Z.to_nat c = length tail) as Hcl by lia.
              rewrite Hcl, drop_all. simpl length.
              replace (Z.to_nat (Z.min (Z.of_nat (length tail - length tail))
                         (Z.of_nat (length R)))) with 0%nat by lia.
              replace (Z.to_nat (Z.min (Z.of_nat (length tail))
                         (Z.of_nat (length pg + length R)))) with (length tail) by lia.
              rewrite take_0, drop_all, !app_nil_r, <- ?app_assoc.
              rewrite (take_app_le pg R) by lia.
              do 2 f_equal; try done; lia.
        -- rewrite length_app, length_take, length_drop. lia.
      * rewrite (IH mapping written tail ts (index + 1) np); try done; lia.
    + rewrite bool_decide_eq_false_2 by done.
      assert (tail = []) as ->.
      { apply length_zero_iff_nil. lia. }
      simpl length.
      repeat match goal with
             | |- context [Z.to_nat (Z.min (Z.of_nat 0) ?e)] =>
                 replace (Z.to_nat (Z.min (Z.of_nat 0) e)) with 0%nat by lia
             end.
      rewrite take_0, drop_nil. simpl. do 2 f_equal. lia.
Qed.

(** The SHMEM loop fills the target with the pages it finds below
    [num_pages], one after the other, until the target is full or the pages
    run out; a page that is absent leaves no gap. [copied] is the number of
    bytes so obtained and the rest of the target is untouched. *)
Theorem shmem_copy_concatenates (mapping : list (option buffer)) (tb : buffer) ts np :
  0 <= np -> 0 <= ts < 2 ^ 64 -> blen tb = ts ->
  Forall (fun pg => blen pg = PAGE_SIZE) (present_pages mapping np) ->
  shmem_copy (Z.to_nat np) mapping (Some tb) ts 0 0 np
  = Some (Some (take (Z.to_nat (Z.min ts (blen (concat (present_pages mapping np)))))
                  (concat (present_pages mapping np))
                ++ drop (Z.to_nat (Z.min ts (blen (concat (present_pages mapping np)))))
                     tb),
          Z.min ts (blen (concat (present_pages mapping np)))).
Proof.
  intros Hnp Hts Hlen Hpages. unfold present_pages in *.
  pose proof (shmem_copy_from (Z.to_nat np) mapping [] tb ts 0 np) as H.
  change (blen []) with 0 in H. change (Z.to_nat 0) with 0%nat in H.
  rewrite drop_0, Z.sub_0_r, !app_nil_l, Z.add_0_l in H.
  cbv zeta in H. rewrite Hlen in H.
  rewrite H; try done; try lia.
  do 2 f_equal. unfold blen. lia.
Qed.

Lemma shmem_copy_concatenates_witness :
  shmem_copy (Z.to_nat 3)
    [Some (replicate (Z.to_nat 4096) x01); None; Some (replicate (Z.to_nat 4096) x02)]
    (Some (replicate (Z.to_nat 5000) x00)) 5000 0 0 3
  = Some (Some (replicate (Z.to_nat 4096) x01 ++ replicate (Z.to_nat 904) x02), 5000).
Proof.
  rewrite (shmem_copy_concatenates
             [Some (replicate (Z.to_nat 4096) x01); None;
              Some (replicate (Z.to_nat 4096) x02)]
             (replicate (Z.to_nat 5000) x00) 5000 3).
  - vm_compute. reflexivity.
  - lia.
  - lia.
  - vm_compute. reflexivity.
  - vm_compute. repeat constructor.
Defined.

(** ** What a capture stores *)

Lemma memcpy_prefix (dst src : buffer) n :
  0 <= n -> n <= blen dst -> n <= blen src ->
  memcpy dst 0 src n = Some (take (Z.to_nat n) src ++ drop (Z.to_nat n) dst).
Proof.
  intros Hn Hd Hs. unfold memcpy. rewrite decide_True by lia.
  by rewrite Z.add_0_l.
Qed.

(** The DMA-buf method on a linear capture. *)
Lemma extract_linear_dma gem c ra d vaddr buf :
  detected_tiling c = INTEL_TILING_NONE ->
  gem_mapping gem = None -> gem_dma_buf gem = Some d ->
  vmap_vaddr d = Some vaddr -> vmap_ret d = 0 ->
  pixel_buffer c = Some buf ->
  0 <= Z.min (dma_size d) (buffer_size c) ->
  Z.min (dma_size d) (buffer_size c) <= blen buf ->
  Z.min (dma_size d) (buffer_size c) <= blen vaddr ->
  extract_gem_pixels (Some gem) c ra
  = Some (0, set_pixel_buffer c
               (Some (take (Z.to_nat (Z.min (dma_size d) (buffer_size c))) vaddr
                      ++ drop (Z.to_nat (Z.min (dma_size d) (buffer_size c))) buf))).
Proof.
  intros Ht Hm Hd Hv Hr Hb Hn Hnb Hnv.
  unfold extract_gem_pixels, extract_dma_buf, finish_extract.
  rewrite Ht, Hm, Hd, Hv, Hb. simpl. rewrite decide_True by done.
  by rewrite memcpy_prefix.
Qed.

(** The DMA-buf method on a tiled capture: the raw buffer is filled, then
    detiled into the pixel buffer. *)
Lemma extract_tiled_dma gem c fill d vaddr :
  detected_tiling c <> INTEL_TILING_NONE ->
  gem_mapping gem = None -> gem_dma_buf gem = Some d ->
  vmap_vaddr d = Some vaddr -> vmap_ret d = 0 ->
  0 <= Z.min (dma_size d) (mul32 (height c) (pitch c)) <= blen vaddr ->
  let size := mul32 (height c) (pitch c) in
  let n := Z.to_nat (Z.min (dma_size d) size) in
  let raw := take n vaddr ++ drop n (fill <$> seq 0 (Z.to_nat size)) in
  extract_gem_pixels (Some gem) c (Some fill)
  = match convert_tiled_to_linear (Some raw) (pixel_buffer c)
            (width c) (height c) (pitch c) (detected_tiling c) with
    | Some (ret, dst') =>
        if decide (ret = 0)
        then Some (ret, set_is_detiled (set_pixel_buffer c dst') true)
        else Some (ret, set_pixel_buffer c dst')
    | None => None
    end.
Proof.
  intros Ht Hm Hd Hv Hr Hn.
  pose proof (mul32_range (height c) (pitch c)).
  unfold extract_gem_pixels, extract_dma_buf, finish_extract.
  rewrite Hm, Hd, Hv.
  destruct (detected_tiling c) eqn:Hdt; [done | | |]; simpl;
    rewrite decide_True by done;
    (rewrite memcpy_prefix;
     [done | lia | unfold blen; rewrite length_fmap, length_seq; lia | lia]).
Qed.

(** The number of pages the SHMEM method visits. *)
Lemma num_pages_nonneg size :
  0 <= Z.shiftr (u64 (size + PAGE_SIZE - 1)) PAGE_SHIFT.
Proof.
  apply Z.shiftr_nonneg. unfold u64. apply Z.mod_pos_bound. lia.
Qed.

(** The SHMEM method on a linear capture. *)
Lemma extract_linear_shmem gem c ra (mapping : list (option buffer)) (buf : buffer) :
  detected_tiling c = INTEL_TILING_NONE ->
  gem_mapping gem = Some mapping ->
  pixel_buffer c = Some buf -> blen buf = buffer_size c ->
  buffer_size c < 2 ^ 64 ->
  let np := Z.shiftr (u64 (gem_size gem + PAGE_SIZE - 1)) PAGE_SHIFT in
  let data := concat (present_pages mapping np) in
  Forall (fun pg => blen pg = PAGE_SIZE) (present_pages mapping np) ->
  0 < Z.min (buffer_size c) (blen data) ->
  extract_gem_pixels (Some gem) c ra
  = Some (0, set_pixel_buffer c
               (Some (take (Z.to_nat (Z.min (buffer_size c) (blen data))) data
                      ++ drop (Z.to_nat (Z.min (buffer_size c) (blen data))) buf))).
Proof.
  intros Ht Hm Hb Hlen Hsize np data Hpages Hpos.
  pose proof (num_pages_nonneg (gem_size gem)) as Hnp. fold np in Hnp.
  unfold extract_gem_pixels. rewrite Ht, Hm, Hb. simpl. fold np.
  pose proof (shmem_copy_from (Z.to_nat np) mapping [] buf (buffer_size c) 0 np) as H.
  change (blen []) with 0 in H. change (Z.to_nat 0) with 0%nat in H.
  rewrite drop_0, Z.sub_0_r, !app_nil_l, Z.add_0_l in H.
  cbv zeta in H. rewrite Hlen in H. unfold present_pages in *.
  rewrite H; try done; [| unfold blen in *; lia].
  fold data in Hpos |- *.
  rewrite decide_True by (unfold blen in *; lia).
  unfold finish_extract. do 4 f_equal; unfold blen; lia.
Qed.

(** A linear framebuffer read through the SHMEM method: the capture
    returns 0 and commits a valid frame with pixel data whose buffer starts
    with the present pages of the GEM object, one after the other,
    truncated to [buffer_size]; if the pages hold fewer bytes, the rest of
    the buffer is what the allocation contained. *)
Theorem capture_linear_shmem st f gem device env (mapping : list (option buffer)) fill :
  store_inv st -> fb_obj0 f = Some gem ->
  detect_intel_tiling (Some f) = INTEL_TILING_NONE ->
  gem_mapping gem = Some mapping ->
  pixel_alloc env = Some fill ->
  let np := Z.shiftr (u64 (gem_size gem + PAGE_SIZE - 1)) PAGE_SHIFT in
  let data := concat (present_pages mapping np) in
  let size := buffer_size (new_capture f device env) in
  Forall (fun pg => blen pg = PAGE_SIZE) (present_pages mapping np) ->
  0 < size -> 0 < blen data ->
  exists c,
    observe_capture (Some f) device env st
    = Some {| out_ret := 0; out_slot := c;
              out_count := Z.min (capture_count st + 1) MAX_FB_CAPTURE;
              out_index := (current_index st + 1) mod MAX_FB_CAPTURE |}
    /\ valid c = true /\ has_pixels c = true /\ is_detiled c = false
    /\ pixel_buffer c
       = Some (take (Z.to_nat (Z.min size (blen data))) data
               ++ drop (Z.to_nat (Z.min size (blen data)))
                    (fill <$> seq 0 (Z.to_nat size))).
Proof.
  intros Hinv Hobj Ht Hm Hfill np data size Hpages Hsize Hdata.
  pose proof (new_capture_size f device env) as Hbs. fold size in Hbs.
  unfold MAX_CAPTURE_SIZE in Hbs.
  set (buf := fill <$> seq 0 (Z.to_nat size)).
  assert (vmalloc (pixel_alloc env) size = Some buf) as Hal by (by rewrite Hfill).
  assert (blen buf = size) as Hbl.
  { unfold buf, blen. rewrite length_fmap, length_seq. lia. }
  eexists. split.
  - eapply (observe_commits st f gem device env buf); try done.
    apply (extract_linear_shmem gem _ (raw_alloc env) mapping buf); try done.
    + unfold set_pixel_buffer. cbn [buffer_size]. fold size. lia.
    + unfold set_pixel_buffer. cbn [buffer_size]. fold size np data. lia.
  - rewrite decide_True by done.
    unfold set_flags, set_pixel_buffer.
    cbn [valid has_pixels is_detiled pixel_buffer buffer_size].
    fold size np data. done.
Qed.

Lemma capture_linear_shmem_witness :
  exists c,
    observe_capture
      (Some (sample_fb 9 2 1 8 0
               {| gem_size := 4096;
                  gem_mapping := Some [Some (replicate (Z.to_nat 4096) x07)];
                  gem_dma_buf := None |}))
      7 (env_ok 3) init_state
    = Some {| out_ret := 0; out_slot := c; out_count := 1; out_index := 1 |}
    /\ has_pixels c = true
    /\ pixel_buffer c = Some (replicate 8 x07).
Proof.
  destruct (capture_linear_shmem init_state
              (sample_fb 9 2 1 8 0
                 {| gem_size := 4096;
                    gem_mapping := Some [Some (replicate (Z.to_nat 4096) x07)];
                    gem_dma_buf := None |})
              {| gem_size := 4096;
                 gem_mapping := Some [Some (replicate (Z.to_nat 4096) x07)];
                 gem_dma_buf := None |}
              7 (env_ok 3) [Some (replicate (Z.to_nat 4096) x07)] (fun _ => x00))
    as (c & Hobs & _ & Hp & _ & Hbuf).
  - apply (bool_decide_unpack _). vm_compute. exact I.
  - reflexivity.
  - reflexivity.
  - reflexivity.
  - reflexivity.
  - vm_compute. repeat constructor.
  - reflexivity.
  - reflexivity.
  - exists c. split; [exact Hobs |]. split; [exact Hp |].
    rewrite Hbuf. vm_compute. reflexivity.
Defined.

(** A linear framebuffer read through the DMA-buf method: the capture
    returns 0 and commits a valid frame marked as holding pixel data,
    whose buffer starts with the first [min dma_size buffer_size] mapped
    bytes, even when that is fewer than [buffer_size] or none at all; the
    rest of the buffer is what the allocation contained. *)
Theorem capture_linear_dma_buf st f gem device env d (vaddr : buffer) fill :
  store_inv st -> fb_obj0 f = Some gem ->
  detect_intel_tiling (Some f) = INTEL_TILING_NONE ->
  gem_mapping gem = None -> gem_dma_buf gem = Some d ->
  vmap_vaddr d = Some vaddr -> vmap_ret d = 0 ->
  pixel_alloc env = Some fill ->
  let size := buffer_size (new_capture f device env) in
  0 <= dma_size d -> Z.min (dma_size d) size <= blen vaddr ->
  exists c,
    observe_capture (Some f) device env st
    = Some {| out_ret := 0; out_slot := c;
              out_count := Z.min (capture_count st + 1) MAX_FB_CAPTURE;
              out_index := (current_index st + 1) mod MAX_FB_CAPTURE |}
    /\ valid c = true /\ has_pixels c = true /\ is_detiled c = false
    /\ pixel_buffer c
       = Some (take (Z.to_nat (Z.min (dma_size d) size)) vaddr
               ++ drop (Z.to_nat (Z.min (dma_size d) size))
                    (fill <$> seq 0 (Z.to_nat size))).
Proof.
  intros Hinv Hobj Ht Hm Hd Hv Hr Hfill size Hds Hn.
  pose proof (new_capture_size f device env) as Hbs. fold size in Hbs.
  set (buf := fill <$> seq 0 (Z.to_nat size)).
  assert (vmalloc (pixel_alloc env) size = Some buf) as Hal by (by rewrite Hfill).
  assert (blen buf = size) as Hbl.
  { unfold buf, blen. rewrite length_fmap, length_seq. lia. }
  eexists. split.
  - eapply (observe_commits st f gem device env buf); try done.
    apply (extract_linear_dma gem _ (raw_alloc env) d vaddr buf); try done;
      unfold set_pixel_buffer; cbn [buffer_size]; fold size; lia.
  - rewrite decide_True by done.
    unfold set_flags, set_pixel_buffer.
    cbn [valid has_pixels is_detiled pixel_buffer buffer_size].
    fold size. done.
Qed.

Lemma capture_linear_dma_buf_witness :
  exists c,
    observe_capture (Some (sample_fb 9 2 1 8 0 (dma_gem [x01; x02; x03])))
      7 (env_ok 3) init_state
    = Some {| out_ret := 0; out_slot := c; out_count := 1; out_index := 1 |}
    /\ has_pixels c = true
    /\ pixel_buffer c = Some [x01; x02; x03; x00; x00; x00; x00; x00].
Proof.
  destruct (capture_linear_dma_buf init_state
              (sample_fb 9 2 1 8 0 (dma_gem [x01; x02; x03]))
              (dma_gem [x01; x02; x03]) 7 (env_ok 3)
              {| dma_size := 3; vmap_ret := 0; vmap_vaddr := Some [x01; x02; x03];
                 vmap_is_iomem := false |}
              [x01; x02; x03] (fun _ => x00))
    as (c & Hobs & _ & Hp & _ & Hbuf).
  - apply (bool_decide_unpack _). vm_compute. exact I.
  - reflexivity.
  - reflexivity.
  - reflexivity.
  - reflexivity.
  - reflexivity.
  - reflexivity.
  - reflexivity.
  - simpl. lia.
  - vm_compute. intros H. discriminate H.
  - exists c. split; [exact Hobs |]. split; [exact Hp |].
    rewrite Hbuf. vm_compute. reflexivity.
Defined.

(** [copied] only looks at the source below the bytes it names. *)
Lemma copied_take (src d : buffer) n so do :
  0 <= so -> so + 3 < Z.of_nat n ->
  copied (take n src) d so do -> copied src d so do.
Proof.
  intros Hso Hn Hc k Hk. destruct (Hc k Hk) as (v & Hv & Hd).
  exists v. split; [| done].
  rewrite lookup_take_lt in Hv by lia. done.
Qed.

(** An aligned tiled framebuffer that fits in [MAX_CAPTURE_SIZE], read
    through the DMA-buf method: the capture returns 0 and commits a valid,
    detiled frame with pixel data in which every pixel holds the four bytes
    the tiling puts at its source offset in the mapped buffer. *)
Theorem capture_tiled_dma_buf st f gem device env d (vaddr : buffer)
    tile_w tile_h fill rfill :
  store_inv st -> fb_obj0 f = Some gem ->
  tile_dims (detect_intel_tiling (Some f)) = Some (tile_w, tile_h) ->
  fb_pitches0 f mod tile_w = 0 -> fb_height f mod tile_h = 0 ->
  0 <= fb_width f -> fb_width f * 4 <= fb_pitches0 f -> 0 <= fb_height f ->
  fb_height f * fb_pitches0 f < 2 ^ 32 ->
  fb_height f * fb_width f * 4 <= MAX_CAPTURE_SIZE ->
  gem_mapping gem = None -> gem_dma_buf gem = Some d ->
  vmap_vaddr d = Some vaddr -> vmap_ret d = 0 ->
  fb_height f * fb_pitches0 f <= dma_size d ->
  fb_height f * fb_pitches0 f <= blen vaddr ->
  pixel_alloc env = Some fill -> raw_alloc env = Some rfill ->
  exists c buf,
    observe_capture (Some f) device env st
    = Some {| out_ret := 0; out_slot := c;
              out_count := Z.min (capture_count st + 1) MAX_FB_CAPTURE;
              out_index := (current_index st + 1) mod MAX_FB_CAPTURE |}
    /\ valid c = true /\ has_pixels c = true /\ is_detiled c = true
    /\ pixel_buffer c = Some buf
    /\ blen buf = fb_height f * fb_width f * 4
    /\ forall x y, 0 <= x < fb_width f -> 0 <= y < fb_height f ->
         copied vaddr buf (spec_src_offset tile_w tile_h (fb_pitches0 f) x y)
           (spec_dst_offset (fb_width f) x y).
Proof.
  intros Hinv Hobj Hd Hp Hh Hw Hwp Hhh Hno Hmax Hm Hdma Hv Hr Hds Hvl Hfill Hrfill.
  set (w := fb_width f) in *. set (h := fb_height f) in *.
  set (p := fb_pitches0 f) in *.
  assert (0 <= h * w) by nia.
  assert (h * w * 4 <= h * p) by nia.
  assert (0 <= h * p) by nia.
  assert (mul32 (mul32 h w) 4 = h * w * 4) as Hbound.
  { rewrite (mul32_small h w) by lia. apply mul32_small. lia. }
  assert (mul32 h p = h * p) as Hsb by (apply mul32_small; lia).
  assert (buffer_size (new_capture f device env) = h * w * 4) as Hsize.
  { simpl. fold h w. rewrite Hbound. by rewrite decide_False by lia. }
  set (buf0 := fill <$> seq 0 (Z.to_nat (h * w * 4))).
  assert (vmalloc (pixel_alloc env) (buffer_size (new_capture f device env))
          = Some buf0) as Hal by (by rewrite Hfill, Hsize).
  assert (blen buf0 = h * w * 4) as Hbl.
  { unfold buf0, blen. rewrite length_fmap, length_seq. lia. }
  set (raw := take (Z.to_nat (h * p)) vaddr).
  assert (blen raw = h * p) as Hrl.
  { unfold raw, blen in *. rewrite length_take. lia. }
  destruct (convert_in_bounds (detect_intel_tiling (Some f)) tile_w tile_h raw buf0
              w h p Hd) as (buf & Hconv & Hlen & _);
    [rewrite Hsb; lia | rewrite Hbound; lia |].
  assert (extract_gem_pixels (Some gem)
            (set_pixel_buffer (new_capture f device env) (Some buf0)) (raw_alloc env)
          = Some (0, set_is_detiled
                       (set_pixel_buffer
                          (set_pixel_buffer (new_capture f device env) (Some buf0))
                          (Some buf)) true)) as Hex.
  { rewrite Hrfill.
    rewrite (extract_tiled_dma gem _ rfill d vaddr); try done.
    - cbn [set_pixel_buffer height pitch width detected_tiling pixel_buffer
           new_capture]. fold h p w. rewrite Hsb.
      replace (Z.min (dma_size d) (h * p)) with (h * p) by lia.
      rewrite drop_ge, app_nil_r by (rewrite length_fmap, length_seq; lia).
      fold raw. rewrite Hconv. by rewrite decide_True by done.
    - cbn [set_pixel_buffer detected_tiling new_capture].
      by destruct (detect_intel_tiling (Some f)).
    - cbn [set_pixel_buffer height pitch new_capture]. fold h p.
      rewrite Hsb. lia. }
  eexists _, buf. split; [by eapply observe_commits |].
  rewrite decide_True by done.
  split; [done |]. split; [done |]. split; [done |]. split; [done |].
  split; [unfold blen in *; lia |].
  intros x y Hx Hy.
  destruct (aligned_src_in_bounds (detect_intel_tiling (Some f)) tile_w tile_h
              w h p x y) as [Hpos Hin]; try done.
  destruct (convert_pixel_final (detect_intel_tiling (Some f)) tile_w tile_h raw buf0
              w h p x y) as (buf' & Hconv' & _ & Hc); try done; try lia;
    try (rewrite ?Hsb, ?Hbound; lia).
  rewrite Hconv in Hconv'. injection Hconv' as <-.
  apply (copied_take vaddr buf (Z.to_nat (h * p))); [done | lia | done].
Qed.

Lemma capture_tiled_dma_buf_witness :
  exists c buf,
    observe_capture
      (Some (sample_fb 9 1 8 512 I915_FORMAT_MOD_X_TILED (dma_gem ramp_src)))
      7 (env_ok 3) init_state
    = Some {| out_ret := 0; out_slot := c; out_count := 1; out_index := 1 |}
    /\ is_detiled c = true /\ pixel_buffer c = Some buf
    /\ copied ramp_src buf (spec_src_offset 512 8 512 0 7) (spec_dst_offset 1 0 7).
Proof.
  destruct (capture_tiled_dma_buf init_state
              (sample_fb 9 1 8 512 I915_FORMAT_MOD_X_TILED (dma_gem ramp_src))
              (dma_gem ramp_src) 7 (env_ok 3)
              {| dma_size := blen ramp_src; vmap_ret := 0;
                 vmap_vaddr := Some ramp_src; vmap_is_iomem := false |}
              ramp_src 512 8 (fun _ => x00) (fun _ => x00))
    as (c & buf & Hobs & _ & _ & Hdet & Hbuf & _ & Hall).
  - apply (bool_decide_unpack _). vm_compute. exact I.
  - reflexivity.
  - reflexivity.
  - reflexivity.
  - reflexivity.
  - simpl. lia.
  - simpl. lia.
  - simpl. lia.
  - reflexivity.
  - vm_compute. intros H. discriminate H.
  - reflexivity.
  - reflexivity.
  - reflexivity.
  - reflexivity.
  - vm_compute. intros H. discriminate H.
  - vm_compute. intros H. discriminate H.
  - reflexivity.
  - reflexivity.
  - exists c, buf. split; [exact Hobs |]. split; [exact Hdet |].
    split; [exact Hbuf |]. apply Hall; simpl; lia.
Defined.

(** ** A destination smaller than the frame *)

(** A loop fails if one of its iterations fails on every state the earlier
    ones can leave. *)
Lemma for_loop_fails {S : Type} (P : S -> Prop) (body : Z -> S -> option S) n :
  forall start s i,
    start <= i < start + Z.of_nat n ->
    (forall j t t', start <= j < i -> P t -> body j t = Some t' -> P t') ->
    (forall t, P t -> body i t = None) ->
    P s -> for_loop n start body s = None.
Proof.
  induction n as [|n IH]; intros start s i Hi Hpres Hfail Hs; [lia |].
  simpl. destruct (decide (i = start)) as [-> | Hne].
  - by rewrite Hfail.
  - destruct (body start s) as [t|] eqn:Ht; [| done].
    apply (IH (start + 1) t i); [lia | | done |].
    + intros j u u' Hj. apply Hpres. lia.
    + apply (Hpres start s t); [lia | done | done].
Qed.

Lemma copy_pixel_length src w h p tw th y x d d' :
  copy_pixel src w h p tw th y x d = Some d' -> length d' = length d.
Proof.
  unfold copy_pixel.
  apply (for_loop_partial (fun t => length t = length d)); [| done].
  intros k t t' Ht Hc. apply copy_byte_length in Hc. congruence.
Qed.

Lemma copy_row_length src w h p tw th y d d' :
  copy_row src w h p tw th y d = Some d' -> length d' = length d.
Proof.
  unfold copy_row.
  apply (for_loop_partial (fun t => length t = length d)); [| done].
  intros x t t' Ht Hc. apply copy_pixel_length in Hc. congruence.
Qed.

(** The conversion writes outside a destination that is shorter than the
    frame as soon as a pixel beyond its end has its source in bounds. *)
Lemma convert_overruns tiling tile_w tile_h (src dst : buffer) w h p x y :
  tile_dims tiling = Some (tile_w, tile_h) ->
  h * w * 4 < 2 ^ 32 -> 0 <= x < w -> 0 <= y < h ->
  mul32 h p <= blen src ->
  add32 (src_offset_of tile_w tile_h p x y) 0 < mul32 h p ->
  blen dst <= spec_dst_offset w x y ->
  convert_tiled_to_linear (Some src) (Some dst) w h p tiling = None.
Proof.
  intros Hd Hno Hx Hy Hsrc Hg Hshort.
  destruct (dst_offset_in_frame w h x y 0 Hno Hx Hy ltac:(lia))
    as (_ & Hidx & _ & Hlt & Hbound).
  unfold convert_tiled_to_linear. rewrite Hd.
  rewrite (for_loop_fails (fun t => length t = length dst) _ _ 0 dst y);
    [done | lia | | | done].
  - intros j t t' _ Ht Hrow. apply copy_row_length in Hrow. congruence.
  - intros t Ht. unfold copy_row.
    apply (for_loop_fails (fun u => length u = length dst) _ _ 0 t x);
      [lia | | | done].
    + intros j u u' _ Hu Hpix. apply copy_pixel_length in Hpix. congruence.
    + intros u Hu. unfold copy_pixel. simpl. unfold copy_byte, copy_guard.
      rewrite (bool_decide_eq_true_2 _ Hg).
      rewrite bool_decide_eq_true_2 by (rewrite Hidx, Hbound; lia).
      simpl.
      pose proof (add32_range (src_offset_of tile_w tile_h p x y) 0).
      destruct (load_in_range src (add32 (src_offset_of tile_w tile_h p x y) 0))
        as (v & -> & _); [lia |].
      unfold store. rewrite Hidx.
      rewrite decide_False; [done |]. unfold blen in *. lia.
Qed.

(** An aligned tiled framebuffer larger than [MAX_CAPTURE_SIZE], read
    through the DMA-buf method: the pixel buffer is allocated with
    [MAX_CAPTURE_SIZE] bytes but the converter tests its writes against
    [height * width * 4], so the capture writes past the end of the pixel
    buffer. *)
Theorem oversized_tiled_capture_overruns st f gem device env d (vaddr : buffer)
    tile_w tile_h fill rfill :
  store_inv st -> fb_obj0 f = Some gem ->
  tile_dims (detect_intel_tiling (Some f)) = Some (tile_w, tile_h) ->
  fb_pitches0 f mod tile_w = 0 -> fb_height f mod tile_h = 0 ->
  0 <= fb_width f -> fb_width f * 4 <= fb_pitches0 f -> 0 <= fb_height f ->
  fb_height f * fb_pitches0 f < 2 ^ 32 ->
  MAX_CAPTURE_SIZE < fb_height f * fb_width f * 4 ->
  gem_mapping gem = None -> gem_dma_buf gem = Some d ->
  vmap_vaddr d = Some vaddr -> vmap_ret d = 0 ->
  fb_height f * fb_pitches0 f <= dma_size d ->
  fb_height f * fb_pitches0 f <= blen vaddr ->
  pixel_alloc env = Some fill -> raw_alloc env = Some rfill ->
  buffer_size (new_capture f device env) = MAX_CAPTURE_SIZE
  /\ capture_fb_pixels (Some f) device env st = None.
Proof.
  intros Hinv Hobj Hd Hp Hh Hw Hwp Hhh Hno Hmax Hm Hdma Hv Hr Hds Hvl Hfill Hrfill.
  set (w := fb_width f) in *. set (h := fb_height f) in *.
  set (p := fb_pitches0 f) in *.
  unfold MAX_CAPTURE_SIZE in Hmax.
  assert (0 < h /\ 0 < w) as [Hh0 Hw0] by nia.
  assert (0 <= h * w) by nia.
  assert (h * w * 4 <= h * p) by nia.
  assert (0 <= h * p) by nia.
  assert (mul32 (mul32 h w) 4 = h * w * 4) as Hbound.
  { rewrite (mul32_small h w) by lia. apply mul32_small. lia. }
  assert (mul32 h p = h * p) as Hsb by (apply mul32_small; lia).
  assert (buffer_size (new_capture f device env) = MAX_CAPTURE_SIZE) as Hsize.
  { simpl. fold h w. rewrite Hbound.
    rewrite decide_True; [done |]. unfold MAX_CAPTURE_SIZE. lia. }
  split; [done |].
  unfold capture_fb_pixels. rewrite Hobj.
  destruct (slot_get_in_range st Hinv) as [old ->].
  rewrite Hfill, Hrfill. cbn [vmalloc]. rewrite Hsize.
  set (buf0 := fill <$> seq 0 (Z.to_nat MAX_CAPTURE_SIZE)).
  rewrite (extract_tiled_dma gem _ rfill d vaddr); try done.
  - cbn [set_pixel_buffer height pitch width detected_tiling pixel_buffer
         new_capture]. fold h p w. rewrite Hsb.
    replace (Z.min (dma_size d) (h * p)) with (h * p) by lia.
    rewrite drop_ge, app_nil_r by (rewrite length_fmap, length_seq; lia).
    destruct (aligned_src_in_bounds (detect_intel_tiling (Some f)) tile_w tile_h
                w h p (w - 1) (h - 1)) as [Hpos Hin]; try done; try lia.
    rewrite (convert_overruns (detect_intel_tiling (Some f)) tile_w tile_h
               _ buf0 w h p (w - 1) (h - 1)); try done; try lia.
    + rewrite Hsb. unfold blen. rewrite length_take. unfold blen in Hvl. lia.
    + rewrite (src_offset_exact (detect_intel_tiling (Some f))) by (done || lia).
      rewrite add32_small by lia. lia.
    + unfold buf0, blen, spec_dst_offset, MAX_CAPTURE_SIZE.
      rewrite length_fmap, length_seq. lia.
  - cbn [set_pixel_buffer detected_tiling new_capture].
    by destruct (detect_intel_tiling (Some f)).
  - cbn [set_pixel_buffer height pitch new_capture]. fold h p.
    rewrite Hsb. lia.
Qed.

Lemma oversized_tiled_capture_overruns_witness :
  capture_fb_pixels (Some uhd_fb) 7 (env_ok 3) init_state = None.
Proof.
  apply (oversized_tiled_capture_overruns init_state uhd_fb uhd_gem 7 (env_ok 3)
           uhd_dma_buf uhd_bytes 512 8 (fun _ => x00) (fun _ => x00)).
  - apply (bool_decide_unpack _). vm_compute. exact I.
  - reflexivity.
  - reflexivity.
  - reflexivity.
  - reflexivity.
  - simpl. lia.
  - simpl. lia.
  - simpl. lia.
  - reflexivity.
  - reflexivity.
  - reflexivity.
  - reflexivity.
  - reflexivity.
  - reflexivity.
  - simpl. lia.
  - unfold uhd_bytes, blen. rewrite length_replicate. simpl. lia.
  - reflexivity.
  - reflexivity.
Defined.

(** ** The flags of the committed frames *)

Lemma finish_extract_flags nd target c ret c' :
  is_detiled c = false ->
  finish_extract nd target c = Some (ret, c') ->
  (is_detiled c' = true <-> (ret = 0 /\ nd = true))
  /\ (nd = false -> ret = 0).
Proof.
  intros Hf. unfold finish_extract. destruct nd.
  - destruct (convert_tiled_to_linear _ _ _ _ _ _) as [[r dst']|]; [| done].
    case_decide; intros [= <- <-]; simpl; rewrite ?Hf; split; try done;
      split; try done; intros [? _]; done.
  - intros [= <- <-]. simpl. rewrite Hf. split; [| done].
    split; [done | intros [_ ?]; done].
Qed.

Lemma extract_dma_buf_flags gem nd target ts c ret c' :
  is_detiled c = false ->
  extract_dma_buf gem nd target ts c = Some (ret, c') ->
  (is_detiled c' = true <-> (ret = 0 /\ nd = true))
  /\ (nd = false -> ret = 0 \/ ret = - ENODATA).
Proof.
  intros Hf. unfold extract_dma_buf.
  assert (forall r, r = - ENODATA ->
            Some (r, c) = Some (ret, c') ->
            (is_detiled c' = true <-> ret = 0 /\ nd = true)
            /\ (nd = false -> ret = 0 \/ ret = - ENODATA)) as Hno.
  { intros r -> [= <- <-]. rewrite Hf. unfold ENODATA. split; [| auto].
    split; [done | intros [? _]; lia]. }
  destruct (gem_dma_buf gem) as [d|]; [| by apply Hno].
  destruct (vmap_vaddr d) as [vaddr|]; [| by apply Hno].
  case_decide; [| by apply Hno].
  destruct (memcpy_to target 0 vaddr _) as [tb'|]; [| done].
  intros Hfin. destruct (finish_extract_flags _ _ _ _ _ Hf Hfin) as [H1 H2].
  split; [done |]. intros Hnd. left. by apply H2.
Qed.

(** The extractor sets [is_detiled] exactly when it returns 0 for a tiled
    capture. *)
Lemma extract_gem_pixels_flags gem c ra ret c' :
  is_detiled c = false ->
  extract_gem_pixels (Some gem) c ra = Some (ret, c') ->
  is_detiled c' = true
  <-> (ret = 0 /\ detected_tiling c <> INTEL_TILING_NONE).
Proof.
  intros Hf. unfold extract_gem_pixels.
  set (nd := negb (tiling_is_none (detected_tiling c))).
  assert (nd = true <-> detected_tiling c <> INTEL_TILING_NONE) as Hnd
    by (unfold nd; destruct (detected_tiling c); simpl; split; done).
  set (raw := if nd then vmalloc ra (mul32 (height c) (pitch c)) else None).
  destruct (nd && is_none raw).
  { intros [= <- <-]. rewrite Hf. unfold ENOMEM.
    split; [done | intros [? _]; lia]. }
  destruct (gem_mapping gem) as [mapping|].
  - destruct (shmem_copy _ _ _ _ _ _ _) as [[tb' copied]|]; [| done].
    case_decide.
    + intros Hfin. destruct (finish_extract_flags _ _ _ _ _ Hf Hfin) as [H1 _].
      rewrite H1. by rewrite Hnd.
    + intros Hfin. destruct (extract_dma_buf_flags _ _ _ _ _ _ _ Hf Hfin) as [H1 _].
      rewrite H1. by rewrite Hnd.
  - intros Hfin. destruct (extract_dma_buf_flags _ _ _ _ _ _ _ Hf Hfin) as [H1 _].
    rewrite H1. by rewrite Hnd.
Qed.

Lemma slot_flags_new_capture f device env : slot_flags_ok (new_capture f device env).
Proof. by repeat split. Qed.

Lemma slot_flags_zero : slot_flags_ok zero_capture.
Proof. by repeat split. Qed.

(** Every slot a capture writes has consistent flags. *)
Lemma capture_fb_pixels_flags fbp device env st ret st' :
  capture_fb_pixels fbp device env st = Some (ret, st') ->
  Forall slot_flags_ok (captured_fbs st) ->
  Forall slot_flags_ok (captured_fbs st').
Proof.
  unfold capture_fb_pixels.
  destruct fbp as [f|]; [| by intros [= <- <-]].
  destruct (fb_obj0 f) as [gem|]; [| by intros [= <- <-]].
  destruct (slot_get _ _) as [old|]; [| done].
  destruct (vmalloc (pixel_alloc env) _) as [buf|].
  - destruct (extract_gem_pixels _ _ _) as [[r c]|] eqn:Hex; [| done].
    intros [= <- <-] Hall. cbn [captured_fbs]. apply Forall_insert; [done |].
    pose proof (extract_gem_pixels_flags gem
                  (set_pixel_buffer (new_capture f device env) (Some buf))
                  (raw_alloc env) r c eq_refl Hex) as Hdet.
    apply extract_gem_pixels_spec in Hex as (Hm & _ & _ & _).
    destruct Hm as (_ & _ & _ & _ & _ & _ & _ & _ & Ht).
    cbn [set_pixel_buffer detected_tiling] in Hdet, Ht.
    case_decide as Hr; unfold slot_flags_ok; simpl.
    + split; [done |]. split; [done |]. intros _. rewrite Hdet, Ht.
      split; [by intros [_ ?] | by split].
    + split; [done |]. split; [| done]. intros Hd. apply Hdet in Hd as [? _]. done.
  - intros [= <- <-] Hall. cbn [captured_fbs].
    apply Forall_insert; [done | apply slot_flags_new_capture].
Qed.

(** Every state the module can reach is consistent: the store has its five
    slots, the counters are in range, every pixel buffer has [buffer_size]
    bytes, at most [MAX_CAPTURE_SIZE], a slot with pixel data is valid and
    has a buffer, and a slot with pixel data is marked detiled exactly when
    its framebuffer was detected as tiled. *)
Theorem reachable_store_consistent st :
  reachable st ->
  store_inv st /\ Forall slot_flags_ok (captured_fbs st).
Proof.
  induction 1 as [| st fbp device env ret st' _ [IH1 IH2] Hrun].
  - split; [apply store_inv_init |]. simpl.
    repeat (apply Forall_cons; split; [apply slot_flags_zero |]). apply Forall_nil_2.
  - split; [by eapply capture_fb_pixels_inv | by eapply capture_fb_pixels_flags].
Qed.

Lemma reachable_store_consistent_witness :
  store_inv wrapped_state /\ Forall slot_flags_ok (captured_fbs wrapped_state).
Proof.
  apply reachable_store_consistent.
  assert (forall evs st rets st',
            reachable st -> run_captures evs st = Some (rets, st') -> reachable st')
    as Hruns.
  { induction evs as [|ev evs IH]; intros st rets st' Hst; simpl.
    - by intros [= <- <-].
    - destruct (capture_fb_pixels _ _ _ st) as [[r st1]|] eqn:Hstep; [| done].
      destruct (run_captures evs st1) as [[rs st2]|] eqn:Hrest; [| done].
      intros [= <- <-]. eapply IH; [| exact Hrest].
      by eapply reach_capture. }
  apply (Hruns six_events init_state [0; 0; 0; 0; 0; 0] wrapped_state reach_init).
  vm_compute. reflexivity.
Defined.

(** A sequence of captures from a reachable state ends in a reachable state. *)
Lemma run_captures_reachable evs st rets st' :
  reachable st -> run_captures evs st = Some (rets, st') -> reachable st'.
Proof.
  revert st rets st'.
  induction evs as [|ev evs IH]; intros st rets st' Hst; simpl.
  - by intros [= <- <-].
  - destruct (capture_fb_pixels _ _ _ st) as [[r st1]|] eqn:Hstep; [| done].
    destruct (run_captures evs st1) as [[rs st2]|] eqn:Hrest; [| done].
    intros [= <- <-]. eapply IH; [| exact Hrest].
    by eapply reach_capture.
Qed.

(** ** One capture and the rest of the store *)

(** A capture returns 0, [-EINVAL] or [-ENOMEM]; it changes no slot but the
    one at [current_index]; it never lowers [capture_count] and raises it by
    at most one; a capture that fails leaves both counters as they were, and
    one that returns [-EINVAL] leaves the whole store as it was. *)
Theorem capture_changes_one_slot fbp device env st ret st' :
  store_inv st ->
  capture_fb_pixels fbp device env st = Some (ret, st') ->
  (ret = 0 \/ ret = - EINVAL \/ ret = - ENOMEM)
  /\ (forall j, j <> current_index st ->
        slot_get (captured_fbs st') j = slot_get (captured_fbs st) j)
  /\ capture_count st <= capture_count st' <= capture_count st + 1
  /\ (ret <> 0 ->
      capture_count st' = capture_count st /\ current_index st' = current_index st)
  /\ (ret = - EINVAL -> st' = st).
Proof.
  intros Hinv Hrun. pose proof (store_inv_index st Hinv) as Hidx.
  apply capture_fb_pixels_cases in Hrun
    as [(-> & -> & _) | [(f & _ & -> & _ & ->) | (f & c & _ & -> & _ & _ & _ & ->)]];
    cbn [captured_fbs capture_count current_index].
  - split; [auto |]. split; [done |]. split; [lia |]. split; done.
  - split; [auto |]. split.
    + intros j Hj. apply slot_get_set_ne; [lia | done].
    + split; [lia |]. split; [done |]. unfold ENOMEM, EINVAL. lia.
  - split; [auto |]. split.
    + intros j Hj. apply slot_get_set_ne; [lia | done].
    + split; [case_decide; lia |]. split; [done |]. unfold EINVAL. lia.
Qed.

Lemma capture_changes_one_slot_witness :
  exists st',
    capture_fb_pixels (Some tiled_fb) 7 (env_ok 3) wrapped_state = Some (0, st')
    /\ slot_get (captured_fbs st') 0 = slot_get (captured_fbs wrapped_state) 0.
Proof.
  destruct (capture_fb_pixels (Some tiled_fb) 7 (env_ok 3) wrapped_state)
    as [[r st']|] eqn:Hrun; [| vm_compute in Hrun; discriminate Hrun].
  assert (r = 0) as -> by (vm_compute in Hrun; congruence).
  exists st'. split; [reflexivity |].
  destruct (capture_changes_one_slot (Some tiled_fb) 7 (env_ok 3) wrapped_state 0 st')
    as (_ & Hother & _).
  - apply (bool_decide_unpack _). vm_compute. exact I.
  - exact Hrun.
  - apply Hother. vm_compute. intros H. discriminate H.
Defined.

(** ** Reading what was captured *)

(** Until the store has wrapped, [current_index] is [capture_count]. *)
Lemma reachable_unwrapped st :
  reachable st -> capture_count st < MAX_FB_CAPTURE ->
  current_index st = capture_count st.
Proof.
  induction 1 as [| st fbp device env ret st' Hreach IH Hrun]; [done |].
  pose proof (reachable_store_inv st Hreach) as (_ & _ & Hcnt & _).
  unfold MAX_FB_CAPTURE in *.
  apply capture_fb_pixels_cases in Hrun
    as [(_ & -> & _) | [(f & _ & _ & _ & ->) | (f & c & _ & _ & _ & _ & _ & ->)]];
    cbn [captured_fbs capture_count current_index]; [done | done |].
  unfold MAX_FB_CAPTURE in *.
  case_decide; [| lia]. intros Hlt. rewrite IH by lia.
  apply Z.mod_small. lia.
Qed.

Lemma find_capture_total fbs n :
  (n <= length fbs)%nat -> is_Some (find_capture fbs n).
Proof.
  induction n as [|n IH]; intros Hn; simpl; [by eexists |].
  destruct (lookup_lt_is_Some_2 fbs n) as [c ->]; [lia |].
  destruct (valid c && has_pixels c); [by eexists | apply IH; lia].
Qed.

(** Until the store has wrapped, [current_index] is [capture_count] and the
    scan of [drm_fb_raw_read] selects the most recently committed frame with
    pixel data. *)
Theorem read_scan_is_newest_first_until_wrap st :
  reachable st -> capture_count st < MAX_FB_CAPTURE ->
  current_index st = capture_count st
  /\ find_capture (captured_fbs st) (Z.to_nat (capture_count st))
     = Some (spec_read_target st).
Proof.
  intros Hreach Hlt.
  pose proof (reachable_store_inv st Hreach) as (Hlen & _ & Hcnt & _).
  pose proof (reachable_unwrapped st Hreach Hlt) as Hidx.
  split; [done |].
  unfold MAX_FB_CAPTURE in *.
  destruct (find_capture_total (captured_fbs st) (Z.to_nat (capture_count st)))
    as [r Hr]; [lia |].
  pose proof (find_capture_newest_first (captured_fbs st)
                (Z.to_nat (capture_count st)) Hlen ltac:(lia)) as Hscan.
  rewrite Z2Nat.id, Z.mod_small in Hscan by lia.
  unfold spec_read_target. rewrite Hidx, Hscan. by rewrite Hr.
Qed.

Lemma read_scan_is_newest_first_until_wrap_witness :
  current_index early_state = capture_count early_state
  /\ find_capture (captured_fbs early_state) (Z.to_nat (capture_count early_state))
     = Some (spec_read_target early_state).
Proof.
  apply read_scan_is_newest_first_until_wrap.
  - apply (run_captures_reachable early_events init_state [0; 0] early_state reach_init).
    vm_compute. reflexivity.
  - vm_compute. reflexivity.
Defined.

(** The frame a successful capture has just stored, with pixel data, in a
    store that has not wrapped is the frame the next read delivers: a read of
    [count] bytes at position 0 returns the first [count] bytes of its pixel
    buffer, the whole buffer when [count] is at least its size. *)
Theorem capture_then_read fbp device env st st' c count :
  reachable st -> capture_count st < MAX_FB_CAPTURE ->
  capture_fb_pixels fbp device env st = Some (0, st') ->
  slot_get (captured_fbs st') (current_index st) = Some c ->
  has_pixels c = true ->
  0 <= count < 2 ^ 64 ->
  exists buf,
    pixel_buffer c = Some buf
    /\ drm_fb_raw_read st' count 0 true
       = Some {| read_ret := Z.min count (blen buf);
                 read_data := take (Z.to_nat count) buf;
                 read_pos := Z.min count (blen buf) |}.
Proof.
  intros Hreach Hlt Hrun Hslot Hpx Hcount.
  pose proof (reachable_store_inv st Hreach) as Hinv.
  pose proof (capture_fb_pixels_inv _ _ _ _ _ _ Hinv Hrun) as Hinv'.
  pose proof (reachable_unwrapped st Hreach Hlt) as Hidx.
  destruct Hinv as (Hlen & _ & Hcnt & _).
  assert (find_capture (captured_fbs st') (Z.to_nat (capture_count st'))
          = Some (Some c)) as Hfind.
  { apply capture_success in Hrun as (f & c' & _ & _ & Hv & _ & ->).
    cbn [captured_fbs capture_count] in *.
    rewrite decide_True by done.
    replace (Z.to_nat (capture_count st + 1))
      with (Datatypes.S (Z.to_nat (capture_count st))) by lia.
    rewrite slot_get_set in Hslot by lia. injection Hslot as ->.
    cbn [find_capture]. rewrite Hidx. unfold slot_set.
    rewrite list_lookup_insert_eq by lia.
    by rewrite Hv, Hpx. }
  destruct (raw_read_target st' c count 0 Hinv' Hfind Hcount ltac:(lia))
    as (buf & Hbuf & Hsize & Heof & Hdata).
  exists buf. split; [done |].
  destruct (decide (buffer_size c <= 0)) as [Hz | Hnz].
  - rewrite Heof by done.
    assert (buf = []) as -> by (apply nil_length_inv; unfold blen in Hsize; lia).
    unfold blen. simpl. rewrite take_nil. do 2 f_equal; lia.
  - specialize (Hdata ltac:(lia)). cbn zeta in Hdata.
    destruct Hdata as [-> _].
    rewrite Z.sub_0_r, Z.add_0_l, <- Hsize.
    change (Z.to_nat 0) with 0%nat. rewrite drop_0. f_equal. f_equal.
    unfold blen. destruct (decide (count <= blen buf)) as [Hle | Hgt].
    + by rewrite Z.min_l by done.
    + unfold blen in *. rewrite Z.min_r by lia.
      rewrite (take_ge buf (Z.to_nat count)) by lia.
      rewrite take_ge by lia. done.
Qed.

Lemma capture_then_read_witness :
  exists st' buf,
    capture_fb_pixels (Some tiled_fb) 7 (env_ok 3) early_state = Some (0, st')
    /\ drm_fb_raw_read st' 100 0 true
       = Some {| read_ret := Z.min 100 (blen buf);
                 read_data := take (Z.to_nat 100) buf;
                 read_pos := Z.min 100 (blen buf) |}.
Proof.
  destruct (capture_fb_pixels (Some tiled_fb) 7 (env_ok 3) early_state)
    as [[r st']|] eqn:Hrun; [| vm_compute in Hrun; discriminate Hrun].
  assert (r = 0) as -> by (vm_compute in Hrun; congruence).
  destruct (slot_get (captured_fbs st') (current_index early_state)) as [c|] eqn:Hc;
    [| vm_compute in Hrun; injection Hrun as <-; vm_compute in Hc; discriminate Hc].
  destruct (capture_then_read (Some tiled_fb) 7 (env_ok 3) early_state st' c 100)
    as (buf & _ & Hread).
  - apply (run_captures_reachable early_events init_state [0; 0] early_state reach_init).
    vm_compute. reflexivity.
  - vm_compute. reflexivity.
  - exact Hrun.
  - exact Hc.
  - vm_compute in Hrun. injection Hrun as <-. vm_compute in Hc.
    injection Hc as <-. reflexivity.
  - split; [lia | reflexivity].
  - exists st', buf. split; [reflexivity | exact Hread].
Defined.

(** Reads compose: a read of [c1] bytes followed by a read of [c2] bytes at
    the position the first one left delivers, together, what one read of
    [c1 + c2] bytes delivers, and leaves the same position. *)
Theorem raw_reads_compose st c1 c2 pos r1 r2 :
  store_inv st ->
  0 <= c1 -> 0 <= c2 -> c1 + c2 < 2 ^ 64 -> 0 <= pos < 2 ^ 63 ->
  drm_fb_raw_read st c1 pos true = Some r1 -> 0 <= read_ret r1 ->
  drm_fb_raw_read st c2 (read_pos r1) true = Some r2 -> 0 <= read_ret r2 ->
  drm_fb_raw_read st (c1 + c2) pos true
  = Some {| read_ret := read_ret r1 + read_ret r2;
            read_data := read_data r1 ++ read_data r2;
            read_pos := read_pos r2 |}.
Proof.
  intros Hinv Hc1 Hc2 Hsum Hpos Hr1 Hret1 Hr2 Hret2.
  destruct (find_capture (captured_fbs st) (Z.to_nat (capture_count st)))
    as [[c|]|] eqn:Hfind.
  - destruct (find_capture_found _ _ _ Hfind) as [Hin _].
    destruct Hinv as (Hlen & Hi & Hcnt & Hall).
    destruct (proj1 (Forall_forall _ _) Hall c Hin) as [Hsize _].
    pose proof (conj Hlen (conj Hi (conj Hcnt Hall))) as Hinv.
    unfold MAX_CAPTURE_SIZE in Hsize.
    destruct (raw_read_target st c c1 pos Hinv Hfind ltac:(lia) Hpos)
      as (buf & Hbuf & Hbs & Heof1 & Hdata1).
    destruct (raw_read_target st c (c1 + c2) pos Hinv Hfind ltac:(lia) Hpos)
      as (buf' & Hbuf' & _ & Heof & Hdata).
    assert (buf' = buf) as -> by congruence.
    destruct (decide (buffer_size c <= pos)) as [Hge | Hlt].
    + rewrite Heof1 in Hr1 by done. injection Hr1 as <-.
      cbn [read_pos read_ret read_data] in *.
      destruct (raw_read_target st c c2 pos Hinv Hfind ltac:(lia) Hpos)
        as (buf' & _ & _ & Heof2 & _).
      rewrite Heof2 in Hr2 by done. injection Hr2 as <-.
      by rewrite Heof.
    + specialize (Hdata1 ltac:(lia)). cbn zeta in Hdata1.
      destruct Hdata1 as [Hd1 _]. rewrite Hd1 in Hr1. injection Hr1 as <-.
      specialize (Hdata ltac:(lia)). cbn zeta in Hdata.
      destruct Hdata as [-> _].
      cbn [read_pos read_ret read_data] in *.
      remember (Z.min c1 (buffer_size c - pos)) as n1 eqn:Hn1.
      destruct (raw_read_target st c c2 (pos + n1) Hinv Hfind ltac:(lia) ltac:(lia))
        as (buf' & Hbuf2 & _ & Heof2 & Hdata2).
      assert (buf' = buf) as -> by congruence.
      destruct (decide (buffer_size c <= pos + n1)) as [Hend | Hmore].
      * rewrite Heof2 in Hr2 by done. injection Hr2 as <-.
        cbn [read_pos read_ret read_data].
        rewrite app_nil_r, Z.add_0_r.
        replace (Z.min (c1 + c2) (buffer_size c - pos)) with n1 by lia.
        done.
      * specialize (Hdata2 ltac:(lia)). cbn zeta in Hdata2.
        destruct Hdata2 as [Hd2 _]. rewrite Hd2 in Hr2. injection Hr2 as <-.
        cbn [read_pos read_ret read_data].
        remember (Z.min c2 (buffer_size c - (pos + n1))) as n2 eqn:Hn2.
        replace (Z.min (c1 + c2) (buffer_size c - pos)) with (n1 + n2) by lia.
        f_equal. f_equal; [| lia].
        replace (Z.to_nat (pos + n1)) with (Z.to_nat pos + Z.to_nat n1)%nat by lia.
        rewrite <- drop_drop.
        replace (Z.to_nat (n1 + n2)) with (Z.to_nat n1 + Z.to_nat n2)%nat by lia.
        by rewrite take_take_drop.
  - unfold drm_fb_raw_read in Hr1. rewrite Hfind in Hr1. injection Hr1 as <-.
    cbn [read_ret] in Hret1. unfold ENODATA in Hret1. lia.
  - unfold drm_fb_raw_read in Hr1. by rewrite Hfind in Hr1.
Qed.

Lemma raw_reads_compose_witness :
  exists r1 r2,
    drm_fb_raw_read wrapped_state 3 0 true = Some r1
    /\ drm_fb_raw_read wrapped_state 5 (read_pos r1) true = Some r2
    /\ drm_fb_raw_read wrapped_state (3 + 5) 0 true
       = Some {| read_ret := read_ret r1 + read_ret r2;
                 read_data := read_data r1 ++ read_data r2;
                 read_pos := read_pos r2 |}.
Proof.
  destruct (drm_fb_raw_read wrapped_state 3 0 true) as [r1|] eqn:H1;
    [| vm_compute in H1; discriminate H1].
  destruct (drm_fb_raw_read wrapped_state 5 (read_pos r1) true) as [r2|] eqn:H2;
    [| vm_compute in H1; injection H1 as <-; vm_compute in H2; discriminate H2].
  exists r1, r2. split; [reflexivity |]. split; [exact H2 |].
  apply (raw_reads_compose wrapped_state 3 5 0 r1 r2).
  - apply (bool_decide_unpack _). vm_compute. exact I.
  - lia.
  - lia.
  - reflexivity.
  - split; [lia | reflexivity].
  - exact H1.
  - vm_compute in H1. injection H1 as <-. vm_compute. intros H. discriminate H.
  - exact H2.
  - vm_compute in H1. injection H1 as <-. vm_compute in H2. injection H2 as <-.
    vm_compute. intros H. discriminate H.
Defined.

(** ** From the SHMEM method to the DMA-buf method *)

(** With no page present below [num_pages] the loop copies nothing. *)
Lemma shmem_copy_no_pages fuel :
  forall (mapping : list (option buffer)) tb ts copied index np,
  (forall i, index <= i < np -> find_get_page mapping i = None) ->
  shmem_copy fuel mapping tb ts copied index np = Some (tb, copied).
Proof.
  induction fuel as [|fuel IH]; intros mapping tb ts copied index np Hnone;
    cbn [shmem_copy]; [done |].
  destruct (bool_decide (copied < ts) && bool_decide (index < np)) eqn:Hc; [| done].
  apply andb_true_iff in Hc as [_ Hi]. apply bool_decide_eq_true in Hi.
  rewrite Hnone by lia. apply IH. intros i Hr. apply Hnone. lia.
Qed.

(** A GEM object whose page cache holds none of its pages is read exactly as
    if it had no page cache at all: through its DMA-buf if it has one, and
    with [-ENODATA] otherwise. *)
Theorem shmem_without_pages_falls_back gem (mapping : list (option buffer)) c ra :
  gem_mapping gem = Some mapping ->
  (forall i, 0 <= i < Z.shiftr (u64 (gem_size gem + PAGE_SIZE - 1)) PAGE_SHIFT ->
             find_get_page mapping i = None) ->
  extract_gem_pixels (Some gem) c ra
  = extract_gem_pixels
      (Some {| gem_size := gem_size gem; gem_mapping := None;
               gem_dma_buf := gem_dma_buf gem |}) c ra.
Proof.
  intros Hm Hnone. unfold extract_gem_pixels.
  cbn [gem_mapping gem_size gem_dma_buf]. rewrite Hm.
  destruct (negb (tiling_is_none (detected_tiling c)) && is_none _); [done |].
  rewrite shmem_copy_no_pages by done.
  rewrite decide_False by lia. done.
Qed.

Lemma shmem_without_pages_falls_back_witness :
  extract_gem_pixels
    (Some {| gem_size := 8192; gem_mapping := Some [None; None];
             gem_dma_buf := gem_dma_buf (dma_gem [x01; x02; x03; x04]) |})
    (set_pixel_buffer (new_capture (sample_fb 1 1 1 4 0 opaque_gem) 7 (env_ok 1))
       (Some [x00; x00; x00; x00]))
    None
  = Some (0, set_pixel_buffer
               (new_capture (sample_fb 1 1 1 4 0 opaque_gem) 7 (env_ok 1))
               (Some [x01; x02; x03; x04])).
Proof.
  rewrite (shmem_without_pages_falls_back _ [None; None]).
  - vm_compute. reflexivity.
  - reflexivity.
  - intros i Hi. change (Z.shiftr _ _) with 2 in Hi.
    assert (i = 0 \/ i = 1) as [-> | ->] by lia; reflexivity.
Defined.

(** * Version 2.0 and version 2.1 on linear framebuffers *)

(** The SHMEM loop never lowers [copied], and when it has not raised it the
    target is as it was. *)
Lemma shmem_copy_progress fuel :
  forall (mapping : list (option buffer)) tb ts copied index np tb' copied',
  0 <= copied -> ts < 2 ^ 64 ->
  shmem_copy fuel mapping tb ts copied index np = Some (tb', copied') ->
  copied <= copied' /\ (copied' = copied -> tb' = tb).
Proof.
  induction fuel as [|fuel IH];
    intros mapping tb ts copied index np tb' copied' Hc Hts; cbn [shmem_copy].
  - intros [= <- <-]. split; [lia | done].
  - destruct (bool_decide (copied < ts) && bool_decide (index < np)) eqn:Hcond;
      [| intros [= <- <-]; split; [lia | done]].
    apply andb_true_iff in Hcond as [Hlt _]. apply bool_decide_eq_true in Hlt.
    destruct (find_get_page mapping index) as [kaddr|]; [| by apply IH].
    destruct (memcpy_to _ _ _ _) as [tb1|]; [| done].
    intros Hrec. apply IH in Hrec as [Hle _]; unfold u64, PAGE_SIZE in *.
    + rewrite (Z.mod_small (ts - copied)) in Hle by lia.
      rewrite Z.mod_small in Hle by lia. split; lia.
    + apply Z.mod_pos_bound. lia.
    + done.
Qed.

Lemma set_pixel_buffer_same (c : v2_0.fb_pixel_data) :
  v2_0.set_pixel_buffer c (v2_0.pixel_buffer c) = c.
Proof. by destruct c. Qed.

Lemma extract_dma_buf_upgrade gem (c : v2_0.fb_pixel_data) :
  extract_dma_buf gem false (v2_0.pixel_buffer c) (v2_0.buffer_size c) (upgrade c)
  = match v2_0.extract_dma_buf gem c with
    | Some (ret, c') => Some (ret, upgrade c')
    | None => None
    end.
Proof.
  unfold extract_dma_buf, v2_0.extract_dma_buf.
  destruct (gem_dma_buf gem) as [d|]; [| done].
  destruct (vmap_vaddr d) as [vaddr|]; [| done].
  case_decide; [| done].
  by destruct (memcpy_to _ _ _ _).
Qed.

(** On a capture record without tiling, the extractor of version 2.1 does
    what the extractor of version 2.0 does. *)
Lemma extract_gem_pixels_upgrade gem_obj (c : v2_0.fb_pixel_data) ra :
  0 <= v2_0.buffer_size c < 2 ^ 64 ->
  extract_gem_pixels gem_obj (upgrade c) ra
  = match v2_0.extract_gem_pixels gem_obj c with
    | Some (ret, c') => Some (ret, upgrade c')
    | None => None
    end.
Proof.
  intros Hsize. destruct gem_obj as [gem|]; [| done].
  unfold extract_gem_pixels, v2_0.extract_gem_pixels.
  cbn [upgrade detected_tiling tiling_is_none negb andb pixel_buffer buffer_size].
  destruct (gem_mapping gem) as [mapping|]; [| apply extract_dma_buf_upgrade].
  destruct (shmem_copy _ _ _ _ _ _ _) as [[tb' copied]|] eqn:Hloop; [| done].
  apply shmem_copy_progress in Hloop as [Hle Hsame]; [| lia | lia].
  case_decide; [done |].
  assert (copied = 0) as -> by lia. rewrite Hsame by done.
  rewrite set_pixel_buffer_same. apply extract_dma_buf_upgrade.
Qed.

Lemma new_capture_upgrade f device env :
  detect_intel_tiling (Some f) = INTEL_TILING_NONE ->
  fb_pitches0 f = mul32 (fb_width f) 4 ->
  new_capture f device env = upgrade (v2_0.new_capture f device env).
Proof.
  intros Ht Hp. unfold new_capture, v2_0.new_capture, upgrade.
  cbn [v2_0.fb v2_0.dev v2_0.pixel_buffer v2_0.buffer_size v2_0.width v2_0.height
       v2_0.format v2_0.pitch v2_0.timestamp v2_0.valid v2_0.has_pixels].
  rewrite Ht, Hp.
  replace (mul32 (fb_height f) (mul32 (fb_width f) 4))
    with (mul32 (mul32 (fb_height f) (fb_width f)) 4); [done |].
  unfold mul32, u32.
  rewrite Z.mul_mod_idemp_l, Z.mul_mod_idemp_r by lia. f_equal. lia.
Qed.

Lemma v2_0_new_capture_size f device env :
  0 <= v2_0.buffer_size (v2_0.new_capture f device env) <= MAX_CAPTURE_SIZE.
Proof.
  simpl. pose proof (mul32_range (fb_height f) (fb_pitches0 f)).
  case_decide; unfold MAX_CAPTURE_SIZE in *; lia.
Qed.

(** Version 2.1 is version 2.0 on linear framebuffers with no row padding:
    when no tiling is detected and the pitch is [width * 4], a capture of
    version 2.1 returns what a capture of version 2.0 returns and leaves the
    same store, the two new fields of each record apart. *)
Theorem linear_capture_as_in_v2_0 f device env (st : v2_0.module_state) :
  detect_intel_tiling (Some f) = INTEL_TILING_NONE ->
  fb_pitches0 f = mul32 (fb_width f) 4 ->
  capture_fb_pixels (Some f) device env (upgrade_state st)
  = upgrade_result (v2_0.capture_fb_pixels (Some f) device env st).
Proof.
  intros Ht Hp. unfold capture_fb_pixels, v2_0.capture_fb_pixels.
  destruct (fb_obj0 f) as [gem|]; [| done].
  cbn [upgrade_state captured_fbs capture_count current_index].
  unfold slot_get, v2_0.slot_get.
  case_decide; [| done]. rewrite list_lookup_fmap.
  destruct (v2_0.captured_fbs st !! _) as [old|]; [| done]. cbn [fmap option_fmap option_map].
  rewrite (new_capture_upgrade f device env Ht Hp).
  pose proof (v2_0_new_capture_size f device env) as Hsize.
  unfold MAX_CAPTURE_SIZE in Hsize.
  remember (v2_0.new_capture f device env) as c0 eqn:Hc0.
  cbn [upgrade buffer_size].
  destruct (vmalloc (pixel_alloc env) (v2_0.buffer_size c0)) as [buf|].
  - change (set_pixel_buffer _ (Some buf))
      with (upgrade (v2_0.set_pixel_buffer c0 (Some buf))).
    rewrite extract_gem_pixels_upgrade by (cbn [v2_0.set_pixel_buffer v2_0.buffer_size]; lia).
    destruct (v2_0.extract_gem_pixels _ _) as [[ret c1]|]; [| done].
    cbn [upgrade_result upgrade_state v2_0.captured_fbs v2_0.capture_count
         v2_0.current_index].
    unfold slot_set, v2_0.slot_set.
    case_decide; unfold upgrade_state;
      cbn [v2_0.captured_fbs v2_0.capture_count v2_0.current_index];
      by rewrite list_fmap_insert.
  - cbn [upgrade_result upgrade_state v2_0.captured_fbs v2_0.capture_count
         v2_0.current_index].
    unfold slot_set, v2_0.slot_set, upgrade_state.
    cbn [v2_0.captured_fbs v2_0.capture_count v2_0.current_index].
    by rewrite list_fmap_insert.
Qed.

Lemma linear_capture_as_in_v2_0_witness :
  capture_fb_pixels (Some tight_fb) 7 (env_ok 1) (upgrade_state v2_0.init_state)
  = upgrade_result (v2_0.capture_fb_pixels (Some tight_fb) 7 (env_ok 1) v2_0.init_state).
Proof.
  apply linear_capture_as_in_v2_0; reflexivity.
Defined.
